(** * SIP management system: execution engine, reconciler, lifecycle and valuation

    A shallow embedding of the C++ sources (models, repositories, services,
    scheduler, date utilities) together with the properties the design
    document states about them.

    Conventions of the embedding
    - [double] is IEEE binary64: Rocq's primitive [float].  [std::pow] belongs
      to the C math library and is taken through the class [MathLib].
    - The tick count of a [time_point] is a signed 64-bit integer: it is an
      integer of [Z], and every operation on it writes its wrap-around out.
      So does every [int] operation on an argument of the date functions, and
      the unsigned 64-bit identifier counter.  The other [int]s (the fields
      [localtime] fills, installment and loop counters) are integers of [Z]:
      they stay far from the ends of [int].
    - [std::localtime] and [std::mktime] belong to the C library and depend
      on the time zone of the process: they are taken through the class
      [CLibrary].
    - [std::unordered_map] is a [gmap]; [std::set<std::string>] is a [gset]
      whose iteration is the sorted enumeration [set_iteration].
    - A member function that mutates an object is a function from the state
      before to the state after and an [Outcome]: the value returned or the
      exception thrown.  State written before a throw stays written. *)

From Stdlib Require Import ZArith Lia Bool List Ascii String.
From Stdlib Require Import Floats.PrimFloat Floats.SpecFloat Floats.FloatOps Floats.FloatAxioms.
From Stdlib Require Import Numbers.Cyclic.Int63.Uint63.
From stdpp Require Import gmap strings sorting pretty list.

Local Open Scope Z_scope.
#[local] Set Warnings "-clear-no-such-hyp".

(** ** Enums.h *)

Inductive SIPFrequency := WEEKLY | MONTHLY | QUARTERLY.
Inductive SIPState := ACTIVE | PAUSED | STOPPED.
Inductive PaymentStatus := PENDING | SUCCESS | FAILURE.
Inductive TransactionType := INSTALLMENT | LUMP_SUM.
Inductive RiskLevel := LOW | MEDIUM | HIGH.
Inductive FundCategory := EQUITY | DEBT | HYBRID | ELSS.

#[global] Instance SIPFrequency_eq_dec : EqDecision SIPFrequency.
Proof. solve_decision. Defined.
#[global] Instance SIPState_eq_dec : EqDecision SIPState.
Proof. solve_decision. Defined.
#[global] Instance PaymentStatus_eq_dec : EqDecision PaymentStatus.
Proof. solve_decision. Defined.
#[global] Instance TransactionType_eq_dec : EqDecision TransactionType.
Proof. solve_decision. Defined.

(** The overloads of [toString]; each is named after its argument type. *)
Definition toString_SIPFrequency (freq : SIPFrequency) : string :=
  match freq with
  | WEEKLY => "WEEKLY"
  | MONTHLY => "MONTHLY"
  | QUARTERLY => "QUARTERLY"
  end.

Definition toString_SIPState (state : SIPState) : string :=
  match state with
  | ACTIVE => "ACTIVE"
  | PAUSED => "PAUSED"
  | STOPPED => "STOPPED"
  end.

Definition toString_PaymentStatus (status : PaymentStatus) : string :=
  match status with
  | PENDING => "PENDING"
  | SUCCESS => "SUCCESS"
  | FAILURE => "FAILURE"
  end.

(** ** Exceptions.h

    Each constructor carries the arguments of the C++ constructor, in their
    order.  For [InvalidStateException] these are the SIP id, the printed
    current state and the attempted operation.  ([TransactionNotFoundException]
    is declared in the header and thrown nowhere.) *)
Inductive Exception :=
  | SIPNotFoundException (sipId : string)
  | FundNotFoundException (fundId : string)
  | UserNotFoundException (userId : string)
  | ValidationException (message : string)
  | InvalidStateException (sipId currentState operation : string).

(** ** Outcomes and state passing *)

Inductive Outcome (A : Type) :=
  | Returned (a : A)
  | Thrown (e : Exception).
Arguments Returned {A} a.
Arguments Thrown {A} e.

(** A computation over a state [S]: the state afterwards and the outcome. *)
Definition Eff (S A : Type) : Type := S -> S * Outcome A.

Definition ret {S A} (a : A) : Eff S A := fun s => (s, Returned a).
Definition throw {S A} (e : Exception) : Eff S A := fun s => (s, Thrown e).
Definition bind {S A B} (m : Eff S A) (k : A -> Eff S B) : Eff S B :=
  fun s =>
    match m s with
    | (s', Returned a) => k a s'
    | (s', Thrown e) => (s', Thrown e)
    end.
Definition get {S} : Eff S S := fun s => (s, Returned s).
Definition modify {S} (f : S -> S) : Eff S unit := fun s => (f s, Returned tt).

(** [try { m } catch (const std::exception&) { h }] *)
Definition try_catch {S A} (m : Eff S A) (h : Exception -> Eff S A) : Eff S A :=
  fun s =>
    match m s with
    | (s', Returned a) => (s', Returned a)
    | (s', Thrown e) => h e s'
    end.

Declare Scope eff_scope.
Delimit Scope eff_scope with eff.
Notation "x <- m ;; k" := (bind m (fun x => k))
  (at level 100, m at next level, right associativity) : eff_scope.
Notation "m ;;; k" := (bind m (fun _ => k))
  (at level 100, right associativity) : eff_scope.

Definition returned {A} (o : Outcome A) : bool :=
  match o with Returned _ => true | Thrown _ => false end.

(** ** Dates: [std::chrono::system_clock::time_point] *)

(** A date is its tick count since the epoch: in libstdc++ a signed 64-bit
    count of nanoseconds.  The arithmetic of the sources on tick counts and
    on [int] wraps around, and every operation below writes its wrap out. *)
Definition Date : Type := Z.

Module Chrono.
(** Ticks of [system_clock] in one second (nanoseconds in libstdc++). *)
Definition ticks_per_second : Z := 1000000000.

(** What a signed 64-bit integer holds after an operation whose exact
    result is [z] (two's complement; the constants are 2^63 and 2^64). *)
Definition wrap64 (z : Z) : Z :=
  (z + 9223372036854775808) mod 18446744073709551616 - 9223372036854775808.

(** The same for [int], of 32 bits (2^31 and 2^32). *)
Definition wrap32 (z : Z) : Z := (z + 2147483648) mod 4294967296 - 2147483648.

(** The tick counts a [time_point] can hold. *)
Definition representable (d : Date) : Prop :=
  -9223372036854775808 <= d < 9223372036854775808.

(** [system_clock::to_time_t]: a [duration_cast] to seconds, which
    truncates toward zero. *)
Definition to_time_t (d : Date) : Z := Z.quot d ticks_per_second.

(** [system_clock::from_time_t]: a cast of whole seconds to ticks, a
    multiplication in the 64-bit representation. *)
Definition from_time_t (t : Z) : Date := wrap64 (t * ticks_per_second).

(** [std::chrono::hours(n)] converted to ticks. *)
Definition hours (n : Z) : Z := wrap64 (n * 3600 * ticks_per_second).

(** [time_point + duration], both in ticks. *)
Definition plus (d : Date) (ticks : Z) : Date := wrap64 (d + ticks).
End Chrono.

(** The C library's broken-down time, [struct tm]. *)
Record tm := Build_tm {
  tm_sec : Z;
  tm_min : Z;
  tm_hour : Z;
  tm_mday : Z;
  tm_mon : Z;
  tm_year : Z;
  tm_wday : Z;
  tm_yday : Z;
  tm_isdst : Z
}.

(** [std::localtime] and [std::mktime] belong to the C library and read the
    time zone of the process: they are taken through the class [CLibrary].
    [localtime t] is the structure the call fills for the [time_t] value [t];
    [mktime] is the value the call returns (it also normalises the structure
    it is given, which no caller reads afterwards).  [localtime] does not
    fail on the seconds of a [time_point], whose years, 1677 to 2262, are
    within [int]; [mktime] does not fail where [time_t] has 64 bits. *)
Class CLibrary := {
  localtime : Z -> tm;
  mktime : tm -> Z
}.

(** The proleptic Gregorian calendar by the usual era-based day count, the
    conversions of a zone without offset ([gmtime], [timegm]), and two C
    libraries: of a zone that keeps one offset from UTC all year, and of a
    zone with daylight saving time. *)
Module CLib.
(** Days since 1970-01-01 of the civil date [y]-[m]-[d], [m] in 1..12. *)
Definition days_from_civil (y m d : Z) : Z :=
  let y' := if m <=? 2 then y - 1 else y in
  let era := y' / 400 in
  let yoe := y' - era * 400 in
  let mp := if m <=? 2 then m + 9 else m - 3 in
  let doy := (153 * mp + 2) / 5 + d - 1 in
  let doe := yoe * 365 + yoe / 4 - yoe / 100 + doy in
  era * 146097 + doe - 719468.

(** The civil date (year, month 1..12, day) of a day count. *)
Definition civil_from_days (z : Z) : Z * Z * Z :=
  let z' := z + 719468 in
  let era := z' / 146097 in
  let doe := z' - era * 146097 in
  let yoe := (doe - doe / 1460 + doe / 36524 - doe / 146096) / 365 in
  let doy := doe - (365 * yoe + yoe / 4 - yoe / 100) in
  let mp := (5 * doy + 2) / 153 in
  let d := doy - (153 * mp + 2) / 5 + 1 in
  let m := if mp <? 10 then mp + 3 else mp - 9 in
  (if m <=? 2 then yoe + era * 400 + 1 else yoe + era * 400, m, d).

(** The broken-down UTC time of [t] seconds since the epoch; 1970-01-01 was
    a Thursday. *)
Definition gmtime (t : Z) : tm :=
  let days := t / 86400 in
  let secs := t mod 86400 in
  let '(y, m, d) := civil_from_days days in
  {| tm_sec := secs mod 60;
     tm_min := (secs / 60) mod 60;
     tm_hour := secs / 3600;
     tm_mday := d;
     tm_mon := m - 1;
     tm_year := y - 1900;
     tm_wday := (days + 4) mod 7;
     tm_yday := days - days_from_civil y 1 1;
     tm_isdst := 0 |}.

(** The seconds since the epoch of a broken-down UTC time.  Months outside
    0..11 carry into the year; days, hours, minutes and seconds out of range
    carry over linearly; [tm_wday], [tm_yday] and [tm_isdst] are not read. *)
Definition timegm (t : tm) : Z :=
  days_from_civil (tm_year t + 1900 + tm_mon t / 12) (tm_mon t mod 12 + 1) (tm_mday t)
    * 86400
  + tm_hour t * 3600 + tm_min t * 60 + tm_sec t.

(** The C library of a process whose zone is [offset] seconds east of UTC
    all year (no daylight saving time): UTC itself for [offset = 0]. *)
Definition fixed_zone (offset : Z) : CLibrary :=
  {| localtime := fun t => gmtime (t + offset);
     mktime := fun t => timegm t - offset |}.

(** The C library of a zone with daylight saving time: UTC in winter and one
    hour ahead from April to October.  [localtime] sets [tm_isdst] in
    summer; [mktime] takes a structure whose [tm_isdst] is positive as summer
    time and any other as winter time, whatever the season of its date, as
    the C library does. *)
Definition summer (t : Z) : bool :=
  (3 <=? tm_mon (gmtime t)) && (tm_mon (gmtime t) <=? 9).

Definition daylight_saving_zone : CLibrary :=
  {| localtime := fun t =>
       if summer t then
         let local := gmtime (t + 3600) in
         {| tm_sec := tm_sec local; tm_min := tm_min local; tm_hour := tm_hour local;
            tm_mday := tm_mday local; tm_mon := tm_mon local; tm_year := tm_year local;
            tm_wday := tm_wday local; tm_yday := tm_yday local; tm_isdst := 1 |}
       else gmtime t;
     mktime := fun t => if 0 <? tm_isdst t then timegm t - 3600 else timegm t |}.
End CLib.

(** ** DateUtils.h *)

Module DateUtils.
Import Chrono.

Section WithLibrary.
Context `{CLibrary}.

(** [std::tm tm = {}] sets every field to zero before the three are
    assigned; [year - 1900] and [month - 1] are [int] arithmetic. *)
Definition createDate (year month day : Z) : Date :=
  from_time_t
    (mktime {| tm_sec := 0; tm_min := 0; tm_hour := 0; tm_mday := day;
               tm_mon := wrap32 (month - 1); tm_year := wrap32 (year - 1900);
               tm_wday := 0; tm_yday := 0; tm_isdst := 0 |}).

(** [date + std::chrono::hours(24 * 7 * weeks)]: the product is [int]
    arithmetic, the sum tick arithmetic. *)
Definition addWeeks (date : Date) (weeks : Z) : Date :=
  plus date (hours (wrap32 (24 * 7 * weeks))).

Definition isLeapYear (year : Z) : bool :=
  ((Z.rem year 4 =? 0) && negb (Z.rem year 100 =? 0)) || (Z.rem year 400 =? 0).

Definition daysInMonth : list Z := [31; 28; 31; 30; 31; 30; 31; 31; 30; 31; 30; 31].

Definition getDaysInMonth (year month : Z) : Z :=
  let days := nth (Z.to_nat (month - 1)) daysInMonth 0 in
  if (month =? 2) && isLeapYear year then 29 else days.

(** [while (tm_mon > 11) { tm_mon -= 12; tm_year++; }] on the pair
    (month, year); [fuel] bounds the number of iterations. *)
Fixpoint normalize_overflow (fuel : nat) (mon year : Z) : Z * Z :=
  match fuel with
  | O => (mon, year)
  | S fuel' =>
      if mon >? 11 then normalize_overflow fuel' (mon - 12) (year + 1)
      else (mon, year)
  end.

(** [while (tm_mon < 0) { tm_mon += 12; tm_year--; }] *)
Fixpoint normalize_underflow (fuel : nat) (mon year : Z) : Z * Z :=
  match fuel with
  | O => (mon, year)
  | S fuel' =>
      if mon <? 0 then normalize_underflow fuel' (mon + 12) (year - 1)
      else (mon, year)
  end.

(** Both loops, with fuel that covers every iteration they can make. *)
Definition normalize_month (mon year : Z) : Z * Z :=
  let '(mon1, year1) := normalize_overflow (Z.to_nat mon) mon year in
  normalize_underflow (Z.to_nat (- mon1)) mon1 year1.

(** The structure [localtime] filled is changed in its month, year and day
    and handed to [mktime] with every other field as [localtime] left it,
    [tm_wday], [tm_yday] and [tm_isdst] included.  [tm_mon += months] is
    [int] arithmetic. *)
Definition addMonths (date : Date) (months : Z) : Date :=
  let time := to_time_t date in
  let t := localtime time in
  let originalDay := tm_mday t in
  let '(mon, year) := normalize_month (wrap32 (tm_mon t + months)) (tm_year t) in
  let daysInMonth := getDaysInMonth (year + 1900) (mon + 1) in
  let mday := if originalDay >? daysInMonth then daysInMonth else originalDay in
  from_time_t
    (mktime {| tm_sec := tm_sec t; tm_min := tm_min t; tm_hour := tm_hour t;
               tm_mday := mday; tm_mon := mon; tm_year := year;
               tm_wday := tm_wday t; tm_yday := tm_yday t;
               tm_isdst := tm_isdst t |}).

Definition addQuarters (date : Date) (quarters : Z) : Date :=
  addMonths date (wrap32 (quarters * 3)).

Definition getDayOfMonth (date : Date) : Z :=
  tm_mday (localtime (to_time_t date)).

Definition isOnOrBefore (date1 date2 : Date) : bool := date1 <=? date2.
End WithLibrary.
End DateUtils.


(** ** External collaborators outside the repository *)

(** [std::pow] of the C math library. *)
Class MathLib := { pow : float -> float -> float }.

(** The outputs of the two static random generators of the mock services:
    [nav_noise range k] is the [k]-th value drawn from
    [uniform_real_distribution(-range, range)] in [getCurrentNAV], and
    [payment_draw k] the [k]-th value drawn from
    [uniform_real_distribution(0, 1)] in [simulatePaymentResult]. *)
Class RandomDevice := {
  nav_noise : float -> nat -> float;
  payment_draw : nat -> float
}.

(** The conversion of an [int] to [double] (exact for every [int]). *)
Definition double_of_int (n : Z) : float :=
  if n <? 0 then PrimFloat.opp (PrimFloat.of_uint63 (Uint63.of_Z (- n)))
  else PrimFloat.of_uint63 (Uint63.of_Z n).

(** ** SIP.h *)

Module SIP.
Record t := Build {
  id : string;
  userId : string;
  fundId : string;
  baseAmount : float;
  frequency : SIPFrequency;
  state : SIPState;
  startDate : Date;
  nextExecutionDate : Date;
  installmentCount : Z;
  stepUpPercentage : float
}.

(** The default constructor; strings are empty and dates are the epoch. *)
Definition default : t :=
  {| id := ""; userId := ""; fundId := ""; baseAmount := 0%float;
     frequency := MONTHLY; state := ACTIVE; startDate := 0;
     nextExecutionDate := 0; installmentCount := 0;
     stepUpPercentage := 0%float |}.

Definition make (id userId fundId : string) (baseAmount : float)
    (frequency : SIPFrequency) (startDate : Date) (stepUpPercentage : float) : t :=
  {| id := id; userId := userId; fundId := fundId; baseAmount := baseAmount;
     frequency := frequency; state := ACTIVE; startDate := startDate;
     nextExecutionDate := startDate; installmentCount := 0;
     stepUpPercentage := stepUpPercentage |}.

Definition setState (s : SIPState) (sip : t) : t :=
  {| id := id sip; userId := userId sip; fundId := fundId sip;
     baseAmount := baseAmount sip; frequency := frequency sip; state := s;
     startDate := startDate sip; nextExecutionDate := nextExecutionDate sip;
     installmentCount := installmentCount sip;
     stepUpPercentage := stepUpPercentage sip |}.

Definition setNextExecutionDate (d : Date) (sip : t) : t :=
  {| id := id sip; userId := userId sip; fundId := fundId sip;
     baseAmount := baseAmount sip; frequency := frequency sip;
     state := state sip; startDate := startDate sip; nextExecutionDate := d;
     installmentCount := installmentCount sip;
     stepUpPercentage := stepUpPercentage sip |}.

Definition setStepUpPercentage (percentage : float) (sip : t) : t :=
  {| id := id sip; userId := userId sip; fundId := fundId sip;
     baseAmount := baseAmount sip; frequency := frequency sip;
     state := state sip; startDate := startDate sip;
     nextExecutionDate := nextExecutionDate sip;
     installmentCount := installmentCount sip;
     stepUpPercentage := percentage |}.

Definition incrementInstallmentCount (sip : t) : t :=
  {| id := id sip; userId := userId sip; fundId := fundId sip;
     baseAmount := baseAmount sip; frequency := frequency sip;
     state := state sip; startDate := startDate sip;
     nextExecutionDate := nextExecutionDate sip;
     installmentCount := installmentCount sip + 1;
     stepUpPercentage := stepUpPercentage sip |}.
End SIP.

(** ** Transaction.h *)

Module Transaction.
Record t := Build {
  id : string;
  sipId : string;
  amount : float;
  units : float;
  nav : float;
  status : PaymentStatus;
  date : Date;
  type : TransactionType;
  callbackProcessed : bool
}.

(** The six-argument constructor: units are [amount / nav] when [nav > 0]
    and stay [0.0] otherwise. *)
Definition make (id sipId : string) (amount nav : float) (date : Date)
    (type : TransactionType) : t :=
  {| id := id; sipId := sipId; amount := amount;
     units := if (0 <? nav)%float then (amount / nav)%float else 0%float;
     nav := nav; status := PENDING; date := date; type := type;
     callbackProcessed := false |}.

Definition setUnits (u : float) (txn : t) : t :=
  {| id := id txn; sipId := sipId txn; amount := amount txn; units := u;
     nav := nav txn; status := status txn; date := date txn; type := type txn;
     callbackProcessed := callbackProcessed txn |}.

Definition setStatus (s : PaymentStatus) (txn : t) : t :=
  {| id := id txn; sipId := sipId txn; amount := amount txn;
     units := units txn; nav := nav txn; status := s; date := date txn;
     type := type txn; callbackProcessed := callbackProcessed txn |}.

Definition setCallbackProcessed (processed : bool) (txn : t) : t :=
  {| id := id txn; sipId := sipId txn; amount := amount txn;
     units := units txn; nav := nav txn; status := status txn;
     date := date txn; type := type txn; callbackProcessed := processed |}.

(** [calculateUnits]: recomputes the units under the same guard. *)
Definition calculateUnits (txn : t) : t :=
  if (0 <? nav txn)%float then setUnits (amount txn / nav txn)%float txn else txn.
End Transaction.

(** ** MutualFund.h

    A fund has an identifier, a name, a category, a risk level and its
    last-known NAV. *)
Module MutualFund.
Record t := Build {
  id : string;
  name : string;
  category : FundCategory;
  riskLevel : RiskLevel;
  nav : float
}.
End MutualFund.

(** ** Containers of the repositories *)

(** Iteration over a [std::set<std::string>]: ascending in the byte-wise
    lexicographic order of [std::string]. *)
Definition string_le (a b : string) : Prop := String.leb a b = true.

#[global] Instance string_le_dec a b : Decision (string_le a b).
Proof. unfold string_le. apply _. Defined.

Definition set_iteration (s : gset string) : list string :=
  merge_sort string_le (elements s).

(** Iteration over a [std::unordered_map]: the values in the map's own
    (unspecified) order. *)
Definition map_iteration {V} (m : gmap string V) : list V := (map_to_list m).*2.

(** A secondary index: key to the set of entity ids.  [operator[]] creates
    the entry of a key that has none before the set is changed. *)
Definition index_insert (idx : gmap string (gset string)) (key elem : string)
    : gmap string (gset string) :=
  <[key := default ∅ (idx !! key) ∪ {[elem]}]> idx.

Definition index_erase (idx : gmap string (gset string)) (key elem : string)
    : gmap string (gset string) :=
  <[key := default ∅ (idx !! key) ∖ {[elem]}]> idx.

(** ** InMemorySIPRepository.h *)

Module InMemorySIPRepository.
Record t := Build {
  storage : gmap string SIP.t;
  userIndex : gmap string (gset string);
  fundIndex : gmap string (gset string)
}.

Definition empty : t := {| storage := ∅; userIndex := ∅; fundIndex := ∅ |}.

Definition addToIndexes (sip : SIP.t) (r : t) : t :=
  {| storage := storage r;
     userIndex := index_insert (userIndex r) (SIP.userId sip) (SIP.id sip);
     fundIndex := index_insert (fundIndex r) (SIP.fundId sip) (SIP.id sip) |}.

Definition removeFromIndexes (sip : SIP.t) (r : t) : t :=
  {| storage := storage r;
     userIndex := index_erase (userIndex r) (SIP.userId sip) (SIP.id sip);
     fundIndex := index_erase (fundIndex r) (SIP.fundId sip) (SIP.id sip) |}.

Definition setStorage (m : gmap string SIP.t) (r : t) : t :=
  {| storage := m; userIndex := userIndex r; fundIndex := fundIndex r |}.

Definition add (sip : SIP.t) (r : t) : t :=
  addToIndexes sip (setStorage (<[SIP.id sip := sip]> (storage r)) r).

Definition getById (id : string) (r : t) : option SIP.t := storage r !! id.

Definition getAll (r : t) : list SIP.t := map_iteration (storage r).

Definition update (sip : SIP.t) (r : t) : t * bool :=
  match storage r !! SIP.id sip with
  | Some old =>
      (addToIndexes sip
         (setStorage (<[SIP.id sip := sip]> (storage r)) (removeFromIndexes old r)),
       true)
  | None => (r, false)
  end.

Definition remove (id : string) (r : t) : t * bool :=
  match storage r !! id with
  | Some old => (setStorage (delete id (storage r)) (removeFromIndexes old r), true)
  | None => (r, false)
  end.

Definition exists_ (id : string) (r : t) : bool := bool_decide (is_Some (storage r !! id)).

Definition count (r : t) : nat := size (storage r).

Definition getByUserId (userId : string) (r : t) : list SIP.t :=
  match userIndex r !! userId with
  | Some ids => omap (fun sipId => storage r !! sipId) (set_iteration ids)
  | None => []
  end.

Definition getByFundId (fundId : string) (r : t) : list SIP.t :=
  match fundIndex r !! fundId with
  | Some ids => omap (fun sipId => storage r !! sipId) (set_iteration ids)
  | None => []
  end.

Definition getByState (state : SIPState) (r : t) : list SIP.t :=
  List.filter (fun sip => bool_decide (SIP.state sip = state)) (map_iteration (storage r)).

Definition getByUserIdAndState (userId : string) (state : SIPState) (r : t) : list SIP.t :=
  List.filter (fun sip => bool_decide (SIP.state sip = state)) (getByUserId userId r).

Definition getDueSIPs (asOfDate : Date) (r : t) : list SIP.t :=
  List.filter
    (fun sip => bool_decide (SIP.state sip = ACTIVE) && (SIP.nextExecutionDate sip <=? asOfDate))
    (map_iteration (storage r)).
End InMemorySIPRepository.

(** ** InMemoryTransactionRepository.h *)

Module InMemoryTransactionRepository.
Record t := Build {
  storage : gmap string Transaction.t;
  sipIndex : gmap string (gset string)
}.

Definition empty : t := {| storage := ∅; sipIndex := ∅ |}.

Definition add (transaction : Transaction.t) (r : t) : t :=
  {| storage := <[Transaction.id transaction := transaction]> (storage r);
     sipIndex := index_insert (sipIndex r) (Transaction.sipId transaction)
                   (Transaction.id transaction) |}.

Definition getById (id : string) (r : t) : option Transaction.t := storage r !! id.

Definition getAll (r : t) : list Transaction.t := map_iteration (storage r).

Definition update (transaction : Transaction.t) (r : t) : t * bool :=
  match storage r !! Transaction.id transaction with
  | Some old =>
      let idx :=
        if bool_decide (Transaction.sipId old = Transaction.sipId transaction)
        then sipIndex r
        else index_insert
               (index_erase (sipIndex r) (Transaction.sipId old) (Transaction.id transaction))
               (Transaction.sipId transaction) (Transaction.id transaction) in
      ({| storage := <[Transaction.id transaction := transaction]> (storage r);
          sipIndex := idx |}, true)
  | None => (r, false)
  end.

Definition remove (id : string) (r : t) : t * bool :=
  match storage r !! id with
  | Some old =>
      ({| storage := delete id (storage r);
          sipIndex := index_erase (sipIndex r) (Transaction.sipId old) id |}, true)
  | None => (r, false)
  end.

Definition exists_ (id : string) (r : t) : bool := bool_decide (is_Some (storage r !! id)).

Definition count (r : t) : nat := size (storage r).

Definition getBySipId (sipId : string) (r : t) : list Transaction.t :=
  match sipIndex r !! sipId with
  | Some ids => omap (fun txnId => storage r !! txnId) (set_iteration ids)
  | None => []
  end.

Definition getByStatus (status : PaymentStatus) (r : t) : list Transaction.t :=
  List.filter (fun txn => bool_decide (Transaction.status txn = status))
    (map_iteration (storage r)).

Definition getSuccessfulBySipId (sipId : string) (r : t) : list Transaction.t :=
  List.filter (fun txn => bool_decide (Transaction.status txn = SUCCESS))
    (getBySipId sipId r).
End InMemoryTransactionRepository.


(** ** IdGenerator.h *)

Module IdGenerator.
(** The counter is a [uint64_t]; unsigned arithmetic wraps. *)
Definition uint64_modulus : Z := 2 ^ 64.

Fixpoint fill (n : nat) (c : ascii) : string :=
  match n with
  | O => EmptyString
  | S n' => String c (fill n' c)
  end.

(** [std::setw(width)] with [std::setfill(c)]: right-adjusted output. *)
Definition setw (width : nat) (c : ascii) (s : string) : string :=
  fill (width - String.length s) c +:+ s.

(** [generateSimple]: [fetch_add] hands out the value before the increment. *)
Definition generateSimple (prefix : string) : Eff Z string :=
  fun counter =>
    ((counter + 1) mod uint64_modulus,
     Returned (prefix +:+ "_" +:+ setw 6 "0" (pretty (Z.to_N counter)))).

Definition generateFundId : Eff Z string := generateSimple "FUND".
Definition generateUserId : Eff Z string := generateSimple "USER".
Definition generateSipId : Eff Z string := generateSimple "SIP".
Definition generateTransactionId : Eff Z string := generateSimple "TXN".

Definition reset : Z := 1.
End IdGenerator.

(** ** MockMarketPriceService.h *)

Module MockMarketPriceService.
Record t := Build {
  navData : gmap string float;
  enablePriceFluctuation : bool;
  fluctuationRange : float;
  (** How many values the static generator of [getCurrentNAV] has produced. *)
  navDraws : nat
}.

Definition make (enableFluctuation : bool) (range : float) : t :=
  {| navData := ∅; enablePriceFluctuation := enableFluctuation;
     fluctuationRange := range; navDraws := O |}.

Definition setNavData (m : gmap string float) (s : t) : t :=
  {| navData := m; enablePriceFluctuation := enablePriceFluctuation s;
     fluctuationRange := fluctuationRange s; navDraws := navDraws s |}.

Definition getCurrentNAV `{RandomDevice} (fundId : string) : Eff t float :=
  fun s =>
    match navData s !! fundId with
    | None => (s, Thrown (FundNotFoundException fundId))
    | Some baseNav =>
        if enablePriceFluctuation s then
          ({| navData := navData s;
              enablePriceFluctuation := enablePriceFluctuation s;
              fluctuationRange := fluctuationRange s;
              navDraws := S (navDraws s) |},
           Returned (baseNav * (1 + nav_noise (fluctuationRange s) (navDraws s)))%float)
        else (s, Returned baseNav)
    end.

Definition updateNAV (fundId : string) (nav : float) : Eff t unit :=
  fun s =>
    if (nav <=? 0)%float then (s, Thrown (ValidationException "NAV must be positive"))
    else (setNavData (<[fundId := nav]> (navData s)) s, Returned tt).

Definition getStoredNAV (fundId : string) : Eff t float :=
  fun s =>
    match navData s !! fundId with
    | None => (s, Thrown (FundNotFoundException fundId))
    | Some nav => (s, Returned nav)
    end.

Definition simulateMarketMovement (percentage : float) (s : t) : t :=
  setNavData ((fun nav => nav * (1 + percentage))%float <$> navData s) s.
End MockMarketPriceService.

(** ** MockPaymentService.h *)

(** A [PaymentCallback].  The only callable the sources ever store in one is
    the closure of [SIPScheduler::executeSIP], which captures the transaction
    id and the SIP id and forwards to [handlePaymentCallback]. *)
Record PaymentCallback := Build_PaymentCallback {
  captured_txnId : string;
  captured_sipId : string
}.

Module MockPaymentService.
Record t := Build {
  completionHandler : option PaymentCallback;
  processedCallbacks : gmap string bool;
  successRate : float;
  autoComplete : bool;
  pendingPayments : gmap string (float * PaymentCallback);
  (** How many values the static generator of [simulatePaymentResult] has
      produced. *)
  paymentDraws : nat
}.

Definition make (successRate : float) (autoComplete : bool) : t :=
  {| completionHandler := None; processedCallbacks := ∅;
     successRate := successRate; autoComplete := autoComplete;
     pendingPayments := ∅; paymentDraws := O |}.

Definition simulatePaymentResult `{RandomDevice} : Eff t PaymentStatus :=
  fun s =>
    ({| completionHandler := completionHandler s;
        processedCallbacks := processedCallbacks s;
        successRate := successRate s; autoComplete := autoComplete s;
        pendingPayments := pendingPayments s;
        paymentDraws := S (paymentDraws s) |},
     Returned (if (payment_draw (paymentDraws s) <? successRate s)%float
               then SUCCESS else FAILURE)).

Definition setPendingPayments (m : gmap string (float * PaymentCallback)) (s : t) : t :=
  {| completionHandler := completionHandler s;
     processedCallbacks := processedCallbacks s;
     successRate := successRate s; autoComplete := autoComplete s;
     pendingPayments := m; paymentDraws := paymentDraws s |}.

Definition setProcessedCallbacks (m : gmap string bool) (s : t) : t :=
  {| completionHandler := completionHandler s; processedCallbacks := m;
     successRate := successRate s; autoComplete := autoComplete s;
     pendingPayments := pendingPayments s; paymentDraws := paymentDraws s |}.

Definition setPaymentCompletionHandler (handler : PaymentCallback) (s : t) : t :=
  {| completionHandler := Some handler;
     processedCallbacks := processedCallbacks s;
     successRate := successRate s; autoComplete := autoComplete s;
     pendingPayments := pendingPayments s; paymentDraws := paymentDraws s |}.

Definition getPendingCount (s : t) : nat := size (pendingPayments s).

Definition isCallbackProcessed (transactionId : string) (s : t) : bool :=
  bool_decide (is_Some (processedCallbacks s !! transactionId)).

(** The operations that call back into their client.  The service is one
    component of the client's state [W], reached through [getP] and [setP];
    [call] runs a stored callback. *)
Section Operations.
Context `{RandomDevice} {W : Type}.
Variable getP : W -> t.
Variable setP : t -> W -> W.
Variable call : PaymentCallback -> string -> PaymentStatus -> Eff W unit.

Definition callCompletionHandler (transactionId : string) (status : PaymentStatus)
    : Eff W unit :=
  fun w =>
    match completionHandler (getP w) with
    | Some handler => call handler transactionId status w
    | None => (w, Returned tt)
    end.

Definition initiatePayment (transactionId : string) (amount : float)
    (callback : PaymentCallback) : Eff W unit :=
  fun w =>
    if autoComplete (getP w) then
      match simulatePaymentResult (getP w) with
      | (p, Returned status) =>
          bind (call callback transactionId status)
            (fun _ => callCompletionHandler transactionId status) (setP p w)
      | (p, Thrown e) => (setP p w, Thrown e)
      end
    else
      (setP (setPendingPayments
               (<[transactionId := (amount, callback)]> (pendingPayments (getP w)))
               (getP w)) w,
       Returned tt).

Definition onPaymentCallback (transactionId : string) (status : PaymentStatus)
    : Eff W unit :=
  fun w =>
    match processedCallbacks (getP w) !! transactionId with
    | Some _ => (w, Returned tt)
    | None =>
        callCompletionHandler transactionId status
          (setP (setProcessedCallbacks
                   (<[transactionId := true]> (processedCallbacks (getP w)))
                   (getP w)) w)
    end.

Definition completePayment (transactionId : string) (status : PaymentStatus)
    : Eff W unit :=
  fun w =>
    match pendingPayments (getP w) !! transactionId with
    | Some (_, callback) =>
        bind (call callback transactionId status)
          (fun _ => callCompletionHandler transactionId status)
          (setP (setPendingPayments (delete transactionId (pendingPayments (getP w)))
                   (getP w)) w)
    | None => (w, Returned tt)
    end.
End Operations.
End MockPaymentService.


(** ** SIPServiceImpl.h

    The lifecycle operations act on the SIP repository the service shares
    with the scheduler. *)

Module SIPServiceImpl.
Import InMemorySIPRepository.
Local Open Scope eff_scope.

(** The [SIP& outSip] result is the value returned. *)
Definition validateSIPExists (sipId : string) : Eff t SIP.t :=
  fun r =>
    match getById sipId r with
    | None => (r, Thrown (SIPNotFoundException sipId))
    | Some sip => (r, Returned sip)
    end.

(** [sipRepository->update(sip)] as a step of a computation. *)
Definition repository_update (sip : SIP.t) : Eff t bool :=
  fun r => let '(r', found) := update sip r in (r', Returned found).

Definition pauseSIP (sipId : string) : Eff t unit :=
  sip <- validateSIPExists sipId ;;
  if bool_decide (SIP.state sip = PAUSED) then
    throw (InvalidStateException sipId (toString_SIPState (SIP.state sip)) "pause")
  else if bool_decide (SIP.state sip = STOPPED) then
    throw (InvalidStateException sipId (toString_SIPState (SIP.state sip)) "pause")
  else
    (_ <- repository_update (SIP.setState PAUSED sip) ;; ret tt).

Definition unpauseSIP (sipId : string) : Eff t unit :=
  sip <- validateSIPExists sipId ;;
  if bool_decide (SIP.state sip = ACTIVE) then
    throw (InvalidStateException sipId (toString_SIPState (SIP.state sip)) "unpause")
  else if bool_decide (SIP.state sip = STOPPED) then
    throw (InvalidStateException sipId (toString_SIPState (SIP.state sip)) "unpause")
  else
    (_ <- repository_update (SIP.setState ACTIVE sip) ;; ret tt).

Definition stopSIP (sipId : string) : Eff t unit :=
  sip <- validateSIPExists sipId ;;
  if bool_decide (SIP.state sip = STOPPED) then
    throw (InvalidStateException sipId (toString_SIPState (SIP.state sip)) "stop")
  else
    (_ <- repository_update (SIP.setState STOPPED sip) ;; ret tt).

Definition getSIPById (sipId : string) : Eff t SIP.t :=
  fun r =>
    match getById sipId r with
    | None => (r, Thrown (SIPNotFoundException sipId))
    | Some sip => (r, Returned sip)
    end.

Definition modifyStepUp (sipId : string) (newStepUpPercentage : float) : Eff t unit :=
  sip <- validateSIPExists sipId ;;
  if bool_decide (SIP.state sip = STOPPED) then
    throw (InvalidStateException sipId (toString_SIPState (SIP.state sip)) "modify step-up")
  else if (newStepUpPercentage <? 0)%float then
    throw (ValidationException "Step-up percentage cannot be negative")
  else
    (_ <- repository_update (SIP.setStepUpPercentage newStepUpPercentage sip) ;; ret tt).

Definition calculateSteppedUpAmount `{MathLib}
    (baseAmount stepUpPercentage : float) (installmentNumber : Z) : float :=
  if (stepUpPercentage <=? 0)%float || (installmentNumber <=? 1) then baseAmount
  else
    let factor :=
      pow (1 + stepUpPercentage / 100)%float (double_of_int (installmentNumber - 1)) in
    (baseAmount * factor)%float.

Definition calculateCurrentInstallmentAmount `{MathLib} (sipId : string) : Eff t float :=
  sip <- getSIPById sipId ;;
  ret (calculateSteppedUpAmount (SIP.baseAmount sip) (SIP.stepUpPercentage sip)
         (SIP.installmentCount sip + 1)).

Definition onPaymentSuccess (sipId : string) : Eff t unit :=
  sip <- validateSIPExists sipId ;;
  _ <- repository_update (SIP.incrementInstallmentCount sip) ;;
  ret tt.

(** The [default:] label of the switch is unreachable for the three
    enumerators. *)
Definition calculateNextExecutionDate `{CLibrary} (currentDate : Date)
    (frequency : SIPFrequency) : Date :=
  match frequency with
  | WEEKLY => DateUtils.addWeeks currentDate 1
  | MONTHLY => DateUtils.addMonths currentDate 1
  | QUARTERLY => DateUtils.addQuarters currentDate 1
  end.

Definition updateNextExecutionDate `{CLibrary} (sipId : string) : Eff t unit :=
  sip <- validateSIPExists sipId ;;
  let nextDate :=
    calculateNextExecutionDate (SIP.nextExecutionDate sip) (SIP.frequency sip) in
  _ <- repository_update (SIP.setNextExecutionDate nextDate sip) ;;
  ret tt.
End SIPServiceImpl.

(** ** The object graph of [main.cpp]

    One SIP repository is shared by the service, the scheduler and the
    portfolio service; one transaction repository by the scheduler and the
    portfolio service.  [errorLog] is what [executeDueSIPs] writes to
    [std::cerr]: the SIP id and the exception caught. *)
Record World := Build_World {
  sipRepository : InMemorySIPRepository.t;
  transactionRepository : InMemoryTransactionRepository.t;
  fundRepository : gmap string MutualFund.t;
  marketPriceService : MockMarketPriceService.t;
  paymentService : MockPaymentService.t;
  idCounter : Z;
  errorLog : list (string * Exception)
}.

Definition setSipRepository (r : InMemorySIPRepository.t) (w : World) : World :=
  {| sipRepository := r; transactionRepository := transactionRepository w;
     fundRepository := fundRepository w;
     marketPriceService := marketPriceService w;
     paymentService := paymentService w; idCounter := idCounter w;
     errorLog := errorLog w |}.

Definition setTransactionRepository (r : InMemoryTransactionRepository.t) (w : World)
    : World :=
  {| sipRepository := sipRepository w; transactionRepository := r;
     fundRepository := fundRepository w;
     marketPriceService := marketPriceService w;
     paymentService := paymentService w; idCounter := idCounter w;
     errorLog := errorLog w |}.

Definition setMarketPriceService (m : MockMarketPriceService.t) (w : World) : World :=
  {| sipRepository := sipRepository w;
     transactionRepository := transactionRepository w;
     fundRepository := fundRepository w; marketPriceService := m;
     paymentService := paymentService w; idCounter := idCounter w;
     errorLog := errorLog w |}.

Definition setPaymentService (p : MockPaymentService.t) (w : World) : World :=
  {| sipRepository := sipRepository w;
     transactionRepository := transactionRepository w;
     fundRepository := fundRepository w;
     marketPriceService := marketPriceService w; paymentService := p;
     idCounter := idCounter w; errorLog := errorLog w |}.

Definition setIdCounter (c : Z) (w : World) : World :=
  {| sipRepository := sipRepository w;
     transactionRepository := transactionRepository w;
     fundRepository := fundRepository w;
     marketPriceService := marketPriceService w;
     paymentService := paymentService w; idCounter := c;
     errorLog := errorLog w |}.

Definition logError (sipId : string) (e : Exception) (w : World) : World :=
  {| sipRepository := sipRepository w;
     transactionRepository := transactionRepository w;
     fundRepository := fundRepository w;
     marketPriceService := marketPriceService w;
     paymentService := paymentService w; idCounter := idCounter w;
     errorLog := errorLog w ++ [(sipId, e)] |}.

(** Running a computation of one component inside the whole. *)
Definition zoom {S W A} (getS : W -> S) (setS : S -> W -> W) (m : Eff S A) : Eff W A :=
  fun w => let '(s', o) := m (getS w) in (setS s' w, o).

Definition onSipService {A} (m : Eff InMemorySIPRepository.t A) : Eff World A :=
  zoom sipRepository setSipRepository m.

Definition onMarketPriceService {A} (m : Eff MockMarketPriceService.t A) : Eff World A :=
  zoom marketPriceService setMarketPriceService m.

Definition onIdGenerator {A} (m : Eff Z A) : Eff World A :=
  zoom idCounter setIdCounter m.

(** ** SIPScheduler.h *)

Module SIPScheduler.
Local Open Scope eff_scope.

Definition isDue (sip : SIP.t) (asOfDate : Date) : bool :=
  if negb (bool_decide (SIP.state sip = ACTIVE)) then false
  else DateUtils.isOnOrBefore (SIP.nextExecutionDate sip) asOfDate.

Definition calculateSteppedUpAmount `{MathLib}
    (baseAmount stepUpPercentage : float) (installmentNumber : Z) : float :=
  if (stepUpPercentage <=? 0)%float || (installmentNumber <=? 1) then baseAmount
  else
    let factor :=
      pow (1 + stepUpPercentage / 100)%float (double_of_int (installmentNumber - 1)) in
    (baseAmount * factor)%float.

Definition handlePaymentCallback `{CLibrary} (transactionId sipId : string)
    (status : PaymentStatus) : Eff World unit :=
  fun w =>
    match InMemoryTransactionRepository.getById transactionId (transactionRepository w) with
    | None => (w, Returned tt)
    | Some txn =>
        if Transaction.callbackProcessed txn then (w, Returned tt)
        else
          let txn' := Transaction.setCallbackProcessed true (Transaction.setStatus status txn) in
          let w' :=
            setTransactionRepository
              (fst (InMemoryTransactionRepository.update txn' (transactionRepository w))) w in
          if bool_decide (status = SUCCESS) then
            (onSipService (SIPServiceImpl.onPaymentSuccess sipId) ;;;
             onSipService (SIPServiceImpl.updateNextExecutionDate sipId)) w'
          else (w', Returned tt)
    end.

(** Calling the closure [[this, txnId, sipId](transactionId, status)]. *)
Definition callPaymentCallback `{CLibrary} (callback : PaymentCallback)
    (transactionId : string) (status : PaymentStatus) : Eff World unit :=
  handlePaymentCallback transactionId (captured_sipId callback) status.

Definition initiatePayment `{RandomDevice} `{CLibrary} :=
  MockPaymentService.initiatePayment paymentService setPaymentService callPaymentCallback.

Definition executeSIP `{MathLib} `{RandomDevice} `{CLibrary} (sip : SIP.t)
    (executionDate : Date) : Eff World unit :=
  if negb (bool_decide (SIP.state sip = ACTIVE)) then ret tt
  else
    nav <- onMarketPriceService (MockMarketPriceService.getCurrentNAV (SIP.fundId sip)) ;;
    let amount :=
      calculateSteppedUpAmount (SIP.baseAmount sip) (SIP.stepUpPercentage sip)
        (SIP.installmentCount sip + 1) in
    let units := (amount / nav)%float in
    txnId <- onIdGenerator IdGenerator.generateTransactionId ;;
    let txn0 := Transaction.make txnId (SIP.id sip) amount nav executionDate INSTALLMENT in
    let txn := Transaction.setStatus PENDING (Transaction.setUnits units txn0) in
    modify (fun w =>
      setTransactionRepository
        (InMemoryTransactionRepository.add txn (transactionRepository w)) w) ;;;
    let sipId := SIP.id sip in
    initiatePayment txnId amount
      {| captured_txnId := txnId; captured_sipId := sipId |}.

(** One iteration of the loop of [executeDueSIPs]: the [try] block and its
    handler, which logs and goes on. *)
Definition executeOne `{MathLib} `{RandomDevice} `{CLibrary} (asOfDate : Date)
    (acc : World * Z) (sip : SIP.t) : World * Z :=
  let '(w, processedCount) := acc in
  match executeSIP sip asOfDate w with
  | (w', Returned _) => (w', processedCount + 1)
  | (w', Thrown e) => (logError (SIP.id sip) e w', processedCount)
  end.

Definition executeDueSIPs `{MathLib} `{RandomDevice} `{CLibrary} (asOfDate : Date)
    (w : World) : World * Z :=
  let dueSIPs := InMemorySIPRepository.getDueSIPs asOfDate (sipRepository w) in
  fold_left (executeOne asOfDate) dueSIPs (w, 0).
End SIPScheduler.

(** ** IPortfolioService.h and PortfolioServiceImpl.h *)

Record SIPPortfolioItem := Build_SIPPortfolioItem {
  item_sip : SIP.t;
  fundName : string;
  totalInvested : float;
  totalUnits : float;
  currentValue : float;
  currentNav : float;
  gainLoss : float;
  gainLossPercentage : float;
  currentInstallmentAmount : float;
  nextInstallmentAmount : float
}.

Module PortfolioServiceImpl.
Local Open Scope eff_scope.

Definition calculateSteppedUpAmount `{MathLib}
    (baseAmount stepUpPercentage : float) (installmentNumber : Z) : float :=
  if (stepUpPercentage <=? 0)%float || (installmentNumber <=? 1) then baseAmount
  else
    let factor :=
      pow (1 + stepUpPercentage / 100)%float (double_of_int (installmentNumber - 1)) in
    (baseAmount * factor)%float.

(** The loop over the successful transactions: both totals start at [0.0]
    and grow by one transaction per iteration. *)
Definition accumulate (totals : float * float) (txn : Transaction.t) : float * float :=
  ((fst totals + Transaction.amount txn)%float, (snd totals + Transaction.units txn)%float).

Definition buildPortfolioItem `{MathLib} `{RandomDevice} (sip : SIP.t)
    : Eff World SIPPortfolioItem :=
  w0 <- get ;;
  let fundName :=
    match fundRepository w0 !! SIP.fundId sip with
    | Some fund => MutualFund.name fund
    | None => "Unknown Fund"
    end in
  currentNav <-
    try_catch (onMarketPriceService (MockMarketPriceService.getCurrentNAV (SIP.fundId sip)))
      (fun _ => ret 0%float) ;;
  w <- get ;;
  let transactions :=
    InMemoryTransactionRepository.getSuccessfulBySipId (SIP.id sip) (transactionRepository w) in
  let totals := fold_left accumulate transactions (0%float, 0%float) in
  let totalInvested := fst totals in
  let totalUnits := snd totals in
  let currentValue := (totalUnits * currentNav)%float in
  let gainLoss := (currentValue - totalInvested)%float in
  let gainLossPercentage :=
    if (0 <? totalInvested)%float then (gainLoss / totalInvested * 100)%float
    else 0%float in
  let nextInstallment := SIP.installmentCount sip + 1 in
  ret {| item_sip := sip; fundName := fundName; totalInvested := totalInvested;
         totalUnits := totalUnits; currentValue := currentValue;
         currentNav := currentNav; gainLoss := gainLoss;
         gainLossPercentage := gainLossPercentage;
         currentInstallmentAmount :=
           calculateSteppedUpAmount (SIP.baseAmount sip) (SIP.stepUpPercentage sip)
             nextInstallment;
         nextInstallmentAmount :=
           calculateSteppedUpAmount (SIP.baseAmount sip) (SIP.stepUpPercentage sip)
             (nextInstallment + 1) |}.

Definition calculateTotalInvested (sipId : string) (w : World) : float :=
  fold_left (fun total txn => (total + Transaction.amount txn)%float)
    (InMemoryTransactionRepository.getSuccessfulBySipId sipId (transactionRepository w))
    0%float.

Definition calculateTotalUnits (sipId : string) (w : World) : float :=
  fold_left (fun total txn => (total + Transaction.units txn)%float)
    (InMemoryTransactionRepository.getSuccessfulBySipId sipId (transactionRepository w))
    0%float.
End PortfolioServiceImpl.


(** * Part I, continued: the rest of the sources *)

#[global] Instance RiskLevel_eq_dec : EqDecision RiskLevel.
Proof. solve_decision. Defined.
#[global] Instance FundCategory_eq_dec : EqDecision FundCategory.
Proof. solve_decision. Defined.

(** ** Exceptions.h: the message of [what()] *)

Definition what (e : Exception) : string :=
  match e with
  | FundNotFoundException fundId => "Fund not found: " +:+ fundId
  | SIPNotFoundException sipId => "SIP not found: " +:+ sipId
  | UserNotFoundException userId => "User not found: " +:+ userId
  | InvalidStateException sipId currentState operation =>
      "Invalid operation '" +:+ operation +:+ "' for SIP " +:+ sipId +:+
      " in state " +:+ currentState
  | ValidationException message => "Validation error: " +:+ message
  end.

(** ** DateUtils.h: reading and printing dates *)

Module DateUtilsRest.
Import Chrono.

Section WithLibrary.
Context `{CLibrary}.

Definition getDayOfWeek (date : Date) : Z :=
  tm_wday (localtime (to_time_t date)).

(** The fields of the first structure are copied out before the second
    call of [localtime] overwrites it. *)
Definition isSameDay (date1 date2 : Date) : bool :=
  let tm1 := localtime (to_time_t date1) in
  let tm2 := localtime (to_time_t date2) in
  (tm_year tm1 =? tm_year tm2) && (tm_mon tm1 =? tm_mon tm2)
  && (tm_mday tm1 =? tm_mday tm2).

(** [oss << setfill('0') << year << "-" << setw(2) << month << "-" << setw(2)
    << day]: the width applies to the month and to the day only. *)
Definition formatDate (date : Date) : string :=
  let t := localtime (to_time_t date) in
  pretty (tm_year t + 1900) +:+ "-" +:+
  IdGenerator.setw 2 "0" (pretty (tm_mon t + 1)) +:+ "-" +:+
  IdGenerator.setw 2 "0" (pretty (tm_mday t)).

Definition days : list string :=
  ["Sunday"; "Monday"; "Tuesday"; "Wednesday"; "Thursday"; "Friday"; "Saturday"].

(** [days[getDayOfWeek(date)]]; an index outside the array has no defined
    result in C++ and reads as the empty string here. *)
Definition getDayOfWeekName (date : Date) : string :=
  nth (Z.to_nat (getDayOfWeek date)) days "".
End WithLibrary.
End DateUtilsRest.

(** ** User.h and InMemoryUserRepository.h *)

Module User.
Record t := Build {
  id : string;
  name : string;
  email : string
}.
End User.

Module InMemoryUserRepository.
Record t := Build {
  storage : gmap string User.t;
  emailIndex : gmap string string
}.

Definition empty : t := {| storage := ∅; emailIndex := ∅ |}.

Definition add (user : User.t) (r : t) : t :=
  {| storage := <[User.id user := user]> (storage r);
     emailIndex := <[User.email user := User.id user]> (emailIndex r) |}.

Definition getById (id : string) (r : t) : option User.t := storage r !! id.

Definition getAll (r : t) : list User.t := map_iteration (storage r).

Definition update (user : User.t) (r : t) : t * bool :=
  match storage r !! User.id user with
  | Some old =>
      ({| storage := <[User.id user := user]> (storage r);
          emailIndex :=
            <[User.email user := User.id user]> (delete (User.email old) (emailIndex r)) |},
       true)
  | None => (r, false)
  end.

Definition remove (id : string) (r : t) : t * bool :=
  match storage r !! id with
  | Some old =>
      ({| storage := delete id (storage r);
          emailIndex := delete (User.email old) (emailIndex r) |}, true)
  | None => (r, false)
  end.

Definition exists_ (id : string) (r : t) : bool := bool_decide (is_Some (storage r !! id)).

Definition count (r : t) : nat := size (storage r).

Definition getByEmail (email : string) (r : t) : option User.t :=
  match emailIndex r !! email with
  | Some id => getById id r
  | None => None
  end.
End InMemoryUserRepository.

(** ** InMemoryMutualFundRepository.h

    The repository has no secondary index: it is its [unordered_map], the
    [fundRepository] of the world. *)

Module InMemoryMutualFundRepository.
Definition add (fund : MutualFund.t) (r : gmap string MutualFund.t)
    : gmap string MutualFund.t :=
  <[MutualFund.id fund := fund]> r.

Definition getById (id : string) (r : gmap string MutualFund.t) : option MutualFund.t :=
  r !! id.

Definition getAll (r : gmap string MutualFund.t) : list MutualFund.t := map_iteration r.

Definition update (fund : MutualFund.t) (r : gmap string MutualFund.t)
    : gmap string MutualFund.t * bool :=
  match r !! MutualFund.id fund with
  | Some _ => (<[MutualFund.id fund := fund]> r, true)
  | None => (r, false)
  end.

(** [storage.erase(id) > 0] *)
Definition remove (id : string) (r : gmap string MutualFund.t)
    : gmap string MutualFund.t * bool :=
  (delete id r, bool_decide (is_Some (r !! id))).

Definition exists_ (id : string) (r : gmap string MutualFund.t) : bool :=
  bool_decide (is_Some (r !! id)).

Definition count (r : gmap string MutualFund.t) : nat := size r.

Definition getByCategory (category : FundCategory) (r : gmap string MutualFund.t)
    : list MutualFund.t :=
  List.filter (fun fund => bool_decide (MutualFund.category fund = category))
    (map_iteration r).

Definition getByRiskLevel (riskLevel : RiskLevel) (r : gmap string MutualFund.t)
    : list MutualFund.t :=
  List.filter (fun fund => bool_decide (MutualFund.riskLevel fund = riskLevel))
    (map_iteration r).
End InMemoryMutualFundRepository.

(** ** MutualFundServiceImpl.h *)

Module MutualFundServiceImpl.
Definition getAllFunds (r : gmap string MutualFund.t) : list MutualFund.t :=
  InMemoryMutualFundRepository.getAll r.

Definition getFundById (fundId : string) : Eff (gmap string MutualFund.t) MutualFund.t :=
  fun r =>
    match InMemoryMutualFundRepository.getById fundId r with
    | None => (r, Thrown (FundNotFoundException fundId))
    | Some fund => (r, Returned fund)
    end.

Definition filterByCategory (category : FundCategory) (r : gmap string MutualFund.t)
    : list MutualFund.t :=
  InMemoryMutualFundRepository.getByCategory category r.

Definition filterByRiskLevel (riskLevel : RiskLevel) (r : gmap string MutualFund.t)
    : list MutualFund.t :=
  InMemoryMutualFundRepository.getByRiskLevel riskLevel r.

Definition addFund (fund : MutualFund.t) : Eff (gmap string MutualFund.t) unit :=
  fun r =>
    if bool_decide (MutualFund.id fund = "") then
      (r, Thrown (ValidationException "Fund ID cannot be empty"))
    else if bool_decide (MutualFund.name fund = "") then
      (r, Thrown (ValidationException "Fund name cannot be empty"))
    else if (MutualFund.nav fund <=? 0)%float then
      (r, Thrown (ValidationException "Fund NAV must be positive"))
    else (InMemoryMutualFundRepository.add fund r, Returned tt).

Definition fundExists (fundId : string) (r : gmap string MutualFund.t) : bool :=
  InMemoryMutualFundRepository.exists_ fundId r.
End MutualFundServiceImpl.

(** ** SIPServiceImpl.h: creation and queries

    [createSIP] reads the user repository (which nothing else in the world
    touches) and the fund repository, draws the SIP id from the shared
    counter and writes to the shared SIP repository. *)

Module SIPServiceImplRest.
Definition createSIP (users : InMemoryUserRepository.t) (userId fundId : string)
    (amount : float) (frequency : SIPFrequency) (startDate : Date)
    (stepUpPercentage : float) : Eff World SIP.t :=
  fun w =>
    if negb (InMemoryUserRepository.exists_ userId users) then
      (w, Thrown (UserNotFoundException userId))
    else if negb (MutualFundServiceImpl.fundExists fundId (fundRepository w)) then
      (w, Thrown (FundNotFoundException fundId))
    else if (amount <=? 0)%float then
      (w, Thrown (ValidationException "SIP amount must be positive"))
    else if (stepUpPercentage <? 0)%float then
      (w, Thrown (ValidationException "Step-up percentage cannot be negative"))
    else
      match onIdGenerator IdGenerator.generateSipId w with
      | (w1, Returned sipId) =>
          let sip := SIP.make sipId userId fundId amount frequency startDate stepUpPercentage in
          (setSipRepository (InMemorySIPRepository.add sip (sipRepository w1)) w1,
           Returned sip)
      | (w1, Thrown e) => (w1, Thrown e)
      end.

Definition getSIPsByUser (userId : string) (r : InMemorySIPRepository.t) : list SIP.t :=
  InMemorySIPRepository.getByUserId userId r.

Definition getSIPsByUserAndState (userId : string) (state : SIPState)
    (r : InMemorySIPRepository.t) : list SIP.t :=
  InMemorySIPRepository.getByUserIdAndState userId state r.
End SIPServiceImplRest.

(** ** MockMarketPriceService.h and MockPaymentService.h: the remaining
    helpers *)

Module MockMarketPriceServiceRest.
Import MockMarketPriceService.

(** [for (pair : navs) navData[pair.first] = pair.second]: the given prices
    win over the ones on record. *)
Definition setNAVs (navs : gmap string float) (s : t) : t :=
  setNavData (navs ∪ navData s) s.

Definition setFluctuationEnabled (enabled : bool) (s : t) : t :=
  {| navData := navData s; enablePriceFluctuation := enabled;
     fluctuationRange := fluctuationRange s; navDraws := navDraws s |}.
End MockMarketPriceServiceRest.

Module MockPaymentServiceRest.
Section Operations.
Context `{RandomDevice} {W : Type}.
Variable getP : W -> MockPaymentService.t.
Variable setP : MockPaymentService.t -> W -> W.
Variable call : PaymentCallback -> string -> PaymentStatus -> Eff W unit.

(** The loop of [completeAllPending] over the keys of the copy it took; an
    exception leaves the loop. *)
Fixpoint completeEach (transactionIds : list string) (status : PaymentStatus)
    : Eff W unit :=
  match transactionIds with
  | [] => ret tt
  | transactionId :: rest =>
      bind (MockPaymentService.completePayment getP setP call transactionId status)
        (fun _ => completeEach rest status)
  end.

Definition completeAllPending (status : PaymentStatus) : Eff W unit :=
  fun w =>
    let pending := MockPaymentService.pendingPayments (getP w) in
    completeEach (map_to_list pending).*1 status w.
End Operations.
End MockPaymentServiceRest.

(** ** IPortfolioService.h and PortfolioServiceImpl.h: portfolios and
    summaries *)

Record PortfolioSummary := Build_PortfolioSummary {
  summary_totalInvested : float;
  summary_totalCurrentValue : float;
  summary_totalUnits : float;
  summary_gainLoss : float;
  summary_gainLossPercentage : float;
  activeSIPCount : Z;
  pausedSIPCount : Z;
  stoppedSIPCount : Z
}.

Module PortfolioServiceImplRest.
Import PortfolioServiceImpl.
Local Open Scope eff_scope.

(** [for (sip : sips) portfolio.push_back(buildPortfolioItem(sip))] *)
Fixpoint buildItems `{MathLib} `{RandomDevice} (sips : list SIP.t)
    : Eff World (list SIPPortfolioItem) :=
  match sips with
  | [] => ret []
  | sip :: rest =>
      item <- buildPortfolioItem sip ;;
      items <- buildItems rest ;;
      ret (item :: items)
  end.

Definition getUserPortfolio `{MathLib} `{RandomDevice} (userId : string)
    : Eff World (list SIPPortfolioItem) :=
  fun w => buildItems (InMemorySIPRepository.getByUserId userId (sipRepository w)) w.

Definition filterByState `{MathLib} `{RandomDevice} (userId : string) (state : SIPState)
    : Eff World (list SIPPortfolioItem) :=
  fun w =>
    buildItems (InMemorySIPRepository.getByUserIdAndState userId state (sipRepository w)) w.

(** The default-constructed summary. *)
Definition emptySummary : PortfolioSummary :=
  {| summary_totalInvested := 0; summary_totalCurrentValue := 0;
     summary_totalUnits := 0; summary_gainLoss := 0; summary_gainLossPercentage := 0;
     activeSIPCount := 0; pausedSIPCount := 0; stoppedSIPCount := 0 |}.

(** One iteration of the loop of [getPortfolioSummary]. *)
Definition addItem (summary : PortfolioSummary) (item : SIPPortfolioItem)
    : PortfolioSummary :=
  {| summary_totalInvested := (summary_totalInvested summary + totalInvested item)%float;
     summary_totalCurrentValue :=
       (summary_totalCurrentValue summary + currentValue item)%float;
     summary_totalUnits := (summary_totalUnits summary + totalUnits item)%float;
     summary_gainLoss := summary_gainLoss summary;
     summary_gainLossPercentage := summary_gainLossPercentage summary;
     activeSIPCount :=
       match SIP.state (item_sip item) with
       | ACTIVE => activeSIPCount summary + 1
       | _ => activeSIPCount summary
       end;
     pausedSIPCount :=
       match SIP.state (item_sip item) with
       | PAUSED => pausedSIPCount summary + 1
       | _ => pausedSIPCount summary
       end;
     stoppedSIPCount :=
       match SIP.state (item_sip item) with
       | STOPPED => stoppedSIPCount summary + 1
       | _ => stoppedSIPCount summary
       end |}.

(** The statements after the loop: the overall gain or loss, and its
    percentage when something was invested. *)
Definition closeSummary (summary : PortfolioSummary) : PortfolioSummary :=
  let gainLoss :=
    (summary_totalCurrentValue summary - summary_totalInvested summary)%float in
  {| summary_totalInvested := summary_totalInvested summary;
     summary_totalCurrentValue := summary_totalCurrentValue summary;
     summary_totalUnits := summary_totalUnits summary;
     summary_gainLoss := gainLoss;
     summary_gainLossPercentage :=
       if (0 <? summary_totalInvested summary)%float
       then (gainLoss / summary_totalInvested summary * 100)%float
       else summary_gainLossPercentage summary;
     activeSIPCount := activeSIPCount summary;
     pausedSIPCount := pausedSIPCount summary;
     stoppedSIPCount := stoppedSIPCount summary |}.

Definition getPortfolioSummary `{MathLib} `{RandomDevice} (userId : string)
    : Eff World PortfolioSummary :=
  portfolio <- getUserPortfolio userId ;;
  ret (closeSummary (fold_left addItem portfolio emptySummary)).

Definition getTransactionHistory (sipId : string) (w : World) : list Transaction.t :=
  InMemoryTransactionRepository.getBySipId sipId (transactionRepository w).

Definition calculateCurrentValue `{RandomDevice} (sipId : string) : Eff World float :=
  fun w =>
    match InMemorySIPRepository.getById sipId (sipRepository w) with
    | None => (w, Thrown (SIPNotFoundException sipId))
    | Some sip =>
        let totalUnits := calculateTotalUnits sipId w in
        bind (onMarketPriceService (MockMarketPriceService.getCurrentNAV (SIP.fundId sip)))
          (fun currentNav => ret (totalUnits * currentNav)%float) w
    end.
End PortfolioServiceImplRest.

(** ** MockPaymentService.h: the success rate *)

Module MockPaymentServiceRate.
(** [setSuccessRate]: [std::max(0.0, std::min(1.0, rate))], where
    [std::min(a, b)] is [b] when [b < a] and [a] otherwise, and
    [std::max(a, b)] is [b] when [a < b] and [a] otherwise. *)
Definition std_min (a b : float) : float := if (b <? a)%float then b else a.
Definition std_max (a b : float) : float := if (a <? b)%float then b else a.

Definition setSuccessRate (rate : float) (s : MockPaymentService.t) : MockPaymentService.t :=
  {| MockPaymentService.completionHandler := MockPaymentService.completionHandler s;
     MockPaymentService.processedCallbacks := MockPaymentService.processedCallbacks s;
     MockPaymentService.successRate := std_max 0 (std_min 1 rate);
     MockPaymentService.autoComplete := MockPaymentService.autoComplete s;
     MockPaymentService.pendingPayments := MockPaymentService.pendingPayments s;
     MockPaymentService.paymentDraws := MockPaymentService.paymentDraws s |}.
End MockPaymentServiceRate.

(** ** main.cpp: setting the system up *)

Definition setFundRepository (r : gmap string MutualFund.t) (w : World) : World :=
  {| sipRepository := sipRepository w;
     transactionRepository := transactionRepository w;
     fundRepository := r; marketPriceService := marketPriceService w;
     paymentService := paymentService w; idCounter := idCounter w;
     errorLog := errorLog w |}.

Definition onFundService {A} (m : Eff (gmap string MutualFund.t) A) : Eff World A :=
  zoom fundRepository setFundRepository m.

Module Main.
Local Open Scope eff_scope.

(** The funds of [setupSampleFunds]; the price 45.80 of the third is written
    as the double nearest to it. *)
Definition sampleFunds : list MutualFund.t :=
  [ MutualFund.Build "FUND_000001" "HDFC Flexi Cap Fund" EQUITY HIGH 150.5;
    MutualFund.Build "FUND_000002" "ICICI Prudential Balanced" HYBRID MEDIUM 85.25;
    MutualFund.Build "FUND_000003" "SBI Debt Fund" DEBT LOW 0x1.6e66666666666p+5;
    MutualFund.Build "FUND_000004" "Axis ELSS Tax Saver" ELSS HIGH 120;
    MutualFund.Build "FUND_000005" "Kotak Small Cap Fund" EQUITY HIGH 95.75;
    MutualFund.Build "FUND_000006" "HDFC Corporate Bond" DEBT LOW 32.5 ].

(** The six [addFund] calls of [setupSampleFunds], one after the other. *)
Fixpoint addFunds (funds : list MutualFund.t) : Eff World unit :=
  match funds with
  | [] => ret tt
  | fund :: rest => onFundService (MutualFundServiceImpl.addFund fund) ;;; addFunds rest
  end.

(** The six [updateNAV] calls that follow them, with the same prices. *)
Fixpoint updateNAVs (funds : list MutualFund.t) : Eff World unit :=
  match funds with
  | [] => ret tt
  | fund :: rest =>
      onMarketPriceService
        (MockMarketPriceService.updateNAV (MutualFund.id fund) (MutualFund.nav fund)) ;;;
      updateNAVs rest
  end.

Definition setupSampleFunds : Eff World unit :=
  addFunds sampleFunds ;;; updateNAVs sampleFunds.

(** [initializeSystem]: the counter reset, empty repositories, prices without
    fluctuation, payments that complete at once and always succeed, and the
    sample funds.  (The current date of the menu, 2024-01-01, is a variable
    of [main.cpp] and no part of the world.) *)
Definition initializeSystem : World * Outcome unit :=
  setupSampleFunds
    {| sipRepository := InMemorySIPRepository.empty;
       transactionRepository := InMemoryTransactionRepository.empty;
       fundRepository := ∅;
       marketPriceService := MockMarketPriceService.make false 0;
       paymentService := MockPaymentService.make 1 true;
       idCounter := IdGenerator.reset; errorLog := [] |}.

(** [setupUser], given the two lines read from the terminal. *)
Definition setupUser (name email : string) (users : InMemoryUserRepository.t)
    : Eff World (InMemoryUserRepository.t * string) :=
  let name := if bool_decide (name = "") then "Demo User" else name in
  let email := if bool_decide (email = "") then "demo@example.com" else email in
  userId <- onIdGenerator IdGenerator.generateUserId ;;
  ret (InMemoryUserRepository.add (User.Build userId name email) users, userId).

(** The system as [main] has it when the menu first shows, for a user who
    entered nothing. *)
Definition started : World * Outcome (InMemoryUserRepository.t * string) :=
  setupUser "" "" InMemoryUserRepository.empty initializeSystem.1.

Definition world : World := started.1.

Definition users : InMemoryUserRepository.t :=
  match started.2 with
  | Returned (users, _) => users
  | Thrown _ => InMemoryUserRepository.empty
  end.
End Main.

(** ** Sample data

    Concrete collaborators, SIPs and worlds on which the definitions are run. *)

Module Sample.
(** A stand-in for [std::pow] on whole exponents up to 4096: repeated
    multiplication. *)
Fixpoint pow_iter (fuel : nat) (x y acc k : float) : float :=
  match fuel with
  | O => acc
  | S fuel' =>
      if (k <? y)%float then pow_iter fuel' x y (acc * x)%float (k + 1)%float else acc
  end.

Definition math : MathLib := {| pow x y := pow_iter 4096 x y 1%float 0%float |}.

(** Generators that always draw the same values: no price noise, and a
    payment draw below every positive success rate. *)
Definition random : RandomDevice :=
  {| nav_noise _ _ := 0%float; payment_draw _ := 0%float |}.

(** The C library of a process in the UTC zone; the dates of the samples
    are made with it. *)
Definition utc : CLibrary := CLib.fixed_zone 0.
#[local] Existing Instance utc.

Definition sip1 : SIP.t :=
  SIP.make "SIP_000001" "USER_000001" "FUND_000001" 1000 MONTHLY
    (DateUtils.createDate 2024 1 31) 10.

(** A SIP on a fund the price service does not know. *)
Definition sip2 : SIP.t :=
  SIP.make "SIP_000002" "USER_000001" "FUND_000009" 500 WEEKLY
    (DateUtils.createDate 2024 1 1) 0.

Definition sip3 : SIP.t :=
  SIP.make "SIP_000003" "USER_000001" "FUND_000002" 2000 QUARTERLY
    (DateUtils.createDate 2023 11 30) 0.

Definition sips1 : InMemorySIPRepository.t :=
  InMemorySIPRepository.add sip1 InMemorySIPRepository.empty.

Definition sips3 : InMemorySIPRepository.t :=
  InMemorySIPRepository.add sip3 (InMemorySIPRepository.add sip2 sips1).

Definition market : MockMarketPriceService.t :=
  MockMarketPriceService.setNavData
    (<["FUND_000001" := 150.5%float]> (<["FUND_000002" := 80%float]> ∅))
    (MockMarketPriceService.make false 0).

(** The transaction [executeSIP] records for the first installment of
    [sip1], still PENDING. *)
Definition pending_txn : Transaction.t :=
  Transaction.make "TXN_000001" "SIP_000001" 1000 150.5
    (DateUtils.createDate 2024 1 31) INSTALLMENT.

(** A PENDING transaction whose SIP is not in the SIP repository. *)
Definition orphan_txn : Transaction.t :=
  Transaction.make "TXN_000002" "SIP_000404" 500 80
    (DateUtils.createDate 2024 1 31) INSTALLMENT.

Definition ledger : InMemoryTransactionRepository.t :=
  InMemoryTransactionRepository.add orphan_txn
    (InMemoryTransactionRepository.add pending_txn InMemoryTransactionRepository.empty).

(** Three SIPs and an empty ledger, payments completing at once. *)
Definition world_start : World :=
  {| sipRepository := sips3;
     transactionRepository := InMemoryTransactionRepository.empty;
     fundRepository := ∅; marketPriceService := market;
     paymentService := MockPaymentService.make 1 true;
     idCounter := IdGenerator.reset; errorLog := [] |}.

(** The same after a market movement of minus 100 percent: every price on
    record is zero. *)
Definition world_crashed : World :=
  setMarketPriceService (MockMarketPriceService.simulateMarketMovement (-1) market)
    world_start.

(** The ledger of the valuation example: two settled SUCCESS installments of
    [sip1], 1000 at NAV 100 and 1100 at NAV 110, ten units each. *)
Definition paid (txn : Transaction.t) : Transaction.t :=
  Transaction.setCallbackProcessed true (Transaction.setStatus SUCCESS txn).

Definition paid_txn1 : Transaction.t :=
  paid (Transaction.make "TXN_000001" "SIP_000001" 1000 100
          (DateUtils.createDate 2024 1 31) INSTALLMENT).

Definition paid_txn2 : Transaction.t :=
  paid (Transaction.make "TXN_000002" "SIP_000001" 1100 110
          (DateUtils.createDate 2024 2 29) INSTALLMENT).



Definition sip1_after_two : SIP.t :=
  SIP.setNextExecutionDate (DateUtils.createDate 2024 3 29)
    (SIP.incrementInstallmentCount (SIP.incrementInstallmentCount sip1)).

(** The valuation example: the current NAV of the fund is 120. *)
Definition world_valued : World :=
  {| sipRepository :=
       InMemorySIPRepository.add sip1_after_two InMemorySIPRepository.empty;
     transactionRepository :=
       InMemoryTransactionRepository.add paid_txn2
         (InMemoryTransactionRepository.add paid_txn1 InMemoryTransactionRepository.empty);
     fundRepository := ∅;
     marketPriceService :=
       MockMarketPriceService.setNavData (<["FUND_000001" := 120%float]> ∅)
         (MockMarketPriceService.make false 0);
     paymentService := MockPaymentService.make 1 true;
     idCounter := 3; errorLog := [] |}.

(** One SIP and two transactions awaiting their callbacks. *)
Definition world_pending : World :=
  {| sipRepository := sips1; transactionRepository := ledger;
     fundRepository := ∅; marketPriceService := market;
     paymentService := MockPaymentService.make 1 false;
     idCounter := 3; errorLog := [] |}.
End Sample.

(** * Part II: properties *)

(** ** The calendar of the C library model *)

Module CalendarFacts.
Import Chrono CLib DateUtils.

(** Integer division, remainder, truncating division as linear facts. *)
Ltac zdiv := Z.to_euclidean_division_equations; lia.

(** The table of month lengths the design document's words describe. *)
Definition divisible (n k : Z) : bool := n mod k =? 0.

Definition leap_year (y : Z) : bool :=
  (divisible y 4 && negb (divisible y 100)) || divisible y 400.

Definition last_day_of_month (y m : Z) : Z :=
  if m =? 2 then (if leap_year y then 29 else 28)
  else if (m =? 4) || (m =? 6) || (m =? 9) || (m =? 11) then 30
  else 31.

Lemma isLeapYear_leap_year y : isLeapYear y = leap_year y.
Proof.
  unfold isLeapYear, leap_year, divisible.
  assert (H4 : (Z.rem y 4 =? 0) = (y mod 4 =? 0)).
  { destruct (Z.eqb_spec (Z.rem y 4) 0), (Z.eqb_spec (y mod 4) 0); auto; exfalso; zdiv. }
  assert (H100 : (Z.rem y 100 =? 0) = (y mod 100 =? 0)).
  { destruct (Z.eqb_spec (Z.rem y 100) 0), (Z.eqb_spec (y mod 100) 0); auto; exfalso; zdiv. }
  assert (H400 : (Z.rem y 400 =? 0) = (y mod 400 =? 0)).
  { destruct (Z.eqb_spec (Z.rem y 400) 0), (Z.eqb_spec (y mod 400) 0); auto; exfalso; zdiv. }
  now rewrite H4, H100, H400.
Qed.

Lemma leap_year_true y :
  leap_year y = true <-> y mod 4 = 0 /\ (y mod 100 <> 0 \/ y mod 400 = 0).
Proof.
  unfold leap_year, divisible.
  rewrite orb_true_iff, andb_true_iff, negb_true_iff, !Z.eqb_eq, Z.eqb_neq. zdiv.
Qed.

Lemma month_cases m :
  1 <= m <= 12 ->
  m = 1 \/ m = 2 \/ m = 3 \/ m = 4 \/ m = 5 \/ m = 6 \/
  m = 7 \/ m = 8 \/ m = 9 \/ m = 10 \/ m = 11 \/ m = 12.
Proof. lia. Qed.

Ltac each_month H :=
  destruct (month_cases _ H) as [?|[?|[?|[?|[?|[?|[?|[?|[?|[?|[?|?]]]]]]]]]]]; subst.

Lemma getDaysInMonth_last_day y m :
  1 <= m <= 12 -> getDaysInMonth y m = last_day_of_month y m.
Proof.
  intros Hm. unfold getDaysInMonth, last_day_of_month.
  rewrite isLeapYear_leap_year.
  each_month Hm; reflexivity.
Qed.

Lemma last_day_bounds y m : 28 <= last_day_of_month y m <= 31.
Proof.
  unfold last_day_of_month.
  destruct (m =? 2); [destruct (leap_year y); lia|].
  destruct ((m =? 4) || (m =? 6) || (m =? 9) || (m =? 11)); lia.
Qed.

(** A civil date the calendar has. *)
Definition valid_date (y m d : Z) : Prop :=
  1 <= m <= 12 /\ 1 <= d <= last_day_of_month y m.

Lemma year_of_era_range doe :
  0 <= doe < 146097 ->
  0 <= (doe - doe / 1460 + doe / 36524 - doe / 146096) / 365 <= 399.
Proof. intros. zdiv. Qed.

Lemma day_of_year_range doe :
  0 <= doe < 146097 ->
  let yoe := (doe - doe / 1460 + doe / 36524 - doe / 146096) / 365 in
  0 <= doe - (365 * yoe + yoe / 4 - yoe / 100) <= 365.
Proof. intros H yoe. subst yoe. zdiv. Qed.

Lemma day_365_is_leap doe :
  0 <= doe < 146097 ->
  let yoe := (doe - doe / 1460 + doe / 36524 - doe / 146096) / 365 in
  doe - (365 * yoe + yoe / 4 - yoe / 100) = 365 ->
  (yoe + 1) mod 4 = 0 /\ ((yoe + 1) mod 100 <> 0 \/ (yoe + 1) mod 400 = 0).
Proof. intros H yoe. subst yoe. zdiv. Qed.

Lemma march_month_cases mp :
  0 <= mp <= 11 ->
  mp = 0 \/ mp = 1 \/ mp = 2 \/ mp = 3 \/ mp = 4 \/ mp = 5 \/
  mp = 6 \/ mp = 7 \/ mp = 8 \/ mp = 9 \/ mp = 10 \/ mp = 11.
Proof. lia. Qed.

(** [civil_from_days] produces a date of the calendar. *)
Lemma civil_from_days_valid z :
  let '(y, m, d) := civil_from_days z in valid_date y m d.
Proof.
  unfold civil_from_days, valid_date.
  set (z' := z + 719468). set (era := z' / 146097). set (doe := z' - era * 146097).
  assert (Hdoe : 0 <= doe < 146097) by (subst doe era; zdiv).
  clearbody doe era. clear z z'.
  pose proof (year_of_era_range doe Hdoe) as Hy.
  pose proof (day_of_year_range doe Hdoe) as Hd.
  pose proof (day_365_is_leap doe Hdoe) as Hl.
  cbv zeta in Hd, Hl.
  set (yoe := (doe - doe / 1460 + doe / 36524 - doe / 146096) / 365) in *.
  set (doy := doe - (365 * yoe + yoe / 4 - yoe / 100)) in *.
  clearbody doy.
  set (mp := (5 * doy + 2) / 153).
  assert (Hmp : 0 <= mp <= 11) by (subst mp; zdiv).
  destruct (march_month_cases mp Hmp) as [Hc|[Hc|[Hc|[Hc|[Hc|[Hc|[Hc|[Hc|[Hc|[Hc|[Hc|Hc]]]]]]]]]]];
    rewrite Hc; subst mp; unfold last_day_of_month; simpl;
    try (split; [lia|zdiv]).
  destruct (leap_year (yoe + era * 400 + 1)) eqn:E.
  - split; [lia|]. zdiv.
  - split; [lia|].
    assert (doy <> 365).
    { intros H365. apply Hl in H365.
      assert (leap_year (yoe + era * 400 + 1) = true); [|congruence].
      apply leap_year_true. clear - H365. zdiv. }
    zdiv.
Qed.

(** Counting the days of the date [civil_from_days] produced gives the day
    count back. *)
Lemma days_from_civil_from_days z :
  let '(y, m, d) := civil_from_days z in days_from_civil y m d = z.
Proof.
  unfold civil_from_days, days_from_civil.
  set (z' := z + 719468). set (era := z' / 146097). set (doe := z' - era * 146097).
  assert (Hdoe : 0 <= doe < 146097) by (subst doe era; zdiv).
  assert (Hz : z = era * 146097 + doe - 719468) by (subst doe z'; lia).
  clearbody doe era. clear z'. subst z.
  pose proof (year_of_era_range doe Hdoe) as Hy.
  pose proof (day_of_year_range doe Hdoe) as Hd.
  cbv zeta in Hd.
  set (yoe := (doe - doe / 1460 + doe / 36524 - doe / 146096) / 365) in *.
  assert (Hdoy : exists doy, doy = doe - (365 * yoe + yoe / 4 - yoe / 100)) by eauto.
  destruct Hdoy as [doy Hdoy]. rewrite <- Hdoy in *.
  clearbody yoe.
  set (mp := (5 * doy + 2) / 153).
  assert (Hmp : 0 <= mp <= 11) by (subst mp; zdiv).
  assert (Hy' : forall y', y' = yoe + era * 400 -> y' / 400 = era /\ y' - era * 400 = yoe)
    by (intros; zdiv).
  destruct (march_month_cases mp Hmp) as [Hc|[Hc|[Hc|[Hc|[Hc|[Hc|[Hc|[Hc|[Hc|[Hc|[Hc|Hc]]]]]]]]]]];
    rewrite Hc; simpl;
    match goal with
    | |- context [(?y - 1) / 400] => replace (y - 1) with (yoe + era * 400) by lia
    | _ => idtac
    end;
    destruct (Hy' _ eq_refl) as [-> ->]; subst mp; zdiv.
Qed.
(** Days are counted one by one inside a month. *)
Lemma days_from_civil_day y m d :
  days_from_civil y m d = days_from_civil y m 1 + (d - 1).
Proof. unfold days_from_civil. lia. Qed.

(** Months are numbered consecutively: month [12 * y + (m - 1)] is month [m]
    of year [y]. *)
Definition first_of_month (mi : Z) : Z := days_from_civil (mi / 12) (mi mod 12 + 1) 1.

Definition month_length (mi : Z) : Z := last_day_of_month (mi / 12) (mi mod 12 + 1).

Lemma month_index_split mi :
  exists y m0, mi = 12 * y + m0 /\ 0 <= m0 <= 11 /\ mi / 12 = y /\ mi mod 12 = m0.
Proof. exists (mi / 12), (mi mod 12). zdiv. Qed.

Lemma month_index_div y m0 : 0 <= m0 <= 11 -> (12 * y + m0) / 12 = y.
Proof. intros. zdiv. Qed.

Lemma month_index_mod y m0 : 0 <= m0 <= 11 -> (12 * y + m0) mod 12 = m0.
Proof. intros. zdiv. Qed.

(** The first day of the next month follows the last day of this one. *)
Lemma first_of_month_succ mi :
  first_of_month (mi + 1) = first_of_month mi + month_length mi.
Proof.
  destruct (month_index_split mi) as (y & m0 & -> & Hm0 & _ & _).
  unfold first_of_month, month_length.
  rewrite (month_index_div y m0), (month_index_mod y m0) by lia.
  assert (Hc : m0 = 11 \/ 0 <= m0 <= 10) by lia.
  destruct Hc as [-> | Hc].
  - replace (12 * y + 11 + 1) with (12 * (y + 1) + 0) by lia.
    rewrite month_index_div, month_index_mod by lia.
    unfold days_from_civil, last_day_of_month. simpl. zdiv.
  - replace (12 * y + m0 + 1) with (12 * y + (m0 + 1)) by lia.
    rewrite month_index_div, month_index_mod by lia.
    destruct (march_month_cases (m0 + 1)) as [H|[H|[H|[H|[H|[H|[H|[H|[H|[H|[H|H]]]]]]]]]]];
      try lia;
      (replace m0 with (m0 + 1 - 1) by lia); rewrite H;
      unfold days_from_civil, last_day_of_month; simpl; try zdiv.
    destruct (leap_year y) eqn:E.
    + apply leap_year_true in E. zdiv.
    + assert (~ (y mod 4 = 0 /\ (y mod 100 <> 0 \/ y mod 400 = 0))).
      { rewrite <- leap_year_true. congruence. }
      zdiv.
Qed.

Lemma month_length_bounds mi : 28 <= month_length mi <= 31.
Proof. apply last_day_bounds. Qed.

(** Any later month starts after this month has ended. *)
Lemma first_of_month_later mi n :
  0 < n -> first_of_month mi + month_length mi <= first_of_month (mi + n).
Proof.
  intros Hn. pattern n. apply Z.lt_ind with (n := 0); [solve_proper | | | exact Hn].
  - replace (mi + Z.succ 0) with (mi + 1) by lia. rewrite first_of_month_succ. lia.
  - intros k Hk IH. replace (mi + Z.succ k) with ((mi + k) + 1) by lia.
    rewrite first_of_month_succ. pose proof (month_length_bounds (mi + k)). lia.
Qed.

Lemma first_of_month_mono mi mj : mi < mj -> first_of_month mi + month_length mi <= first_of_month mj.
Proof.
  intros H. replace mj with (mi + (mj - mi)) by lia. apply first_of_month_later. lia.
Qed.

Lemma days_from_civil_month_index y m d :
  1 <= m <= 12 ->
  days_from_civil y m d = first_of_month (12 * y + (m - 1)) + (d - 1).
Proof.
  intros Hm. unfold first_of_month.
  rewrite month_index_div, month_index_mod by lia.
  replace (m - 1 + 1) with m by lia. apply days_from_civil_day.
Qed.

Lemma month_length_index y m :
  1 <= m <= 12 -> month_length (12 * y + (m - 1)) = last_day_of_month y m.
Proof.
  intros Hm. unfold month_length.
  rewrite month_index_div, month_index_mod by lia. f_equal. lia.
Qed.

(** Two dates of the calendar with the same day count are the same date. *)
Lemma days_from_civil_inj y1 m1 d1 y2 m2 d2 :
  valid_date y1 m1 d1 -> valid_date y2 m2 d2 ->
  days_from_civil y1 m1 d1 = days_from_civil y2 m2 d2 ->
  y1 = y2 /\ m1 = m2 /\ d1 = d2.
Proof.
  intros [Hm1 Hd1] [Hm2 Hd2].
  rewrite !days_from_civil_month_index by assumption.
  rewrite <- (month_length_index y1 m1) in Hd1 by assumption.
  rewrite <- (month_length_index y2 m2) in Hd2 by assumption.
  intros Heq.
  destruct (Z.lt_trichotomy (12 * y1 + (m1 - 1)) (12 * y2 + (m2 - 1))) as [Hlt|[He|Hgt]].
  - apply first_of_month_mono in Hlt. lia.
  - rewrite He in Heq. lia.
  - apply first_of_month_mono in Hgt. lia.
Qed.

(** The date of the day count of a date of the calendar is that date. *)
Lemma civil_from_days_from_civil y m d :
  valid_date y m d -> civil_from_days (days_from_civil y m d) = (y, m, d).
Proof.
  intros Hv.
  pose proof (civil_from_days_valid (days_from_civil y m d)) as Hv'.
  pose proof (days_from_civil_from_days (days_from_civil y m d)) as Hr.
  destruct (civil_from_days (days_from_civil y m d)) as [[y' m'] d'].
  destruct (days_from_civil_inj _ _ _ _ _ _ Hv' Hv Hr) as (-> & -> & ->).
  reflexivity.
Qed.
(** *** [gmtime] and [timegm] are inverse on the calendar *)

Definition valid_tm (t : tm) : Prop :=
  0 <= tm_sec t < 60 /\ 0 <= tm_min t < 60 /\ 0 <= tm_hour t < 24 /\
  valid_date (tm_year t + 1900) (tm_mon t + 1) (tm_mday t).

(** The calendar reading of a structure: year, month, day, hour, minute and
    second, the fields [mktime] reads besides [tm_isdst]. *)
Definition calendar (t : tm) : Z * Z * Z * Z * Z * Z :=
  (tm_year t, tm_mon t, tm_mday t, tm_hour t, tm_min t, tm_sec t).

Lemma timegm_month t :
  0 <= tm_mon t <= 11 ->
  timegm t =
  days_from_civil (tm_year t + 1900) (tm_mon t + 1) (tm_mday t) * 86400
  + tm_hour t * 3600 + tm_min t * 60 + tm_sec t.
Proof.
  intros Hm. unfold timegm.
  replace (tm_mon t / 12) with 0 by zdiv.
  replace (tm_mon t mod 12) with (tm_mon t) by zdiv.
  now rewrite Z.add_0_r.
Qed.

Lemma timegm_calendar a b : calendar a = calendar b -> timegm a = timegm b.
Proof. unfold calendar, timegm. intros [= -> -> -> -> -> ->]. reflexivity. Qed.

Lemma gmtime_valid t : valid_tm (gmtime t).
Proof.
  unfold gmtime, valid_tm.
  pose proof (civil_from_days_valid (t / 86400)) as Hv.
  destruct (civil_from_days (t / 86400)) as [[y m] d].
  cbn [tm_sec tm_min tm_hour tm_mday tm_mon tm_year].
  replace (y - 1900 + 1900) with y by lia. replace (m - 1 + 1) with m by lia.
  repeat split; try apply Hv; zdiv.
Qed.

Lemma gmtime_isdst t : tm_isdst (gmtime t) = 0.
Proof. unfold gmtime. now destruct (civil_from_days (t / 86400)) as [[y m] d]. Qed.

Lemma gmtime_wday t : tm_wday (gmtime t) = (t / 86400 + 4) mod 7.
Proof. unfold gmtime. now destruct (civil_from_days (t / 86400)) as [[y m] d]. Qed.

Lemma timegm_gmtime t : timegm (gmtime t) = t.
Proof.
  rewrite timegm_month by (pose proof (gmtime_valid t) as (_ & _ & _ & ? & _); lia).
  unfold gmtime.
  pose proof (days_from_civil_from_days (t / 86400)) as Hr.
  destruct (civil_from_days (t / 86400)) as [[y m] d].
  cbn [tm_sec tm_min tm_hour tm_mday tm_mon tm_year].
  replace (y - 1900 + 1900) with y by lia. replace (m - 1 + 1) with m by lia.
  rewrite Hr. zdiv.
Qed.

Lemma gmtime_timegm t : valid_tm t -> calendar (gmtime (timegm t)) = calendar t.
Proof.
  intros Hv. pose proof Hv as (Hs & Hm & Hh & Hd).
  rewrite timegm_month by (destruct Hd; lia).
  unfold gmtime, calendar.
  set (D := days_from_civil (tm_year t + 1900) (tm_mon t + 1) (tm_mday t)).
  assert (Hdiv : (D * 86400 + tm_hour t * 3600 + tm_min t * 60 + tm_sec t) / 86400 = D)
    by zdiv.
  assert (Hmod : (D * 86400 + tm_hour t * 3600 + tm_min t * 60 + tm_sec t) mod 86400
                 = tm_hour t * 3600 + tm_min t * 60 + tm_sec t) by zdiv.
  rewrite Hdiv, Hmod. subst D. rewrite civil_from_days_from_civil by assumption.
  cbn [tm_sec tm_min tm_hour tm_mday tm_mon tm_year].
  repeat f_equal; zdiv.
Qed.

(** *** The 64-bit tick count *)

(** The [time_t] values of the representable dates. *)
Definition time_t_range (t : Z) : Prop := -9223372036 <= t <= 9223372036.

Lemma wrap64_representable z : representable (wrap64 z).
Proof. unfold representable, wrap64. zdiv. Qed.

Lemma wrap64_id z : representable z -> wrap64 z = z.
Proof. unfold representable, wrap64. intros. zdiv. Qed.

Lemma wrap32_id z : -2147483648 <= z < 2147483648 -> wrap32 z = z.
Proof. unfold wrap32. intros. zdiv. Qed.

Lemma to_time_t_range d : representable d -> time_t_range (to_time_t d).
Proof. unfold representable, time_t_range, to_time_t, ticks_per_second. intros. zdiv. Qed.

Lemma from_time_t_id t : time_t_range t -> from_time_t t = t * ticks_per_second.
Proof.
  intros Ht. unfold from_time_t. apply wrap64_id.
  unfold time_t_range, representable, ticks_per_second in *. lia.
Qed.

Lemma to_time_t_from_time_t t : time_t_range t -> to_time_t (from_time_t t) = t.
Proof.
  intros Ht. rewrite from_time_t_id by assumption.
  unfold to_time_t, ticks_per_second. zdiv.
Qed.

(** A date lies less than one second after the second it truncates to, and
    less than one second before it. *)
Lemma to_time_t_bound d :
  (to_time_t d - 1) * ticks_per_second < d < (to_time_t d + 1) * ticks_per_second.
Proof. unfold to_time_t, ticks_per_second. zdiv. Qed.

(** *** The month loops of [addMonths] *)

Lemma normalize_overflow_spec fuel mon year :
  (Z.to_nat mon <= fuel)%nat ->
  normalize_overflow fuel mon year =
    if mon >? 11 then (mon mod 12, year + mon / 12) else (mon, year).
Proof.
  revert mon year. induction fuel as [|fuel IH]; intros mon year Hf; simpl.
  - destruct (Z.gtb_spec mon 11); [lia | reflexivity].
  - destruct (Z.gtb_spec mon 11) as [Hgt|Hle]; [|reflexivity].
    rewrite IH by lia.
    destruct (Z.gtb_spec (mon - 12) 11); f_equal; zdiv.
Qed.

Lemma normalize_underflow_spec fuel mon year :
  (Z.to_nat (- mon) <= fuel)%nat ->
  normalize_underflow fuel mon year =
    if mon <? 0 then (mon mod 12, year + mon / 12) else (mon, year).
Proof.
  revert mon year. induction fuel as [|fuel IH]; intros mon year Hf; simpl.
  - destruct (Z.ltb_spec mon 0); [lia | reflexivity].
  - destruct (Z.ltb_spec mon 0) as [Hlt|Hge]; [|reflexivity].
    rewrite IH by lia.
    destruct (Z.ltb_spec (mon + 12) 0); f_equal; zdiv.
Qed.

(** The loops terminate within their fuel and leave the month within 0..11,
    carrying whole years. *)
Lemma normalize_month_spec mon year :
  normalize_month mon year = (mon mod 12, year + mon / 12).
Proof.
  unfold normalize_month.
  rewrite normalize_overflow_spec by lia.
  destruct (Z.gtb_spec mon 11) as [Hgt|Hle].
  - rewrite normalize_underflow_spec by lia.
    destruct (Z.ltb_spec (mon mod 12) 0); [zdiv | reflexivity].
  - rewrite normalize_underflow_spec by lia.
    destruct (Z.ltb_spec mon 0); [reflexivity | f_equal; zdiv].
Qed.

(** *** The calendar formula of the design document

    Adding [n] months keeps the time of day, moves the month by [n] with the
    years carried, and clamps the day to the last day of the target month.
    The fields [mktime] sets itself stay as they were. *)
Definition calendar_add_months (n : Z) (t : tm) : tm :=
  let total := tm_mon t + n in
  let year := tm_year t + total / 12 in
  let mon := total mod 12 in
  {| tm_sec := tm_sec t; tm_min := tm_min t; tm_hour := tm_hour t;
     tm_mday := Z.min (tm_mday t) (last_day_of_month (year + 1900) (mon + 1));
     tm_mon := mon; tm_year := year;
     tm_wday := tm_wday t; tm_yday := tm_yday t; tm_isdst := tm_isdst t |}.

Lemma calendar_add_months_valid n t : valid_tm t -> valid_tm (calendar_add_months n t).
Proof.
  unfold valid_tm, valid_date, calendar_add_months.
  cbn [tm_sec tm_min tm_hour tm_mday tm_mon tm_year].
  intros (Hs & Hm & Hh & Hmon & Hd).
  pose proof (last_day_bounds (tm_year t + (tm_mon t + n) / 12 + 1900)
                ((tm_mon t + n) mod 12 + 1)).
  repeat split; try lia; zdiv.
Qed.

Lemma calendar_add_months_calendar n a b :
  calendar a = calendar b ->
  calendar (calendar_add_months n a) = calendar (calendar_add_months n b).
Proof.
  unfold calendar, calendar_add_months.
  cbn [tm_sec tm_min tm_hour tm_mday tm_mon tm_year].
  intros [= -> -> -> -> -> ->]. reflexivity.
Qed.

(** Moving forward by at least one month moves at least one day forward. *)
Lemma timegm_calendar_add_months t n :
  valid_tm t -> 0 < n -> timegm t + 86400 <= timegm (calendar_add_months n t).
Proof.
  intros Hv Hn. pose proof (calendar_add_months_valid n t Hv) as Hv'.
  pose proof Hv as (Hs & Hm & Hh & Hmon & Hd).
  rewrite (timegm_month t) by lia.
  rewrite (timegm_month (calendar_add_months n t))
    by (destruct Hv' as (_ & _ & _ & ? & _); lia).
  unfold calendar_add_months. cbn [tm_sec tm_min tm_hour tm_mday tm_mon tm_year].
  set (total := tm_mon t + n).
  assert (Hmon' : 1 <= total mod 12 + 1 <= 12) by zdiv.
  rewrite !days_from_civil_month_index by assumption.
  pose proof (last_day_bounds (tm_year t + total / 12 + 1900) (total mod 12 + 1)) as Hb.
  rewrite <- month_length_index in Hd by assumption.
  assert (Hlt : 12 * (tm_year t + 1900) + (tm_mon t + 1 - 1)
                < 12 * (tm_year t + total / 12 + 1900) + (total mod 12 + 1 - 1))
    by (subst total; zdiv).
  apply first_of_month_mono in Hlt. lia.
Qed.

(** A month has at most 31 days: [n] months later is at most [31 * n] days
    later. *)
Lemma first_of_month_within mi n :
  0 <= n -> first_of_month (mi + n) <= first_of_month mi + 31 * n.
Proof.
  intros Hn. pattern n. apply Z.le_ind with (n := 0); [solve_proper | | | exact Hn].
  - replace (mi + 0) with mi by lia. lia.
  - intros k Hk IH. replace (mi + Z.succ k) with ((mi + k) + 1) by lia.
    rewrite first_of_month_succ. pose proof (month_length_bounds (mi + k)). lia.
Qed.

Lemma timegm_calendar_add_months_within t n :
  valid_tm t -> 0 <= n ->
  timegm (calendar_add_months n t) <= timegm t + 31 * n * 86400.
Proof.
  intros Hv Hn. pose proof (calendar_add_months_valid n t Hv) as Hv'.
  pose proof Hv as (Hs & Hm & Hh & Hmon & Hd).
  rewrite (timegm_month t) by lia.
  rewrite (timegm_month (calendar_add_months n t))
    by (destruct Hv' as (_ & _ & _ & ? & _); lia).
  unfold calendar_add_months. cbn [tm_sec tm_min tm_hour tm_mday tm_mon tm_year].
  set (total := tm_mon t + n).
  assert (Hmon' : 1 <= total mod 12 + 1 <= 12) by zdiv.
  rewrite !days_from_civil_month_index by assumption.
  set (L := last_day_of_month _ _).
  assert (Hidx : 12 * (tm_year t + total / 12 + 1900) + (total mod 12 + 1 - 1)
                 = 12 * (tm_year t + 1900) + (tm_mon t + 1 - 1) + n)
    by (subst total; zdiv).
  rewrite Hidx.
  pose proof (first_of_month_within (12 * (tm_year t + 1900) + (tm_mon t + 1 - 1)) n Hn).
  lia.
Qed.

Lemma first_of_month_le mi mj : mi <= mj -> first_of_month mi <= first_of_month mj.
Proof.
  intros Hle. destruct (Z.eq_dec mi mj) as [->|Hne]; [lia|].
  assert (Hlt : mi < mj) by lia. apply first_of_month_mono in Hlt.
  pose proof (month_length_bounds mi). lia.
Qed.

(** Moving by [n] months, forward or back, moves by at most [31 * |n| + 30]
    days. *)
Lemma timegm_calendar_add_months_near t n :
  valid_tm t ->
  timegm t - (31 * Z.abs n + 30) * 86400
  <= timegm (calendar_add_months n t)
  <= timegm t + (31 * Z.abs n + 30) * 86400.
Proof.
  intros Hv. pose proof (calendar_add_months_valid n t Hv) as Hv'.
  pose proof Hv as (Hs & Hm & Hh & Hmon & Hd).
  rewrite (timegm_month t) by lia.
  rewrite (timegm_month (calendar_add_months n t))
    by (destruct Hv' as (_ & _ & _ & ? & _); lia).
  unfold calendar_add_months. cbn [tm_sec tm_min tm_hour tm_mday tm_mon tm_year].
  set (total := tm_mon t + n).
  assert (Hmon' : 1 <= total mod 12 + 1 <= 12) by zdiv.
  rewrite !days_from_civil_month_index by assumption.
  pose proof (last_day_bounds (tm_year t + 1900) (tm_mon t + 1)) as Hb.
  pose proof (last_day_bounds (tm_year t + total / 12 + 1900) (total mod 12 + 1)) as Hb'.
  set (L := last_day_of_month (tm_year t + total / 12 + 1900) (total mod 12 + 1)) in *.
  assert (Hidx : 12 * (tm_year t + total / 12 + 1900) + (total mod 12 + 1 - 1)
                 = 12 * (tm_year t + 1900) + (tm_mon t + 1 - 1) + n)
    by (subst total; zdiv).
  rewrite Hidx. set (mi := 12 * (tm_year t + 1900) + (tm_mon t + 1 - 1)).
  assert (Hfom : first_of_month mi - 31 * Z.abs n <= first_of_month (mi + n)
                 <= first_of_month mi + 31 * Z.abs n).
  { destruct (Z.le_gt_cases 0 n) as [Hn|Hn].
    - pose proof (first_of_month_within mi n Hn).
      pose proof (first_of_month_le mi (mi + n) ltac:(lia)). lia.
    - pose proof (first_of_month_within (mi + n) (- n) ltac:(lia)) as Hw.
      replace (mi + n + - n) with mi in Hw by lia.
      pose proof (first_of_month_le (mi + n) mi ltac:(lia)). lia. }
  lia.
Qed.

(** *** The C library of a zone with a fixed offset

    In a zone that keeps [offset] seconds from UTC all year, [localtime] is
    [gmtime] of the shifted time, and [mktime] of a structure that carries no
    daylight saving flag is [timegm] shifted back. *)
Definition fixed_offset `{CLibrary} (offset : Z) : Prop :=
  (forall d, representable d ->
     localtime (to_time_t d) = gmtime (to_time_t d + offset)) /\
  (forall t, tm_isdst t = 0 -> mktime t = timegm t - offset).

Lemma fixed_zone_fixed_offset offset : @fixed_offset (fixed_zone offset) offset.
Proof. split; reflexivity. Qed.

(** A date that is representable and lies at least [n] days before the end
    of the range of the clock. *)
Definition days_before_end (n : Z) (d : Date) : Prop :=
  representable d /\ d + n * 86400 * ticks_per_second < 9223372036854775808.

(** A date with [n] days of the range of the clock on either side. *)
Definition in_range_by (n : Z) (d : Date) : Prop :=
  representable (d - n * 86400 * ticks_per_second) /\
  representable (d + n * 86400 * ticks_per_second).

Lemma addWeeks_one date :
  days_before_end 7 date -> addWeeks date 1 = date + 7 * 86400 * ticks_per_second.
Proof.
  unfold days_before_end, representable, ticks_per_second. intros [Hr Hb].
  unfold addWeeks, plus, hours, ticks_per_second.
  rewrite (wrap32_id (24 * 7 * 1)) by lia.
  rewrite (wrap64_id (24 * 7 * 1 * 3600 * 1000000000)) by (unfold representable; lia).
  rewrite wrap64_id by (unfold representable; lia). lia.
Qed.

Section Zone.
Context `{CLibrary}.
Variable offset : Z.
Hypothesis Hzone : fixed_offset offset.

(** The civil reading of a date in the zone of the process. *)
Definition civil (d : Date) : tm := localtime (to_time_t d).

Lemma civil_gmtime d : representable d -> civil d = gmtime (to_time_t d + offset).
Proof. apply Hzone. Qed.

Lemma civil_valid d : representable d -> valid_tm (civil d).
Proof. intros Hr. rewrite civil_gmtime by assumption. apply gmtime_valid. Qed.

(** What [addMonths] hands to [mktime] is the calendar formula applied to
    the broken-down date. *)
Lemma addMonths_unfold date months :
  representable date -> -2147483648 <= months < 2147483637 ->
  addMonths date months =
  from_time_t (timegm (calendar_add_months months (civil date)) - offset).
Proof.
  intros Hr Hmonths. pose proof (civil_valid date Hr) as Hv.
  pose proof (civil_gmtime date Hr) as Hg.
  unfold addMonths. fold (civil date).
  assert (Hmon : 0 <= tm_mon (civil date) <= 11)
    by (destruct Hv as (_ & _ & _ & [? _]); lia).
  rewrite wrap32_id by lia.
  rewrite normalize_month_spec. cbv beta iota zeta.
  assert (Hmon' : 1 <= (tm_mon (civil date) + months) mod 12 + 1 <= 12) by zdiv.
  rewrite getDaysInMonth_last_day by assumption.
  set (L := last_day_of_month _ _).
  assert (Hmin : (if tm_mday (civil date) >? L then L else tm_mday (civil date))
                 = Z.min (tm_mday (civil date)) L)
    by (destruct (Z.gtb_spec (tm_mday (civil date)) L); lia).
  rewrite Hmin.
  destruct Hzone as [_ Hmk]. rewrite Hmk.
  - reflexivity.
  - cbn [tm_isdst]. rewrite Hg. apply gmtime_isdst.
Qed.

(** Where the seconds [addMonths] computes are the seconds of a
    representable date, the date it returns is those seconds and reads back
    as the calendar formula. *)
Lemma addMonths_exact date months :
  representable date -> -2147483648 <= months < 2147483637 ->
  time_t_range (timegm (calendar_add_months months (civil date)) - offset) ->
  addMonths date months
  = (timegm (calendar_add_months months (civil date)) - offset) * ticks_per_second /\
  calendar (civil (addMonths date months))
  = calendar (calendar_add_months months (civil date)).
Proof.
  intros Hr Hmonths Hrange.
  rewrite addMonths_unfold by assumption.
  split; [by apply from_time_t_id|].
  rewrite civil_gmtime by apply wrap64_representable.
  rewrite to_time_t_from_time_t by assumption.
  replace (timegm (calendar_add_months months (civil date)) - offset + offset)
    with (timegm (calendar_add_months months (civil date))) by lia.
  apply gmtime_timegm, calendar_add_months_valid, civil_valid, Hr.
Qed.

(** The seconds [addMonths] converts back to a date: between one day and
    [31 * months] days after the seconds of the date for a positive number
    of months, and within [31 * |months| + 30] days of them for any. *)
Lemma addMonths_seconds date months :
  representable date -> 0 < months ->
  to_time_t date + 86400
  <= timegm (calendar_add_months months (civil date)) - offset
  <= to_time_t date + 31 * months * 86400.
Proof.
  intros Hr Hn. rewrite civil_gmtime by assumption.
  pose proof (timegm_calendar_add_months (gmtime (to_time_t date + offset)) months
                (gmtime_valid _) Hn) as Hlo.
  pose proof (timegm_calendar_add_months_within (gmtime (to_time_t date + offset)) months
                (gmtime_valid _) ltac:(lia)) as Hhi.
  rewrite timegm_gmtime in Hlo, Hhi. lia.
Qed.

Lemma addMonths_seconds_near date months :
  representable date ->
  to_time_t date - (31 * Z.abs months + 30) * 86400
  <= timegm (calendar_add_months months (civil date)) - offset
  <= to_time_t date + (31 * Z.abs months + 30) * 86400.
Proof.
  intros Hr. rewrite civil_gmtime by assumption.
  pose proof (timegm_calendar_add_months_near (gmtime (to_time_t date + offset)) months
                (gmtime_valid _)) as Hnear.
  rewrite timegm_gmtime in Hnear. lia.
Qed.

Lemma addMonths_in_range date months :
  0 < months < 2147483637 -> days_before_end (31 * months + 1) date ->
  time_t_range (timegm (calendar_add_months months (civil date)) - offset).
Proof.
  intros Hn [Hr Hb]. pose proof (addMonths_seconds date months Hr ltac:(lia)) as Hs.
  pose proof (to_time_t_bound date) as Hd. pose proof (to_time_t_range date Hr) as Ht.
  unfold time_t_range, representable, ticks_per_second in *. lia.
Qed.

Lemma addMonths_in_range_near date months :
  in_range_by (31 * Z.abs months + 31) date ->
  representable date /\
  time_t_range (timegm (calendar_add_months months (civil date)) - offset).
Proof.
  intros [Hlo Hhi].
  assert (Hr : representable date)
    by (unfold representable, ticks_per_second in *; lia).
  split; [exact Hr|].
  pose proof (addMonths_seconds_near date months Hr) as Hs.
  pose proof (to_time_t_bound date) as Hd.
  unfold time_t_range, representable, ticks_per_second in *. lia.
Qed.

(** [addMonths] is the calendar formula, read back through the calendar. *)
Lemma addMonths_calendar date months :
  0 < months < 2147483637 -> days_before_end (31 * months + 1) date ->
  calendar (civil (addMonths date months))
  = calendar (calendar_add_months months (civil date)).
Proof.
  intros Hn Hb. pose proof Hb as [Hr _].
  apply addMonths_exact; [assumption | lia | by apply addMonths_in_range].
Qed.

Lemma addMonths_later date months :
  0 < months < 2147483637 -> days_before_end (31 * months + 1) date ->
  date < addMonths date months.
Proof.
  intros Hn Hb. pose proof Hb as [Hr _].
  destruct (addMonths_exact date months Hr ltac:(lia)
              (addMonths_in_range date months Hn Hb)) as [-> _].
  pose proof (addMonths_seconds date months Hr ltac:(lia)) as Hs.
  pose proof (to_time_t_bound date) as Hd.
  unfold ticks_per_second in *. lia.
Qed.

(** [addMonths] returns a whole number of seconds. *)
Lemma addMonths_whole_seconds date months :
  0 < months < 2147483637 -> days_before_end (31 * months + 1) date ->
  addMonths date months mod ticks_per_second = 0.
Proof.
  intros Hn Hb. pose proof Hb as [Hr _].
  destruct (addMonths_exact date months Hr ltac:(lia)
              (addMonths_in_range date months Hn Hb)) as [-> _].
  apply Z.mod_mul. unfold ticks_per_second. lia.
Qed.

Lemma addQuarters_one date : addQuarters date 1 = addMonths date 3.
Proof. reflexivity. Qed.
End Zone.

Lemma addWeeks_later date : days_before_end 7 date -> date < addWeeks date 1.
Proof.
  intros Hb. rewrite addWeeks_one by assumption. unfold ticks_per_second. lia.
Qed.
End CalendarFacts.

(** ** Comparisons of [double] *)

Module FloatFacts.
(** A number that is at least zero is not below zero (NaN is neither). *)
Lemma leb_zero_not_ltb x : (0 <=? x)%float = true -> (x <? 0)%float = false.
Proof.
  rewrite FloatAxioms.leb_spec, FloatAxioms.ltb_spec. unfold SFleb, SFltb.
  change (Prim2SF 0) with (S754_zero false).
  destruct (Prim2SF x) as [[]|[]| |[] m e]; simpl; congruence.
Qed.

(** A number above zero is not zero or below. *)
Lemma ltb_zero_not_leb x : (0 <? x)%float = true -> (x <=? 0)%float = false.
Proof.
  rewrite FloatAxioms.leb_spec, FloatAxioms.ltb_spec. unfold SFleb, SFltb.
  change (Prim2SF 0) with (S754_zero false).
  destruct (Prim2SF x) as [[]|[]| |[] m e]; simpl; congruence.
Qed.

(** A number that is at least zero and not equal to zero is above zero. *)
Lemma leb_zero_not_eqb_ltb x :
  (0 <=? x)%float = true -> (x =? 0)%float = false -> (0 <? x)%float = true.
Proof.
  rewrite FloatAxioms.leb_spec, FloatAxioms.eqb_spec, FloatAxioms.ltb_spec.
  unfold SFleb, SFeqb, SFltb.
  change (Prim2SF 0) with (S754_zero false).
  destruct (Prim2SF x) as [[]|[]| |[] m e]; simpl; congruence.
Qed.

(** A number equal to zero (of either sign) is not above zero. *)
Lemma eqb_zero_not_ltb x : (x =? 0)%float = true -> (0 <? x)%float = false.
Proof.
  rewrite FloatAxioms.eqb_spec, FloatAxioms.ltb_spec. unfold SFeqb, SFltb.
  change (Prim2SF 0) with (S754_zero false).
  destruct (Prim2SF x) as [[]|[]| |[] m e]; simpl; congruence.
Qed.

(** A number below zero is not above zero. *)
Lemma below_zero_not_above x : (x <? 0)%float = true -> (0 <? x)%float = false.
Proof.
  rewrite !FloatAxioms.ltb_spec. unfold SFltb.
  change (Prim2SF 0) with (S754_zero false).
  destruct (Prim2SF x) as [[]|[]| |[] m e]; simpl; congruence.
Qed.

(** NaN, the one number not equal to itself, is above nothing. *)
Lemma nan_not_above x y : (x =? x)%float = false -> (y <? x)%float = false.
Proof.
  rewrite FloatAxioms.eqb_spec, FloatAxioms.ltb_spec. unfold SFeqb, SFltb.
  destruct (Prim2SF x) as [[]|[]| |[] mx ex]; simpl; try congruence.
  - intros _. by destruct (Prim2SF y) as [[]|[]| |[] my ey].
  - change (PosDef.Pos.compare_cont Eq mx mx) with (Pos.compare mx mx).
    rewrite Z.compare_refl, Pos.compare_refl. simpl. congruence.
  - change (PosDef.Pos.compare_cont Eq mx mx) with (Pos.compare mx mx).
    rewrite Z.compare_refl, Pos.compare_refl. simpl. congruence.
Qed.
End FloatFacts.

(** ** The repositories keep every entity under its own id *)

Module RepositoryFacts.

Definition sip_keys_wf (r : InMemorySIPRepository.t) : Prop :=
  forall k sip, InMemorySIPRepository.storage r !! k = Some sip -> SIP.id sip = k.

Definition txn_keys_wf (r : InMemoryTransactionRepository.t) : Prop :=
  forall k txn, InMemoryTransactionRepository.storage r !! k = Some txn -> Transaction.id txn = k.

Lemma sip_empty_wf : sip_keys_wf InMemorySIPRepository.empty.
Proof. intros k sip H. simpl in H. by rewrite lookup_empty in H. Qed.

Lemma sip_add_storage sip r :
  InMemorySIPRepository.storage (InMemorySIPRepository.add sip r)
  = <[SIP.id sip := sip]> (InMemorySIPRepository.storage r).
Proof. reflexivity. Qed.

Lemma sip_add_wf sip r : sip_keys_wf r -> sip_keys_wf (InMemorySIPRepository.add sip r).
Proof.
  intros Hwf k s. rewrite sip_add_storage, lookup_insert.
  case_decide; [naive_solver | apply Hwf].
Qed.

Lemma sip_update_storage sip r :
  InMemorySIPRepository.storage (InMemorySIPRepository.update sip r).1
  = match InMemorySIPRepository.storage r !! SIP.id sip with
    | Some _ => <[SIP.id sip := sip]> (InMemorySIPRepository.storage r)
    | None => InMemorySIPRepository.storage r
    end.
Proof.
  unfold InMemorySIPRepository.update.
  by destruct (InMemorySIPRepository.storage r !! SIP.id sip).
Qed.

Lemma sip_update_wf sip r : sip_keys_wf r -> sip_keys_wf (InMemorySIPRepository.update sip r).1.
Proof.
  intros Hwf k s. rewrite sip_update_storage.
  destruct (InMemorySIPRepository.storage r !! SIP.id sip); [|apply Hwf].
  rewrite lookup_insert. case_decide; [naive_solver | apply Hwf].
Qed.

(** [update] neither adds nor removes a key. *)
Lemma sip_update_dom sip r k :
  is_Some (InMemorySIPRepository.storage (InMemorySIPRepository.update sip r).1 !! k)
  <-> is_Some (InMemorySIPRepository.storage r !! k).
Proof.
  rewrite sip_update_storage.
  destruct (InMemorySIPRepository.storage r !! SIP.id sip) eqn:E; [|done].
  rewrite lookup_insert. case_decide; [subst; rewrite E; split; eauto | done].
Qed.

Lemma txn_empty_wf : txn_keys_wf InMemoryTransactionRepository.empty.
Proof. intros k t H. simpl in H. by rewrite lookup_empty in H. Qed.

Lemma txn_add_wf txn r :
  txn_keys_wf r -> txn_keys_wf (InMemoryTransactionRepository.add txn r).
Proof.
  intros Hwf k t. simpl. rewrite lookup_insert.
  case_decide; [naive_solver | apply Hwf].
Qed.

Lemma txn_update_storage txn r :
  InMemoryTransactionRepository.storage (InMemoryTransactionRepository.update txn r).1
  = match InMemoryTransactionRepository.storage r !! Transaction.id txn with
    | Some _ => <[Transaction.id txn := txn]> (InMemoryTransactionRepository.storage r)
    | None => InMemoryTransactionRepository.storage r
    end.
Proof.
  unfold InMemoryTransactionRepository.update.
  by destruct (InMemoryTransactionRepository.storage r !! Transaction.id txn).
Qed.

Lemma txn_update_wf txn r :
  txn_keys_wf r -> txn_keys_wf (InMemoryTransactionRepository.update txn r).1.
Proof.
  intros Hwf k t. rewrite txn_update_storage.
  destruct (InMemoryTransactionRepository.storage r !! Transaction.id txn); [|apply Hwf].
  rewrite lookup_insert. case_decide; [naive_solver | apply Hwf].
Qed.

(** An update that keeps the owning SIP leaves the secondary index alone. *)
Lemma txn_update_same_sip txn old r :
  InMemoryTransactionRepository.storage r !! Transaction.id txn = Some old ->
  Transaction.sipId old = Transaction.sipId txn ->
  InMemoryTransactionRepository.update txn r
  = ({| InMemoryTransactionRepository.storage :=
          <[Transaction.id txn := txn]> (InMemoryTransactionRepository.storage r);
        InMemoryTransactionRepository.sipIndex := InMemoryTransactionRepository.sipIndex r |},
     true).
Proof.
  intros Hold Hsip. unfold InMemoryTransactionRepository.update.
  rewrite Hold. by rewrite bool_decide_eq_true_2.
Qed.
End RepositoryFacts.

(** ** The lifecycle state machine *)

Module LifecycleFacts.
Import InMemorySIPRepository SIPServiceImpl RepositoryFacts.

(** Running an operation of the service: did it return, and what is stored
    under an id afterwards. *)
Definition succeeds {A} (run : t * Outcome A) : Prop := returned run.2 = true.

Definition stored_after {A} (run : t * Outcome A) (sipId : string) : option SIP.t :=
  storage run.1 !! sipId.

Lemma stored_update sipId sip sip' r :
  storage r !! sipId = Some sip -> SIP.id sip' = sipId ->
  storage (update sip' r).1 !! sipId = Some sip'.
Proof.
  intros Hget Hid. rewrite sip_update_storage, Hid, Hget. apply lookup_insert_eq.
Qed.

Ltac run_service Hget :=
  unfold succeeds, stored_after, pauseSIP, unpauseSIP, stopSIP, modifyStepUp,
    bind, validateSIPExists, repository_update, throw, ret, getById in *;
  rewrite Hget.

(** C5: for a SIP stored under its id, pause returns exactly from ACTIVE,
    unpause exactly from PAUSED, stop exactly from ACTIVE or PAUSED, and
    modifyStepUp with a percentage that is at least zero exactly from a
    state other than STOPPED; a legal call stores the SIP with the new state
    (or percentage) and nothing else changed, and an illegal call throws
    InvalidState with the SIP id, the printed current state and the name of
    the operation and leaves the repository as it was. *)
Theorem lifecycle_transitions (r : t) (sipId : string) (sip : SIP.t) (pct : float) :
  getById sipId r = Some sip ->
  SIP.id sip = sipId ->
  (0 <=? pct)%float = true ->
  (succeeds (pauseSIP sipId r) <-> SIP.state sip = ACTIVE) /\
  (succeeds (unpauseSIP sipId r) <-> SIP.state sip = PAUSED) /\
  (succeeds (stopSIP sipId r) <-> SIP.state sip = ACTIVE \/ SIP.state sip = PAUSED) /\
  (succeeds (modifyStepUp sipId pct r) <-> SIP.state sip <> STOPPED) /\
  (SIP.state sip = ACTIVE ->
   stored_after (pauseSIP sipId r) sipId = Some (SIP.setState PAUSED sip)) /\
  (SIP.state sip = PAUSED ->
   stored_after (unpauseSIP sipId r) sipId = Some (SIP.setState ACTIVE sip)) /\
  (SIP.state sip <> STOPPED ->
   stored_after (stopSIP sipId r) sipId = Some (SIP.setState STOPPED sip)) /\
  (SIP.state sip <> STOPPED ->
   stored_after (modifyStepUp sipId pct r) sipId = Some (SIP.setStepUpPercentage pct sip)) /\
  (SIP.state sip <> ACTIVE ->
   pauseSIP sipId r
   = (r, Thrown (InvalidStateException sipId (toString_SIPState (SIP.state sip)) "pause"))) /\
  (SIP.state sip <> PAUSED ->
   unpauseSIP sipId r
   = (r, Thrown (InvalidStateException sipId (toString_SIPState (SIP.state sip)) "unpause"))) /\
  (SIP.state sip = STOPPED ->
   stopSIP sipId r
   = (r, Thrown (InvalidStateException sipId (toString_SIPState (SIP.state sip)) "stop"))) /\
  (SIP.state sip = STOPPED ->
   modifyStepUp sipId pct r
   = (r, Thrown (InvalidStateException sipId (toString_SIPState (SIP.state sip))
                   "modify step-up"))).
Proof.
  intros Hget Hid Hpct.
  apply FloatFacts.leb_zero_not_ltb in Hpct.
  assert (Hupd : forall sip', SIP.id sip' = sipId ->
                 storage (update sip' r).1 !! sipId = Some sip')
    by (intros; eapply stored_update; eauto).
  pose proof (Hupd (SIP.setState PAUSED sip) Hid) as Hp.
  pose proof (Hupd (SIP.setState ACTIVE sip) Hid) as Ha.
  pose proof (Hupd (SIP.setState STOPPED sip) Hid) as Hs.
  pose proof (Hupd (SIP.setStepUpPercentage pct sip) Hid) as Hm.
  clear Hupd.
  run_service Hget. rewrite Hpct.
  destruct (SIP.state sip) eqn:E; simpl;
    repeat match goal with
           | |- context [update ?s r] => destruct (update s r) as [? ?]
           end;
    simpl in *; intuition congruence.
Qed.

Lemma lifecycle_transitions_witness :
  succeeds (pauseSIP "SIP_000001" Sample.sips1) /\
  stored_after (pauseSIP "SIP_000001" Sample.sips1) "SIP_000001"
  = Some (SIP.setState PAUSED Sample.sip1) /\
  unpauseSIP "SIP_000001" Sample.sips1
  = (Sample.sips1,
     Thrown (InvalidStateException "SIP_000001" "ACTIVE" "unpause")).
Proof.
  pose proof (lifecycle_transitions Sample.sips1 "SIP_000001" Sample.sip1 5%float
                eq_refl eq_refl eq_refl) as H.
  destruct H as (H1 & _ & _ & _ & H5 & _ & _ & _ & _ & H10 & _).
  split; [apply H1; reflexivity|].
  split; [apply H5; reflexivity|].
  apply H10. discriminate.
Defined.
End LifecycleFacts.

(** ** The payment callback reconciler *)

Module ReconcilerFacts.
Import SIPScheduler RepositoryFacts.

(** The SIP after a successful installment: one more installment counted,
    then the schedule advanced from the date it had. *)
Definition advanced `{CLibrary} (sip : SIP.t) : SIP.t :=
  SIP.setNextExecutionDate
    (SIPServiceImpl.calculateNextExecutionDate (SIP.nextExecutionDate sip) (SIP.frequency sip))
    (SIP.incrementInstallmentCount sip).

(** The transaction after its callback was applied. *)
Definition settled (status : PaymentStatus) (txn : Transaction.t) : Transaction.t :=
  Transaction.setCallbackProcessed true (Transaction.setStatus status txn).

(** The ledger with the transaction under [transactionId] settled. *)
Definition settle (transactionId : string) (status : PaymentStatus) (txn : Transaction.t)
    (r : InMemoryTransactionRepository.t) : InMemoryTransactionRepository.t :=
  {| InMemoryTransactionRepository.storage :=
       <[transactionId := settled status txn]> (InMemoryTransactionRepository.storage r);
     InMemoryTransactionRepository.sipIndex := InMemoryTransactionRepository.sipIndex r |}.

(** What the lifecycle machine does on the success path. *)
Definition lifecycle_on_success `{CLibrary} (sipId : string) : Eff World unit :=
  bind (onSipService (SIPServiceImpl.onPaymentSuccess sipId))
    (fun _ => onSipService (SIPServiceImpl.updateNextExecutionDate sipId)).

Lemma setSipRepository_same w : setSipRepository (sipRepository w) w = w.
Proof. by destruct w. Qed.

Lemma setTransactionRepository_same w :
  setTransactionRepository (transactionRepository w) w = w.
Proof. by destruct w. Qed.

(** The lifecycle machine never touches the ledger. *)
Lemma lifecycle_on_success_ledger `{CLibrary} sipId w :
  transactionRepository (lifecycle_on_success sipId w).1 = transactionRepository w.
Proof.
  unfold lifecycle_on_success, bind, onSipService, zoom.
  destruct (SIPServiceImpl.onPaymentSuccess sipId (sipRepository w)) as [r1 [[]|e]]; simpl;
    [|reflexivity].
  by destruct (SIPServiceImpl.updateNextExecutionDate sipId r1) as [r2 o].
Qed.

(** On a stored SIP the success path returns and stores the advanced SIP. *)
Lemma lifecycle_on_success_present `{CLibrary} sipId sip w :
  sip_keys_wf (sipRepository w) ->
  InMemorySIPRepository.storage (sipRepository w) !! sipId = Some sip ->
  (lifecycle_on_success sipId w).2 = Returned tt /\
  InMemorySIPRepository.storage (sipRepository (lifecycle_on_success sipId w).1) !! sipId
  = Some (advanced sip).
Proof.
  intros Hwf Hget. pose proof (Hwf _ _ Hget) as Hid.
  unfold lifecycle_on_success, bind, onSipService, zoom,
    SIPServiceImpl.onPaymentSuccess, SIPServiceImpl.updateNextExecutionDate, bind,
    SIPServiceImpl.validateSIPExists, SIPServiceImpl.repository_update, ret,
    InMemorySIPRepository.getById.
  rewrite Hget.
  assert (H1 : InMemorySIPRepository.storage
                 (InMemorySIPRepository.update (SIP.incrementInstallmentCount sip)
                    (sipRepository w)).1 !! sipId
               = Some (SIP.incrementInstallmentCount sip)).
  { rewrite sip_update_storage. simpl. rewrite Hid, Hget. apply lookup_insert_eq. }
  destruct (InMemorySIPRepository.update (SIP.incrementInstallmentCount sip) (sipRepository w))
    as [r1 b1]. simpl in *. rewrite H1.
  assert (H2 : InMemorySIPRepository.storage
                 (InMemorySIPRepository.update (advanced sip) r1).1 !! sipId
               = Some (advanced sip)).
  { rewrite sip_update_storage. simpl. rewrite Hid, H1. apply lookup_insert_eq. }
  unfold advanced in H2. simpl in H2.
  destruct (InMemorySIPRepository.update _ r1) as [r2 b2]. simpl in *.
  split; [reflexivity | exact H2].
Qed.

(** On a missing SIP the success path throws at once and changes nothing. *)
Lemma lifecycle_on_success_absent `{CLibrary} sipId w :
  InMemorySIPRepository.storage (sipRepository w) !! sipId = None ->
  lifecycle_on_success sipId w = (w, Thrown (SIPNotFoundException sipId)).
Proof.
  intros Hget.
  unfold lifecycle_on_success, bind, onSipService, zoom,
    SIPServiceImpl.onPaymentSuccess, bind, SIPServiceImpl.validateSIPExists,
    InMemorySIPRepository.getById.
  rewrite Hget. simpl. by rewrite setSipRepository_same.
Qed.

(** The reconciler on a transaction it has not settled yet. *)
Lemma handlePaymentCallback_first `{CLibrary} w transactionId sipId status txn :
  txn_keys_wf (transactionRepository w) ->
  InMemoryTransactionRepository.getById transactionId (transactionRepository w) = Some txn ->
  Transaction.callbackProcessed txn = false ->
  handlePaymentCallback transactionId sipId status w =
    let w' :=
      setTransactionRepository (settle transactionId status txn (transactionRepository w)) w in
    if bool_decide (status = SUCCESS) then lifecycle_on_success sipId w'
    else (w', Returned tt).
Proof.
  intros Hwf Hget Hflag. pose proof (Hwf _ _ Hget) as Hid.
  unfold handlePaymentCallback. rewrite Hget, Hflag.
  rewrite (txn_update_same_sip _ txn) by (simpl; rewrite ?Hid; done).
  simpl. rewrite Hid. reflexivity.
Qed.

(** The reconciler on a settled transaction, and on an unknown one. *)
Lemma handlePaymentCallback_settled `{CLibrary} w transactionId sipId status txn :
  InMemoryTransactionRepository.getById transactionId (transactionRepository w) = Some txn ->
  Transaction.callbackProcessed txn = true ->
  handlePaymentCallback transactionId sipId status w = (w, Returned tt).
Proof. intros Hget Hflag. unfold handlePaymentCallback. by rewrite Hget, Hflag. Qed.

Lemma handlePaymentCallback_unknown `{CLibrary} w transactionId sipId status :
  InMemoryTransactionRepository.getById transactionId (transactionRepository w) = None ->
  handlePaymentCallback transactionId sipId status w = (w, Returned tt).
Proof. intros Hget. unfold handlePaymentCallback. by rewrite Hget. Qed.

(** After one delivery for a known transaction the ledger holds it settled
    with the delivered status. *)
Lemma handlePaymentCallback_settles `{CLibrary} w transactionId sipId status txn :
  txn_keys_wf (transactionRepository w) ->
  InMemoryTransactionRepository.getById transactionId (transactionRepository w) = Some txn ->
  Transaction.callbackProcessed txn = false ->
  InMemoryTransactionRepository.getById transactionId
    (transactionRepository (handlePaymentCallback transactionId sipId status w).1)
  = Some (settled status txn).
Proof.
  intros Hwf Hget Hflag.
  rewrite (handlePaymentCallback_first _ _ _ _ txn) by assumption. cbv zeta.
  destruct (bool_decide (status = SUCCESS)).
  - rewrite lifecycle_on_success_ledger. simpl.
    unfold InMemoryTransactionRepository.getById. simpl. apply lookup_insert_eq.
  - simpl. unfold InMemoryTransactionRepository.getById. simpl. apply lookup_insert_eq.
Qed.

(** A second delivery, whatever status it carries, changes nothing. *)
Lemma handlePaymentCallback_again `{CLibrary} w transactionId sipId sipId' status status' :
  txn_keys_wf (transactionRepository w) ->
  let once := (handlePaymentCallback transactionId sipId status w).1 in
  handlePaymentCallback transactionId sipId' status' once = (once, Returned tt).
Proof.
  intros Hwf once.
  destruct (InMemoryTransactionRepository.getById transactionId (transactionRepository w))
    as [txn|] eqn:Hget.
  - destruct (Transaction.callbackProcessed txn) eqn:Hflag.
    + subst once. rewrite (handlePaymentCallback_settled w _ sipId status txn) by assumption.
      simpl. by apply (handlePaymentCallback_settled w _ _ _ txn).
    + apply (handlePaymentCallback_settled once _ _ _ (settled status txn)); [|reflexivity].
      by apply handlePaymentCallback_settles.
  - subst once. rewrite (handlePaymentCallback_unknown w) by assumption.
    simpl. by apply handlePaymentCallback_unknown.
Qed.
End ReconcilerFacts.

(** ** Claims about the reconciler *)

Module ReconcilerClaims.
Import SIPScheduler RepositoryFacts ReconcilerFacts.

Lemma sample_ledger_wf : txn_keys_wf (transactionRepository Sample.world_pending).
Proof. apply txn_add_wf, txn_add_wf, txn_empty_wf. Qed.

Lemma sample_sips_wf : sip_keys_wf (sipRepository Sample.world_pending).
Proof. apply sip_add_wf, sip_empty_wf. Qed.

(** C1: a callback for a transaction whose "callback applied" flag is set
    changes nothing; hence delivering one outcome twice leaves the world
    (ledger and SIP repository included) exactly as delivering it once, and
    on SUCCESS for a transaction not yet settled the installment count of
    the stored SIP has grown by exactly one after both deliveries. *)
Theorem callback_idempotent `{CLibrary} (w : World) (transactionId sipId : string)
    (status : PaymentStatus) :
  txn_keys_wf (transactionRepository w) ->
  sip_keys_wf (sipRepository w) ->
  let once := (handlePaymentCallback transactionId sipId status w).1 in
  let twice := (handlePaymentCallback transactionId sipId status once).1 in
  (forall txn,
     InMemoryTransactionRepository.getById transactionId (transactionRepository w) = Some txn ->
     Transaction.callbackProcessed txn = true ->
     handlePaymentCallback transactionId sipId status w = (w, Returned tt)) /\
  handlePaymentCallback transactionId sipId status once = (once, Returned tt) /\
  twice = once /\
  (forall txn sip,
     InMemoryTransactionRepository.getById transactionId (transactionRepository w) = Some txn ->
     Transaction.callbackProcessed txn = false ->
     InMemorySIPRepository.storage (sipRepository w) !! sipId = Some sip ->
     status = SUCCESS ->
     exists sip',
       InMemorySIPRepository.storage (sipRepository twice) !! sipId = Some sip' /\
       SIP.installmentCount sip' = SIP.installmentCount sip + 1).
Proof.
  intros Hwf Hsip once twice.
  pose proof (handlePaymentCallback_again w transactionId sipId sipId status status Hwf)
    as Hagain.
  cbv zeta in Hagain. fold once in Hagain.
  assert (Htwice : twice = once) by (subst twice; by rewrite Hagain).
  repeat split; try assumption.
  - intros txn Hget Hflag. by apply (handlePaymentCallback_settled w _ _ _ txn).
  - intros txn sip Hget Hflag Hstored ->. rewrite Htwice. subst once.
    rewrite (handlePaymentCallback_first _ _ _ _ txn) by assumption.
    cbv zeta. rewrite bool_decide_eq_true_2 by reflexivity.
    set (w' := setTransactionRepository _ w).
    destruct (lifecycle_on_success_present sipId sip w') as [_ Hadv]; [done | done |].
    exists (advanced sip). split; [exact Hadv | reflexivity].
Qed.

Section OnSamples.
Existing Instance Sample.utc.

Lemma callback_idempotent_witness :
  let once := (handlePaymentCallback "TXN_000001" "SIP_000001" SUCCESS Sample.world_pending).1 in
  handlePaymentCallback "TXN_000001" "SIP_000001" SUCCESS once = (once, Returned tt) /\
  exists sip',
    InMemorySIPRepository.storage (sipRepository once) !! "SIP_000001" = Some sip' /\
    SIP.installmentCount sip' = 1.
Proof.
  destruct (callback_idempotent Sample.world_pending "TXN_000001" "SIP_000001" SUCCESS
              sample_ledger_wf sample_sips_wf) as (_ & Hsame & Htwice & Hcount).
  split; [exact Hsame|].
  destruct (Hcount Sample.pending_txn Sample.sip1 eq_refl eq_refl eq_refl eq_refl)
    as (sip' & Hget & Hn).
  exists sip'. rewrite Htwice in Hget. split; [exact Hget | exact Hn].
Defined.
End OnSamples.

(** C3: a FAILURE callback for a transaction not yet settled returns, sets
    that transaction's status and flag and nothing else in the ledger, and
    leaves the SIP repository and every other component untouched; a due SIP
    is therefore still due, with the same installment count, next execution
    date and installment amount. *)
Theorem failure_callback_frame `{MathLib} `{CLibrary} (w : World) (transactionId sipId : string)
    (txn : Transaction.t) :
  txn_keys_wf (transactionRepository w) ->
  InMemoryTransactionRepository.getById transactionId (transactionRepository w) = Some txn ->
  Transaction.callbackProcessed txn = false ->
  let run := handlePaymentCallback transactionId sipId FAILURE w in
  run.2 = Returned tt /\
  run.1 = setTransactionRepository
            (settle transactionId FAILURE txn (transactionRepository w)) w /\
  settled FAILURE txn
  = {| Transaction.id := Transaction.id txn; Transaction.sipId := Transaction.sipId txn;
       Transaction.amount := Transaction.amount txn; Transaction.units := Transaction.units txn;
       Transaction.nav := Transaction.nav txn; Transaction.status := FAILURE;
       Transaction.date := Transaction.date txn; Transaction.type := Transaction.type txn;
       Transaction.callbackProcessed := true |} /\
  (forall other, other <> transactionId ->
     InMemoryTransactionRepository.getById other (transactionRepository run.1)
     = InMemoryTransactionRepository.getById other (transactionRepository w)) /\
  sipRepository run.1 = sipRepository w /\
  (forall asOfDate,
     InMemorySIPRepository.getDueSIPs asOfDate (sipRepository run.1)
     = InMemorySIPRepository.getDueSIPs asOfDate (sipRepository w)) /\
  (forall sip asOfDate,
     InMemorySIPRepository.getById sipId (sipRepository w) = Some sip ->
     isDue sip asOfDate = true ->
     exists sip',
       InMemorySIPRepository.getById sipId (sipRepository run.1) = Some sip' /\
       isDue sip' asOfDate = true /\
       SIP.installmentCount sip' = SIP.installmentCount sip /\
       SIP.nextExecutionDate sip' = SIP.nextExecutionDate sip /\
       calculateSteppedUpAmount (SIP.baseAmount sip') (SIP.stepUpPercentage sip')
         (SIP.installmentCount sip' + 1)
       = calculateSteppedUpAmount (SIP.baseAmount sip) (SIP.stepUpPercentage sip)
           (SIP.installmentCount sip + 1)).
Proof.
  intros Hwf Hget Hflag run. subst run.
  rewrite (handlePaymentCallback_first _ _ _ _ txn) by assumption.
  cbv zeta. rewrite bool_decide_eq_false_2 by discriminate. simpl.
  repeat split.
  - intros other Hne. unfold InMemoryTransactionRepository.getById. simpl.
    by rewrite lookup_insert_ne.
  - intros sip asOfDate Hsip Hdue. exists sip. repeat split; assumption.
Qed.

Section OnSamples.
Existing Instance Sample.utc.

Lemma failure_callback_frame_witness :
  (handlePaymentCallback "TXN_000001" "SIP_000001" FAILURE Sample.world_pending).2 = Returned tt /\
  sipRepository (handlePaymentCallback "TXN_000001" "SIP_000001" FAILURE Sample.world_pending).1
  = Sample.sips1.
Proof.
  destruct (@failure_callback_frame Sample.math Sample.utc Sample.world_pending
              "TXN_000001" "SIP_000001"
              Sample.pending_txn sample_ledger_wf eq_refl eq_refl)
    as (Hret & _ & _ & _ & Hsips & _).
  split; [exact Hret | exact Hsips].
Defined.
End OnSamples.

(** C9: once a transaction is settled, every later callback for it is a
    no-op whatever status (and SIP id) it carries; in particular after a
    first FAILURE a later SUCCESS leaves the transaction FAILURE and the SIP
    repository as it was before the first delivery: the first delivery wins. *)
Theorem first_delivery_wins `{CLibrary} (w : World) (transactionId sipId : string)
    (txn : Transaction.t) (first : PaymentStatus) :
  txn_keys_wf (transactionRepository w) ->
  InMemoryTransactionRepository.getById transactionId (transactionRepository w) = Some txn ->
  Transaction.callbackProcessed txn = false ->
  let once := (handlePaymentCallback transactionId sipId first w).1 in
  (forall later sipId',
     handlePaymentCallback transactionId sipId' later once = (once, Returned tt)) /\
  (first = FAILURE ->
   let after := (handlePaymentCallback transactionId sipId SUCCESS once).1 in
   (exists txn',
      InMemoryTransactionRepository.getById transactionId (transactionRepository after)
      = Some txn' /\
      Transaction.status txn' = FAILURE /\ Transaction.callbackProcessed txn' = true) /\
   sipRepository after = sipRepository w).
Proof.
  intros Hwf Hget Hflag once.
  assert (Hnoop : forall later sipId',
             handlePaymentCallback transactionId sipId' later once = (once, Returned tt)).
  { intros later sipId'. apply (handlePaymentCallback_again w); assumption. }
  split; [exact Hnoop|].
  intros -> after. subst after. rewrite Hnoop. simpl.
  split.
  - exists (settled FAILURE txn). split; [|split; reflexivity].
    subst once. by apply handlePaymentCallback_settles.
  - subst once. rewrite (handlePaymentCallback_first _ _ _ _ txn) by assumption.
    cbv zeta. by rewrite bool_decide_eq_false_2 by discriminate.
Qed.

Section OnSamples.
Existing Instance Sample.utc.

Lemma first_delivery_wins_witness :
  let once := (handlePaymentCallback "TXN_000001" "SIP_000001" FAILURE Sample.world_pending).1 in
  handlePaymentCallback "TXN_000001" "SIP_000001" SUCCESS once = (once, Returned tt).
Proof.
  destruct (first_delivery_wins Sample.world_pending "TXN_000001" "SIP_000001"
              Sample.pending_txn FAILURE sample_ledger_wf eq_refl eq_refl) as [Hnoop _].
  apply Hnoop.
Defined.
End OnSamples.

(** C10: a SUCCESS callback for a transaction not yet settled, with a SIP id
    the SIP repository does not hold (the transaction's owning SIP in
    particular), stores the transaction as SUCCESS with the flag set and then
    throws SIPNotFound; the stored transaction stays, and the SIP repository
    is untouched: no installment count grows and no schedule advances. *)
Theorem success_for_missing_sip `{CLibrary} (w : World) (transactionId sipId : string)
    (txn : Transaction.t) :
  txn_keys_wf (transactionRepository w) ->
  InMemoryTransactionRepository.getById transactionId (transactionRepository w) = Some txn ->
  Transaction.callbackProcessed txn = false ->
  InMemorySIPRepository.getById sipId (sipRepository w) = None ->
  let run := handlePaymentCallback transactionId sipId SUCCESS w in
  run = (setTransactionRepository
           (settle transactionId SUCCESS txn (transactionRepository w)) w,
         Thrown (SIPNotFoundException sipId)) /\
  (exists txn',
     InMemoryTransactionRepository.getById transactionId (transactionRepository run.1)
     = Some txn' /\
     Transaction.status txn' = SUCCESS /\ Transaction.callbackProcessed txn' = true /\
     Transaction.amount txn' = Transaction.amount txn /\
     Transaction.sipId txn' = Transaction.sipId txn) /\
  sipRepository run.1 = sipRepository w.
Proof.
  intros Hwf Hget Hflag Hsip run. subst run.
  rewrite (handlePaymentCallback_first _ _ _ _ txn) by assumption.
  cbv zeta. rewrite bool_decide_eq_true_2 by reflexivity.
  rewrite lifecycle_on_success_absent by exact Hsip.
  split; [reflexivity|]. split; [|reflexivity].
  exists (settled SUCCESS txn). simpl.
  unfold InMemoryTransactionRepository.getById. simpl.
  rewrite lookup_insert_eq. repeat split.
Qed.

Section OnSamples.
Existing Instance Sample.utc.

Lemma success_for_missing_sip_witness :
  (handlePaymentCallback "TXN_000002" "SIP_000404" SUCCESS Sample.world_pending).2
  = Thrown (SIPNotFoundException "SIP_000404") /\
  sipRepository (handlePaymentCallback "TXN_000002" "SIP_000404" SUCCESS Sample.world_pending).1
  = Sample.sips1.
Proof.
  destruct (success_for_missing_sip Sample.world_pending "TXN_000002" "SIP_000404"
              Sample.orphan_txn sample_ledger_wf eq_refl eq_refl eq_refl)
    as (Hrun & _ & Hsips).
  split; [by rewrite Hrun | exact Hsips].
Defined.
End OnSamples.
End ReconcilerClaims.

(** ** The step-up compounding formula *)

Module CompoundingFacts.

(** The amount the design document gives for installment [n] when the
    percentage is positive and [n] is past the first:
    [baseAmount * (1 + stepUpPercentage/100)^(n-1)]. *)
Definition compounded `{MathLib} (baseAmount stepUpPercentage : float) (n : Z) : float :=
  (baseAmount * pow (1 + stepUpPercentage / 100) (double_of_int (n - 1)))%float.

(** The valuation engine never throws, reads the SIP it is given, and
    projects the installment amounts with its own copy of the formula. *)
Lemma buildPortfolioItem_projection `{MathLib} `{RandomDevice} (sip : SIP.t) (w : World) :
  exists item,
    (PortfolioServiceImpl.buildPortfolioItem sip w).2 = Returned item /\
    currentInstallmentAmount item
    = PortfolioServiceImpl.calculateSteppedUpAmount (SIP.baseAmount sip)
        (SIP.stepUpPercentage sip) (SIP.installmentCount sip + 1) /\
    nextInstallmentAmount item
    = PortfolioServiceImpl.calculateSteppedUpAmount (SIP.baseAmount sip)
        (SIP.stepUpPercentage sip) (SIP.installmentCount sip + 1 + 1).
Proof.
  unfold PortfolioServiceImpl.buildPortfolioItem, bind, get, try_catch, ret.
  destruct (onMarketPriceService _ w) as [w1 [nav|e]]; eexists; repeat split.
Qed.

(** C2: the installment amount is [baseAmount] when the percentage is not
    above zero or the installment number is at most one, and the compounded
    amount otherwise; the copies of the formula in the scheduler, the SIP
    service and the portfolio service are one and the same function, so the
    amount the valuation engine projects for the next installment is the
    amount the scheduler charges for it. *)
Theorem stepped_up_amount `{MathLib} `{RandomDevice} (baseAmount stepUpPercentage : float)
    (n : Z) :
  SIPScheduler.calculateSteppedUpAmount baseAmount stepUpPercentage n
  = (if (stepUpPercentage <=? 0)%float || (n <=? 1) then baseAmount
     else compounded baseAmount stepUpPercentage n) /\
  ((stepUpPercentage <=? 0)%float = true \/ n <= 1 ->
   SIPScheduler.calculateSteppedUpAmount baseAmount stepUpPercentage n = baseAmount) /\
  ((stepUpPercentage <=? 0)%float = false /\ 1 < n ->
   SIPScheduler.calculateSteppedUpAmount baseAmount stepUpPercentage n
   = compounded baseAmount stepUpPercentage n) /\
  SIPServiceImpl.calculateSteppedUpAmount = SIPScheduler.calculateSteppedUpAmount /\
  PortfolioServiceImpl.calculateSteppedUpAmount = SIPScheduler.calculateSteppedUpAmount /\
  (forall sip w,
     exists item,
       (PortfolioServiceImpl.buildPortfolioItem sip w).2 = Returned item /\
       currentInstallmentAmount item
       = SIPScheduler.calculateSteppedUpAmount (SIP.baseAmount sip)
           (SIP.stepUpPercentage sip) (SIP.installmentCount sip + 1)).
Proof.
  unfold SIPScheduler.calculateSteppedUpAmount, compounded.
  split; [reflexivity|].
  split.
  { intros [Hp | Hn]; [by rewrite Hp|].
    apply Z.leb_le in Hn. rewrite Hn. by rewrite orb_true_r. }
  split.
  { intros [Hp Hn]. rewrite Hp. apply Z.leb_gt in Hn. by rewrite Hn. }
  split; [reflexivity|]. split; [reflexivity|].
  intros sip w.
  destruct (buildPortfolioItem_projection sip w) as (item & Hrun & Hcur & _).
  exists item. split; [exact Hrun | exact Hcur].
Qed.

(** The worked example of the design document, on the sample [pow]:
    1000 at 10 percent gives 1000, 1100 and 1210 up to rounding. *)
Example stepped_up_amount_example :
  @SIPScheduler.calculateSteppedUpAmount Sample.math 1000 10 1 = 1000%float /\
  @SIPScheduler.calculateSteppedUpAmount Sample.math 1000 10 2 = 1100%float /\
  @SIPScheduler.calculateSteppedUpAmount Sample.math 1000 10 3 = 0x1.2e80000000001p+10%float.
Proof. repeat split; vm_compute; reflexivity. Qed.
End CompoundingFacts.

(** ** Advancing the schedule *)

Module ScheduleFacts.
Import Chrono CLib DateUtils CalendarFacts RepositoryFacts.
Import InMemorySIPRepository SIPServiceImpl.

(** The days within which the advance of a frequency stays: seven for a
    week, and 31 for every month, with one more day for the seconds the
    conversion rounds. *)
Definition horizon (frequency : SIPFrequency) : Z :=
  match frequency with
  | WEEKLY => 7
  | MONTHLY => 32
  | QUARTERLY => 94
  end.

(** In a zone with a fixed offset, and while the tick count does not reach
    the end of its range, the next date is later and is the calendar
    formula. *)
Lemma calculateNextExecutionDate_formula `{CLibrary} (offset : Z) (prior : Date)
    (frequency : SIPFrequency) :
  fixed_offset offset ->
  days_before_end (horizon frequency) prior ->
  let next := calculateNextExecutionDate prior frequency in
  prior < next /\
  match frequency with
  | WEEKLY => next = prior + 7 * 86400 * ticks_per_second
  | MONTHLY =>
      calendar (civil next) = calendar (calendar_add_months 1 (civil prior)) /\
      next mod ticks_per_second = 0
  | QUARTERLY =>
      calendar (civil next) = calendar (calendar_add_months 3 (civil prior)) /\
      next mod ticks_per_second = 0
  end.
Proof.
  intros Hzone Hend next. subst next.
  destruct frequency; unfold calculateNextExecutionDate, horizon in *.
  - split; [by apply addWeeks_later | by apply addWeeks_one].
  - split; [|split].
    + apply (addMonths_later offset Hzone); [lia | exact Hend].
    + apply (addMonths_calendar offset Hzone); [lia | exact Hend].
    + apply (addMonths_whole_seconds offset Hzone); [lia | exact Hend].
  - rewrite addQuarters_one. split; [|split].
    + apply (addMonths_later offset Hzone); [lia | exact Hend].
    + apply (addMonths_calendar offset Hzone); [lia | exact Hend].
    + apply (addMonths_whole_seconds offset Hzone); [lia | exact Hend].
Qed.

(** C4, as amended: in a time zone that keeps one offset from UTC all year,
    and for a SIP whose next execution date lies at least [horizon] days (7
    for WEEKLY, 32 for MONTHLY, 94 for QUARTERLY) before the end of the range
    of the 64-bit nanosecond clock, [updateNextExecutionDate] on a stored SIP
    returns and stores the SIP with its next execution date replaced and
    every other field as it was, changing no other stored SIP; the new date
    is computed from the prior next execution date and the frequency alone,
    is strictly later, and is the prior date plus seven days for WEEKLY, and
    for MONTHLY (one month) and QUARTERLY (three months) the whole second
    whose civil reading is the calendar formula applied to the civil reading
    of the prior date: same time of day, month moved with years carried, day
    clamped to the last day of the target month with February following the
    leap years. *)
Theorem schedule_advance `{CLibrary} (offset : Z) (r : t) (sipId : string) (sip : SIP.t) :
  fixed_offset offset ->
  days_before_end (horizon (SIP.frequency sip)) (SIP.nextExecutionDate sip) ->
  getById sipId r = Some sip ->
  SIP.id sip = sipId ->
  let run := updateNextExecutionDate sipId r in
  let prior := SIP.nextExecutionDate sip in
  let next := calculateNextExecutionDate prior (SIP.frequency sip) in
  run.2 = Returned tt /\
  storage run.1
  = <[sipId := {| SIP.id := SIP.id sip; SIP.userId := SIP.userId sip;
                  SIP.fundId := SIP.fundId sip; SIP.baseAmount := SIP.baseAmount sip;
                  SIP.frequency := SIP.frequency sip; SIP.state := SIP.state sip;
                  SIP.startDate := SIP.startDate sip; SIP.nextExecutionDate := next;
                  SIP.installmentCount := SIP.installmentCount sip;
                  SIP.stepUpPercentage := SIP.stepUpPercentage sip |}]> (storage r) /\
  prior < next /\
  match SIP.frequency sip with
  | WEEKLY => next = prior + 7 * 86400 * ticks_per_second
  | MONTHLY =>
      calendar (civil next) = calendar (calendar_add_months 1 (civil prior)) /\
      next mod ticks_per_second = 0
  | QUARTERLY =>
      calendar (civil next) = calendar (calendar_add_months 3 (civil prior)) /\
      next mod ticks_per_second = 0
  end.
Proof.
  intros Hzone Hend Hget Hid run prior next.
  assert (Hstored : storage (update (SIP.setNextExecutionDate next sip) r).1
                    = <[sipId := SIP.setNextExecutionDate next sip]> (storage r)).
  { rewrite sip_update_storage. simpl. unfold getById in Hget.
    by rewrite Hid, Hget. }
  subst run. unfold updateNextExecutionDate, bind, validateSIPExists, repository_update, ret.
  rewrite Hget. fold prior. fold next.
  destruct (update (SIP.setNextExecutionDate next sip) r) as [r' found]. simpl in *.
  split; [reflexivity|]. split; [exact Hstored|].
  apply (calculateNextExecutionDate_formula offset prior (SIP.frequency sip) Hzone Hend).
Qed.

Section OnSamples.
Existing Instance Sample.utc.

(** From 31 January 2024 the monthly SIP moves to 29 February 2024. *)
Lemma schedule_advance_witness :
  storage (updateNextExecutionDate "SIP_000001" Sample.sips1).1 !! "SIP_000001"
  = Some {| SIP.id := "SIP_000001"; SIP.userId := "USER_000001";
            SIP.fundId := "FUND_000001"; SIP.baseAmount := 1000;
            SIP.frequency := MONTHLY; SIP.state := ACTIVE;
            SIP.startDate := createDate 2024 1 31;
            SIP.nextExecutionDate := createDate 2024 2 29;
            SIP.installmentCount := 0; SIP.stepUpPercentage := 10 |} /\
  createDate 2024 1 31 < createDate 2024 2 29.
Proof.
  assert (Hend : days_before_end (horizon (SIP.frequency Sample.sip1))
                   (SIP.nextExecutionDate Sample.sip1)).
  { split; [split|]; vm_compute; congruence. }
  destruct (@schedule_advance Sample.utc 0 Sample.sips1 "SIP_000001" Sample.sip1
              (fixed_zone_fixed_offset 0) Hend eq_refl eq_refl)
    as (_ & Hstored & Hlater & _).
  split; [|exact Hlater].
  cbv zeta in Hstored. rewrite Hstored, lookup_insert_eq. vm_compute. reflexivity.
Defined.

(** The claim as stated fails where the tick count overflows: the monthly
    SIP dated 15 March 2262 moves to 15 April 2262, four days past the end
    of the range of the clock, and the date stored is earlier than the prior
    one (it reads 24 September 1677). *)
Lemma schedule_advance_overflow :
  let sip :=
    SIP.make "SIP_000001" "USER_000001" "FUND_000001" 1000 MONTHLY
      (createDate 2262 3 15) 0 in
  let run := updateNextExecutionDate "SIP_000001" (add sip empty) in
  representable (SIP.nextExecutionDate sip) /\
  run.2 = Returned tt /\
  exists sip',
    getById "SIP_000001" run.1 = Some sip' /\
    SIP.nextExecutionDate sip' < SIP.nextExecutionDate sip /\
    DateUtilsRest.formatDate (SIP.nextExecutionDate sip') = "1677-09-24".
Proof.
  cbv zeta. split; [split; vm_compute; congruence|].
  split; [vm_compute; reflexivity|].
  eexists. split; [vm_compute; reflexivity|].
  split; vm_compute; reflexivity.
Qed.

(** It fails as well where the zone has daylight saving time: [addMonths]
    hands the structure to [mktime] with the [tm_isdst] that [localtime] set
    for the prior date.  A monthly SIP dated 15 October 2024, half past
    midnight summer time, moves to 14 November, half past eleven in the
    evening: the day of the month is not kept. *)
Example schedule_advance_daylight_saving :
  let prior :=
    plus (@createDate daylight_saving_zone 2024 10 15) (- 1800 * ticks_per_second) in
  let next := @calculateNextExecutionDate daylight_saving_zone prior MONTHLY in
  @DateUtilsRest.formatDate daylight_saving_zone prior = "2024-10-15" /\
  tm_hour (@localtime daylight_saving_zone (to_time_t prior)) = 0 /\
  tm_min (@localtime daylight_saving_zone (to_time_t prior)) = 30 /\
  @DateUtilsRest.formatDate daylight_saving_zone next = "2024-11-14" /\
  tm_hour (@localtime daylight_saving_zone (to_time_t next)) = 23 /\
  tm_min (@localtime daylight_saving_zone (to_time_t next)) = 30.
Proof. repeat split; vm_compute; reflexivity. Qed.

(** The clamping examples: a month end falls on the end of a shorter month,
    in leap and common years, and a quarter carries into the next year. *)
Example addMonths_examples :
  addMonths (createDate 2024 1 31) 1 = createDate 2024 2 29 /\
  addMonths (createDate 2023 1 31) 1 = createDate 2023 2 28 /\
  addMonths (createDate 2024 3 31) 1 = createDate 2024 4 30 /\
  addQuarters (createDate 2023 11 30) 1 = createDate 2024 2 29 /\
  addQuarters (createDate 2024 12 15) 1 = createDate 2025 3 15 /\
  addWeeks (createDate 2024 2 26) 1 = createDate 2024 3 4.
Proof. repeat split; vm_compute; reflexivity. Qed.

(** Past the range of the clock the dates wrap around: the first day of
    2300 reads as a day of 1715, 15000 weeks and 3600 months after January
    2024 as days of 1726 and 1739; and the [int] product [24 * 7 * weeks]
    wraps for 12782641 weeks, which move the date back. *)
Example date_arithmetic_wraps :
  DateUtilsRest.formatDate (createDate 2300 1 1) = "1715-06-13" /\
  DateUtilsRest.formatDate (addWeeks (createDate 2024 1 1) 15000) = "1726-12-05" /\
  DateUtilsRest.formatDate (addMonths (createDate 2024 1 31) 3600) = "1739-07-12" /\
  DateUtilsRest.formatDate (addWeeks (createDate 2024 1 1) 12782641) = "1968-05-18".
Proof. repeat split; vm_compute; reflexivity. Qed.
End OnSamples.
End ScheduleFacts.

(** ** The execution engine *)

Module SchedulerFacts.
Import SIPScheduler RepositoryFacts ReconcilerFacts.

(** What every part of one pass of the engine keeps: the prices on record,
    the error log, the identifier counter up to the ids drawn, the key
    discipline of both repositories, and the set of stored SIP ids. *)
Record kept (drawn : Z) (w w' : World) : Prop := Build_kept {
  kept_navData :
    MockMarketPriceService.navData (marketPriceService w')
    = MockMarketPriceService.navData (marketPriceService w);
  kept_errorLog : errorLog w' = errorLog w;
  kept_idCounter :
    idCounter w' mod IdGenerator.uint64_modulus
    = (idCounter w + drawn) mod IdGenerator.uint64_modulus;
  kept_sip_wf : sip_keys_wf (sipRepository w) -> sip_keys_wf (sipRepository w');
  kept_txn_wf : txn_keys_wf (transactionRepository w) -> txn_keys_wf (transactionRepository w');
  kept_sip_ids : forall k,
    is_Some (InMemorySIPRepository.storage (sipRepository w') !! k)
    <-> is_Some (InMemorySIPRepository.storage (sipRepository w) !! k)
}.

Lemma kept_refl w : kept 0 w w.
Proof. split; try done. by rewrite Z.add_0_r. Qed.

Lemma kept_trans n m w1 w2 w3 : kept n w1 w2 -> kept m w2 w3 -> kept (n + m) w1 w3.
Proof.
  intros [] []. split; try (etrans; eassumption); auto.
  - rewrite kept_idCounter1, <- Zplus_mod_idemp_l, kept_idCounter0, Zplus_mod_idemp_l.
    f_equal. lia.
  - intros k. etrans; eauto.
Qed.

(** A change of the SIP repository by [update]s only. *)
Lemma kept_sip_update sip w :
  kept 0 w (setSipRepository (InMemorySIPRepository.update sip (sipRepository w)).1 w).
Proof.
  split; simpl; try done.
  - by rewrite Z.add_0_r.
  - apply sip_update_wf.
  - apply sip_update_dom.
Qed.

Lemma kept_onPaymentSuccess sipId w :
  kept 0 w (onSipService (SIPServiceImpl.onPaymentSuccess sipId) w).1.
Proof.
  unfold onSipService, zoom, SIPServiceImpl.onPaymentSuccess, bind,
    SIPServiceImpl.validateSIPExists, SIPServiceImpl.repository_update, ret.
  destruct (InMemorySIPRepository.getById sipId (sipRepository w)) as [sip|]; simpl.
  - pose proof (kept_sip_update (SIP.incrementInstallmentCount sip) w) as H.
    by destruct (InMemorySIPRepository.update _ (sipRepository w)).
  - rewrite setSipRepository_same. apply kept_refl.
Qed.

Lemma kept_updateNextExecutionDate {clib : CLibrary} sipId w :
  kept 0 w (onSipService (SIPServiceImpl.updateNextExecutionDate sipId) w).1.
Proof.
  unfold onSipService, zoom, SIPServiceImpl.updateNextExecutionDate, bind,
    SIPServiceImpl.validateSIPExists, SIPServiceImpl.repository_update, ret.
  destruct (InMemorySIPRepository.getById sipId (sipRepository w)) as [sip|]; simpl.
  - pose proof (kept_sip_update
                  (SIP.setNextExecutionDate
                     (SIPServiceImpl.calculateNextExecutionDate (SIP.nextExecutionDate sip)
                        (SIP.frequency sip)) sip) w) as H.
    by destruct (InMemorySIPRepository.update _ (sipRepository w)).
  - rewrite setSipRepository_same. apply kept_refl.
Qed.

Lemma kept_lifecycle_on_success {clib : CLibrary} sipId w :
  kept 0 w (lifecycle_on_success sipId w).1.
Proof.
  unfold lifecycle_on_success, bind.
  pose proof (kept_onPaymentSuccess sipId w) as H1.
  destruct (onSipService (SIPServiceImpl.onPaymentSuccess sipId) w) as [w1 [[]|e]];
    simpl in *; [|exact H1].
  pose proof (kept_updateNextExecutionDate sipId w1) as H2.
  change 0 with (0 + 0). eapply kept_trans; eauto.
Qed.

Lemma kept_txn_update txn w :
  kept 0 w
    (setTransactionRepository
       (InMemoryTransactionRepository.update txn (transactionRepository w)).1 w).
Proof.
  split; simpl; try done.
  - by rewrite Z.add_0_r.
  - apply txn_update_wf.
Qed.

(** The reconciler, whatever it is called with and however it ends. *)
Lemma kept_handlePaymentCallback {clib : CLibrary} transactionId sipId status w :
  kept 0 w (handlePaymentCallback transactionId sipId status w).1.
Proof.
  unfold handlePaymentCallback.
  destruct (InMemoryTransactionRepository.getById _ _) as [txn|]; [|apply kept_refl].
  destruct (Transaction.callbackProcessed txn); [apply kept_refl|].
  set (txn' := Transaction.setCallbackProcessed true (Transaction.setStatus status txn)).
  pose proof (kept_txn_update txn' w) as H1.
  destruct (bool_decide (status = SUCCESS)); [|exact H1].
  fold (lifecycle_on_success sipId).
  change 0 with (0 + 0). eapply kept_trans; [exact H1 | apply kept_lifecycle_on_success].
Qed.

(** The payment service is out of the reconciler's reach. *)
Lemma handlePaymentCallback_paymentService {clib : CLibrary} transactionId sipId status w :
  paymentService (handlePaymentCallback transactionId sipId status w).1 = paymentService w.
Proof.
  unfold handlePaymentCallback.
  destruct (InMemoryTransactionRepository.getById _ _) as [txn|]; [|done].
  destruct (Transaction.callbackProcessed txn); [done|].
  destruct (bool_decide (status = SUCCESS)); [|done].
  unfold bind, onSipService, zoom.
  destruct (SIPServiceImpl.onPaymentSuccess sipId _) as [r1 [[]|e]]; simpl; [|done].
  by destruct (SIPServiceImpl.updateNextExecutionDate sipId r1).
Qed.
(** With its SIP in the repository, the callback of a pending transaction
    returns. *)
Lemma handlePaymentCallback_returns {clib : CLibrary} w transactionId sipId status txn :
  txn_keys_wf (transactionRepository w) ->
  sip_keys_wf (sipRepository w) ->
  InMemoryTransactionRepository.getById transactionId (transactionRepository w) = Some txn ->
  Transaction.callbackProcessed txn = false ->
  is_Some (InMemorySIPRepository.storage (sipRepository w) !! sipId) ->
  (handlePaymentCallback transactionId sipId status w).2 = Returned tt.
Proof.
  intros Htxn Hsip Hget Hflag [sip Hstored].
  rewrite (handlePaymentCallback_first _ _ _ _ txn) by assumption. cbv zeta.
  destruct (bool_decide (status = SUCCESS)); [|reflexivity].
  by eapply lifecycle_on_success_present.
Qed.

Lemma setPaymentService_kept p w : kept 0 w (setPaymentService p w).
Proof. split; simpl; try done. by rewrite Z.add_0_r. Qed.

Section WithCollaborators.
Context `{MathLib} `{RandomDevice}.

(** The completion handler, if one is installed, finds the transaction
    settled and returns without effect. *)
Lemma callCompletionHandler_settled {clib : CLibrary} w transactionId status txn :
  InMemoryTransactionRepository.getById transactionId (transactionRepository w) = Some txn ->
  Transaction.callbackProcessed txn = true ->
  MockPaymentService.callCompletionHandler paymentService callPaymentCallback
    transactionId status w = (w, Returned tt).
Proof.
  intros Hget Hflag. unfold MockPaymentService.callCompletionHandler.
  destruct (MockPaymentService.completionHandler (paymentService w)) as [handler|];
    [|reflexivity].
  unfold callPaymentCallback. by apply (handlePaymentCallback_settled w _ _ _ txn).
Qed.

(** Submitting the payment of a transaction just recorded returns, in both
    modes of the payment service. *)
Lemma initiatePayment_returns {clib : CLibrary} w transactionId amount callback txn :
  txn_keys_wf (transactionRepository w) ->
  sip_keys_wf (sipRepository w) ->
  InMemoryTransactionRepository.getById transactionId (transactionRepository w) = Some txn ->
  Transaction.callbackProcessed txn = false ->
  is_Some (InMemorySIPRepository.storage (sipRepository w) !! captured_sipId callback) ->
  exists w', initiatePayment transactionId amount callback w = (w', Returned tt) /\ kept 0 w w'.
Proof.
  intros Htxn Hsip Hget Hflag Hstored.
  unfold initiatePayment, MockPaymentService.initiatePayment.
  destruct (MockPaymentService.autoComplete (paymentService w)).
  - unfold MockPaymentService.simulatePaymentResult.
    match goal with
    | |- context [if ?c then SUCCESS else FAILURE] =>
        set (status := if c then SUCCESS else FAILURE)
    end.
    set (w1 := setPaymentService _ w).
    assert (K1 : kept 0 w w1) by apply setPaymentService_kept.
    unfold bind, callPaymentCallback at 1.
    pose proof (handlePaymentCallback_returns w1 transactionId (captured_sipId callback)
                  status txn Htxn Hsip Hget Hflag Hstored) as Hret.
    pose proof (kept_handlePaymentCallback transactionId (captured_sipId callback) status w1)
      as K2.
    pose proof (handlePaymentCallback_settles w1 transactionId (captured_sipId callback)
                  status txn Htxn Hget Hflag) as Hsettled.
    destruct (handlePaymentCallback transactionId (captured_sipId callback) status w1)
      as [w2 o]. simpl in *. subst o.
    rewrite (callCompletionHandler_settled w2 _ _ (settled status txn)) by done.
    exists w2. split; [reflexivity|].
    change 0 with (0 + 0). eapply kept_trans; eauto.
  - eexists. split; [reflexivity | apply setPaymentService_kept].
Qed.

Lemma getCurrentNAV_known fundId s baseNav :
  MockMarketPriceService.navData s !! fundId = Some baseNav ->
  exists s' nav,
    MockMarketPriceService.getCurrentNAV fundId s = (s', Returned nav) /\
    MockMarketPriceService.navData s' = MockMarketPriceService.navData s.
Proof.
  intros Hnav. unfold MockMarketPriceService.getCurrentNAV. rewrite Hnav.
  destruct (MockMarketPriceService.enablePriceFluctuation s); eauto.
Qed.

(** A due SIP whose fund is unknown: the price lookup throws before
    anything is written. *)
Lemma executeSIP_unknown_fund {clib : CLibrary} sip executionDate w :
  SIP.state sip = ACTIVE ->
  MockMarketPriceService.navData (marketPriceService w) !! SIP.fundId sip = None ->
  executeSIP sip executionDate w = (w, Thrown (FundNotFoundException (SIP.fundId sip))).
Proof.
  intros Hstate Hnav. unfold executeSIP. rewrite Hstate. simpl.
  unfold bind, onMarketPriceService, zoom, MockMarketPriceService.getCurrentNAV.
  rewrite Hnav. by destruct w.
Qed.

(** A due SIP whose fund has a price: execution returns after drawing one
    transaction id. *)
Lemma executeSIP_known_fund {clib : CLibrary} sip executionDate w baseNav :
  SIP.state sip = ACTIVE ->
  MockMarketPriceService.navData (marketPriceService w) !! SIP.fundId sip = Some baseNav ->
  txn_keys_wf (transactionRepository w) ->
  sip_keys_wf (sipRepository w) ->
  is_Some (InMemorySIPRepository.storage (sipRepository w) !! SIP.id sip) ->
  exists w', executeSIP sip executionDate w = (w', Returned tt) /\ kept 1 w w'.
Proof.
  intros Hstate Hnav Htxn Hsip Hstored. unfold executeSIP. rewrite Hstate. simpl.
  destruct (getCurrentNAV_known _ _ _ Hnav) as (s' & nav & Hcur & Hsame).
  unfold bind at 1. unfold onMarketPriceService, zoom. rewrite Hcur.
  set (w1 := setMarketPriceService s' w).
  unfold bind at 1. unfold onIdGenerator, zoom, IdGenerator.generateTransactionId,
    IdGenerator.generateSimple.
  set (txnId := ("TXN" +:+ _)%string).
  set (w2 := setIdCounter _ w1).
  unfold bind at 1, modify.
  set (txn := Transaction.setStatus PENDING _).
  set (w3 := setTransactionRepository _ w2).
  assert (K3 : kept 1 w w3).
  { split; simpl; try done.
    - unfold IdGenerator.uint64_modulus. apply Z.mod_mod. lia.
    - intros _. by apply txn_add_wf. }
  destruct (initiatePayment_returns w3 txnId
              (calculateSteppedUpAmount (SIP.baseAmount sip) (SIP.stepUpPercentage sip)
                 (SIP.installmentCount sip + 1))
              {| captured_txnId := txnId; captured_sipId := SIP.id sip |} txn)
    as (w' & Hrun & K4).
  - by apply txn_add_wf.
  - exact Hsip.
  - unfold InMemoryTransactionRepository.getById. simpl. apply lookup_insert_eq.
  - reflexivity.
  - exact Hstored.
  - exists w'. split; [exact Hrun|].
    change 1 with (1 + 0). eapply kept_trans; eauto.
Qed.
End WithCollaborators.

(** Does the price service have a price for the SIP's fund? *)
Definition known_fund (w : World) (sip : SIP.t) : bool :=
  bool_decide (is_Some (MockMarketPriceService.navData (marketPriceService w)
                          !! SIP.fundId sip)).

(** The log entry of a SIP whose fund is unknown. *)
Definition fund_error (sip : SIP.t) : string * Exception :=
  (SIP.id sip, FundNotFoundException (SIP.fundId sip)).

(** What a run of the loop over some SIPs amounts to: [drawn] ids drawn,
    [log] appended to the error log, the rest as in [kept]. *)
Record pass (drawn : Z) (log : list (string * Exception)) (w w' : World) : Prop :=
  Build_pass {
  pass_navData :
    MockMarketPriceService.navData (marketPriceService w')
    = MockMarketPriceService.navData (marketPriceService w);
  pass_errorLog : errorLog w' = errorLog w ++ log;
  pass_idCounter :
    idCounter w' mod IdGenerator.uint64_modulus
    = (idCounter w + drawn) mod IdGenerator.uint64_modulus;
  pass_sip_wf : sip_keys_wf (sipRepository w) -> sip_keys_wf (sipRepository w');
  pass_txn_wf : txn_keys_wf (transactionRepository w) -> txn_keys_wf (transactionRepository w');
  pass_sip_ids : forall k,
    is_Some (InMemorySIPRepository.storage (sipRepository w') !! k)
    <-> is_Some (InMemorySIPRepository.storage (sipRepository w) !! k)
}.

Lemma pass_refl w : pass 0 [] w w.
Proof. split; try done; [by rewrite app_nil_r | by rewrite Z.add_0_r]. Qed.

Lemma kept_pass n w w' : kept n w w' -> pass n [] w w'.
Proof. intros []. split; try done. by rewrite app_nil_r. Qed.

Lemma pass_logError sipId e w : pass 0 [(sipId, e)] w (logError sipId e w).
Proof. split; simpl; try done. by rewrite Z.add_0_r. Qed.

Lemma pass_trans n m l1 l2 w1 w2 w3 :
  pass n l1 w1 w2 -> pass m l2 w2 w3 -> pass (n + m) (l1 ++ l2) w1 w3.
Proof.
  intros [] []. split; auto.
  - etrans; eassumption.
  - rewrite pass_errorLog1, pass_errorLog0. by rewrite app_assoc.
  - rewrite pass_idCounter1, <- Zplus_mod_idemp_l, pass_idCounter0, Zplus_mod_idemp_l.
    f_equal. lia.
  - intros k. etrans; eauto.
Qed.

Section Pass.
Context `{MathLib} `{RandomDevice}.

(** The loop of [executeDueSIPs] over ACTIVE stored SIPs: the SIPs whose fund
    has a price are counted, the others are logged, and none stops the loop. *)
Lemma executeOne_loop {clib : CLibrary} asOfDate (w0 : World) (sips : list SIP.t) :
  (forall sip, In sip sips ->
     SIP.state sip = ACTIVE /\
     is_Some (InMemorySIPRepository.storage (sipRepository w0) !! SIP.id sip)) ->
  forall w processedCount,
    txn_keys_wf (transactionRepository w) ->
    sip_keys_wf (sipRepository w) ->
    (exists n log, pass n log w0 w) ->
    let run := fold_left (executeOne asOfDate) sips (w, processedCount) in
    run.2 = processedCount + Z.of_nat (length (List.filter (known_fund w0) sips)) /\
    pass (Z.of_nat (length (List.filter (known_fund w0) sips)))
      (map fund_error (List.filter (fun sip => negb (known_fund w0 sip)) sips))
      w run.1.
Proof.
  induction sips as [|sip sips IH]; intros Hall w c Htxn Hsip (n0 & log0 & P0); simpl.
  - split; [lia | apply pass_refl].
  - destruct (Hall sip (or_introl eq_refl)) as [Hstate Hstored].
    assert (Hall' : forall s, In s sips ->
              SIP.state s = ACTIVE /\
              is_Some (InMemorySIPRepository.storage (sipRepository w0) !! SIP.id s))
      by (intros s Hs; apply Hall; by right).
    destruct (known_fund w0 sip) eqn:Hk; simpl.
    + apply bool_decide_eq_true in Hk as [baseNav Hnav].
      destruct (executeSIP_known_fund sip asOfDate w baseNav) as (w' & Hrun & K);
        [done | by rewrite (pass_navData _ _ _ _ P0) | done | done
        | by apply (pass_sip_ids _ _ _ _ P0) |].
      rewrite Hrun. apply kept_pass in K.
      destruct (IH Hall' w' (c + 1)) as [Hcount Hpass].
      * by apply (pass_txn_wf _ _ _ _ K).
      * by apply (pass_sip_wf _ _ _ _ K).
      * eexists _, _. eapply pass_trans; eauto.
      * split; [rewrite Hcount; lia|].
        replace (Z.of_nat (S (length (List.filter (known_fund w0) sips))))
          with (1 + Z.of_nat (length (List.filter (known_fund w0) sips))) by lia.
        change (map fund_error ?l) with ([] ++ map fund_error l).
        eapply pass_trans; eauto.
    + apply bool_decide_eq_false in Hk.
      assert (Hnav : MockMarketPriceService.navData (marketPriceService w0)
                       !! SIP.fundId sip = None)
        by (destruct (_ !! SIP.fundId sip); [exfalso; eauto | done]).
      rewrite executeSIP_unknown_fund
        by (done || by rewrite (pass_navData _ _ _ _ P0)).
      pose proof (pass_logError (SIP.id sip) (FundNotFoundException (SIP.fundId sip)) w) as K.
      destruct (IH Hall' (logError (SIP.id sip) (FundNotFoundException (SIP.fundId sip)) w) c)
        as [Hcount Hpass].
      * by apply (pass_txn_wf _ _ _ _ K).
      * by apply (pass_sip_wf _ _ _ _ K).
      * eexists _, _. eapply pass_trans; eauto.
      * split; [exact Hcount|].
        change (fund_error sip :: ?l) with ([fund_error sip] ++ l).
        replace (Z.of_nat (length (List.filter (known_fund w0) sips)))
          with (0 + Z.of_nat (length (List.filter (known_fund w0) sips))) by lia.
        eapply pass_trans; eauto.
Qed.

(** The SIPs [getDueSIPs] returns are ACTIVE, due and stored. *)
Lemma getDueSIPs_In asOfDate r sip :
  In sip (InMemorySIPRepository.getDueSIPs asOfDate r) ->
  SIP.state sip = ACTIVE /\ SIP.nextExecutionDate sip <= asOfDate /\
  exists k, InMemorySIPRepository.storage r !! k = Some sip.
Proof.
  unfold InMemorySIPRepository.getDueSIPs, map_iteration. rewrite filter_In.
  intros [Hin Hdue]. apply andb_true_iff in Hdue as [Hstate Hdate].
  apply bool_decide_eq_true in Hstate. apply Z.leb_le in Hdate.
  repeat split; try assumption.
  apply list_elem_of_In, list_elem_of_fmap in Hin as ([k s] & -> & Hin).
  apply elem_of_map_to_list in Hin. eauto.
Qed.
End Pass.
End SchedulerFacts.

(** ** Claims about the execution engine *)

Module SchedulerClaims.
Import SIPScheduler RepositoryFacts ReconcilerFacts SchedulerFacts.

Lemma sample_start_sips_wf : sip_keys_wf (sipRepository Sample.world_start).
Proof. apply sip_add_wf, sip_add_wf, sip_add_wf, sip_empty_wf. Qed.

Lemma sample_start_ledger_wf : txn_keys_wf (transactionRepository Sample.world_start).
Proof. apply txn_empty_wf. Qed.

Section Units.
Context `{MathLib} `{RandomDevice}.

(** The transaction [executeSIP] records carries [amount / nav] as its
    units, whatever the sign of the NAV the price service returned. *)
Lemma executeSIP_records_units {clib : CLibrary} sip executionDate w market' nav :
  SIP.state sip = ACTIVE ->
  MockMarketPriceService.getCurrentNAV (SIP.fundId sip) (marketPriceService w)
  = (market', Returned nav) ->
  txn_keys_wf (transactionRepository w) ->
  let amount :=
    calculateSteppedUpAmount (SIP.baseAmount sip) (SIP.stepUpPercentage sip)
      (SIP.installmentCount sip + 1) in
  let txnId := (IdGenerator.generateTransactionId (idCounter w)).2 in
  exists txn,
    Returned (Transaction.id txn) = txnId /\
    InMemoryTransactionRepository.getById (Transaction.id txn)
      (transactionRepository (executeSIP sip executionDate w).1) = Some txn /\
    Transaction.sipId txn = SIP.id sip /\
    Transaction.amount txn = amount /\
    Transaction.nav txn = nav /\
    Transaction.units txn = (amount / nav)%float.
Proof.
  intros Hstate Hcur Htxn amount txnId.
  unfold executeSIP. rewrite Hstate. simpl.
  unfold bind at 1. unfold onMarketPriceService, zoom. rewrite Hcur.
  set (w1 := setMarketPriceService market' w).
  unfold bind at 1. unfold onIdGenerator, zoom, IdGenerator.generateTransactionId,
    IdGenerator.generateSimple.
  set (id := ("TXN" +:+ _)%string).
  set (w2 := setIdCounter _ w1).
  unfold bind at 1, modify. fold amount.
  set (txn := Transaction.setStatus PENDING _).
  set (w3 := setTransactionRepository _ w2).
  assert (Hget : InMemoryTransactionRepository.getById id (transactionRepository w3) = Some txn)
    by (unfold InMemoryTransactionRepository.getById; simpl; apply lookup_insert_eq).
  assert (Hwf : txn_keys_wf (transactionRepository w3)) by (by apply txn_add_wf).
  unfold initiatePayment, MockPaymentService.initiatePayment.
  destruct (MockPaymentService.autoComplete (paymentService w3)).
  - unfold MockPaymentService.simulatePaymentResult.
    match goal with
    | |- context [if ?c then SUCCESS else FAILURE] =>
        set (status := if c then SUCCESS else FAILURE)
    end.
    set (w4 := setPaymentService _ w3).
    unfold bind, callPaymentCallback at 1. cbn [captured_sipId].
    pose proof (handlePaymentCallback_settles w4 id (SIP.id sip) status txn Hwf Hget eq_refl)
      as Hsettled.
    destruct (handlePaymentCallback id (SIP.id sip) status w4) as [w5 [[]|e]];
      simpl in Hsettled |- *.
    + rewrite (callCompletionHandler_settled w5 _ _ (settled status txn)) by done.
      exists (settled status txn). repeat split. exact Hsettled.
    + exists (settled status txn). repeat split. exact Hsettled.
  - exists txn. repeat split. exact Hget.
Qed.
End Units.

Section OnSamples.
Existing Instance Sample.utc.

(** C7 (what the code does where the claim promises 0): after a market
    movement of minus 100 percent the NAV on record is zero; [executeSIP]
    then records a transaction whose units are [1000 / 0], positive
    infinity, although the constructor of [Transaction] alone leaves the
    units of such a transaction at 0. *)
Theorem executeSIP_units_at_zero_nav :
  let run :=
    @executeSIP Sample.math Sample.random Sample.utc Sample.sip1 (DateUtils.createDate 2024 2 1)
      Sample.world_crashed in
  run.2 = Returned tt /\
  (exists txn,
     InMemoryTransactionRepository.getById "TXN_000001" (transactionRepository run.1)
     = Some txn /\
     Transaction.sipId txn = "SIP_000001" /\
     Transaction.amount txn = 1000%float /\
     Transaction.nav txn = 0%float /\
     (0 <? Transaction.nav txn)%float = false /\
     Transaction.units txn = infinity /\
     (Transaction.units txn =? 0)%float = false) /\
  Transaction.units
    (Transaction.make "TXN_000001" "SIP_000001" 1000 0 (DateUtils.createDate 2024 2 1)
       INSTALLMENT) = 0%float.
Proof.
  split; [vm_compute; reflexivity|]. split; [|vm_compute; reflexivity].
  eexists. split; [vm_compute; reflexivity|]. repeat split.
Qed.
End OnSamples.
End SchedulerClaims.

(** ** The valuation engine *)

Module ValuationFacts.
Import RepositoryFacts PortfolioServiceImpl.
Import InMemoryTransactionRepository.

(** A total accumulated as the loop does: from [0.0], one term after the
    other, in the order of the list. *)
Definition float_sum (terms : list float) : float := fold_left PrimFloat.add terms 0%float.

(** The secondary index lists under a SIP id exactly the ids of the stored
    transactions of that SIP. *)
Definition txn_index_wf (r : t) : Prop :=
  forall s k,
    k ∈ default ∅ (sipIndex r !! s)
    <-> exists txn, storage r !! k = Some txn /\ Transaction.sipId txn = s.

Lemma txn_index_empty : txn_index_wf empty.
Proof.
  intros s k. simpl. rewrite lookup_empty. simpl. split; [set_solver|].
  intros (txn & Hget & _). by rewrite lookup_empty in Hget.
Qed.

(** Adding a transaction under an id not yet used keeps the index exact. *)
Lemma txn_index_add txn r :
  txn_index_wf r -> storage r !! Transaction.id txn = None ->
  txn_index_wf (add txn r).
Proof.
  intros Hwf Hfresh s k. unfold txn_index_wf in Hwf. unfold add, index_insert. simpl.
  destruct (decide (s = Transaction.sipId txn)) as [->|Hs].
  - rewrite lookup_insert_eq. simpl. rewrite elem_of_union, elem_of_singleton, Hwf.
    split.
    + intros [(t' & Hget & Hsip) | ->].
      * exists t'. split; [|done]. rewrite lookup_insert_ne; [done|]. congruence.
      * exists txn. split; [apply lookup_insert_eq | done].
    + intros (t' & Hget & Hsip). rewrite lookup_insert in Hget.
      case_decide; [by right | left; eauto].
  - rewrite lookup_insert_ne by done. rewrite Hwf. split.
    + intros (t' & Hget & Hsip). exists t'. split; [|done].
      rewrite lookup_insert_ne; [done|]. congruence.
    + intros (t' & Hget & Hsip). rewrite lookup_insert in Hget.
      case_decide; [congruence | eauto].
Qed.

(** The two writes of an index, read back. *)
Lemma index_insert_elem idx key elem s k :
  k ∈ default ∅ (index_insert idx key elem !! s)
  <-> (s = key /\ k = elem) \/ k ∈ default ∅ (idx !! s).
Proof.
  unfold index_insert. rewrite lookup_insert. case_decide; simpl.
  - subst. rewrite elem_of_union, elem_of_singleton. naive_solver.
  - naive_solver.
Qed.

Lemma index_erase_elem idx key elem s k :
  k ∈ default ∅ (index_erase idx key elem !! s)
  <-> k ∈ default ∅ (idx !! s) /\ ~ (s = key /\ k = elem).
Proof.
  unfold index_erase. rewrite lookup_insert. case_decide; simpl.
  - subst. rewrite elem_of_difference, elem_of_singleton. naive_solver.
  - naive_solver.
Qed.

(** [update] keeps the index exact, also when it moves a transaction to
    another SIP. *)
Lemma txn_index_update txn r : txn_index_wf r -> txn_index_wf (update txn r).1.
Proof.
  intros Hwf. unfold txn_index_wf in *. unfold update.
  destruct (storage r !! Transaction.id txn) as [old|] eqn:Hold; [|exact Hwf].
  intros s k. cbn [fst storage sipIndex].
  assert (Hstored : (exists t', <[Transaction.id txn := txn]> (storage r) !! k = Some t' /\
                                Transaction.sipId t' = s)
                    <-> (k = Transaction.id txn /\ Transaction.sipId txn = s)
                        \/ (k <> Transaction.id txn /\
                            exists t', storage r !! k = Some t' /\ Transaction.sipId t' = s)).
  { rewrite lookup_insert. case_decide; naive_solver. }
  rewrite Hstored. clear Hstored.
  case_bool_decide as Hsame.
  - rewrite Hwf. split.
    + intros (t' & Hget & Hsip).
      destruct (decide (k = Transaction.id txn)) as [->|Hk]; [left|right; eauto].
      split; [done|]. congruence.
    + intros [[-> <-] | (_ & Hrest)]; [|done].
      exists old. split; [done | congruence].
  - rewrite index_insert_elem, index_erase_elem, Hwf. split.
    + intros [[-> ->] | [(t' & Hget & Hsip) Hnot]]; [by left|].
      destruct (decide (k = Transaction.id txn)) as [->|Hk]; [|right; eauto].
      exfalso. apply Hnot. split; [|done]. congruence.
    + intros [[-> <-] | (Hk & t' & Hget & Hsip)]; [by left|].
      right. split; [eauto|]. naive_solver.
Qed.

(** The reconciler keeps the index exact: the valuation engine may run
    on the ledger at any time between callbacks. *)
Lemma handlePaymentCallback_index {clib : CLibrary} transactionId sipId status w :
  txn_index_wf (transactionRepository w) ->
  txn_index_wf
    (transactionRepository (SIPScheduler.handlePaymentCallback transactionId sipId status w).1).
Proof.
  intros Hwf. unfold SIPScheduler.handlePaymentCallback.
  destruct (getById transactionId (transactionRepository w)) as [txn|]; [|exact Hwf].
  destruct (Transaction.callbackProcessed txn); [exact Hwf|].
  destruct (bool_decide (status = SUCCESS)).
  - fold (ReconcilerFacts.lifecycle_on_success sipId).
    rewrite ReconcilerFacts.lifecycle_on_success_ledger. by apply txn_index_update.
  - by apply txn_index_update.
Qed.

Lemma accumulate_totals txns a b :
  fold_left accumulate txns (a, b)
  = (fold_left PrimFloat.add (map Transaction.amount txns) a,
     fold_left PrimFloat.add (map Transaction.units txns) b).
Proof. revert a b. induction txns as [|txn txns IH]; intros a b; [done|]. simpl. apply IH. Qed.

(** The ids an ordered set hands out are the set's elements, each once. *)
Lemma set_iteration_elem s k : k ∈ set_iteration s <-> k ∈ s.
Proof. unfold set_iteration. by rewrite merge_sort_Permutation, elem_of_elements. Qed.

Lemma set_iteration_NoDup s : NoDup (set_iteration s).
Proof. unfold set_iteration. rewrite merge_sort_Permutation. apply NoDup_elements. Qed.

Lemma getBySipId_elem r s txn :
  txn_keys_wf r -> txn_index_wf r ->
  txn ∈ getBySipId s r
  <-> storage r !! Transaction.id txn = Some txn /\ Transaction.sipId txn = s.
Proof.
  intros Hkeys Hidx. unfold getBySipId.
  pose proof (Hidx s) as Hs.
  destruct (sipIndex r !! s) as [ids|]; simpl in Hs.
  - rewrite list_elem_of_omap. split.
    + intros (k & Hk & Hget). pose proof (Hkeys _ _ Hget) as <-.
      apply set_iteration_elem, Hs in Hk as (t' & Hget' & Hsip). by simplify_eq.
    + intros [Hget Hsip]. exists (Transaction.id txn). split; [|done].
      apply set_iteration_elem, Hs. eauto.
  - split; [intros Hin; inversion Hin|].
    intros [Hget Hsip]. destruct (Hs (Transaction.id txn)) as [_ Hback].
    exfalso. apply (not_elem_of_empty (C := gset string) (Transaction.id txn)).
    apply Hback. eauto.
Qed.

Lemma NoDup_omap_ids (m : gmap string Transaction.t) ks :
  (forall k txn, m !! k = Some txn -> Transaction.id txn = k) ->
  NoDup ks -> NoDup (Transaction.id <$> omap (fun k => m !! k) ks).
Proof.
  intros Hkeys. induction 1 as [|k ks Hk Hnd IH]; simpl; [constructor|].
  destruct (m !! k) as [txn|] eqn:Hget; [|exact IH].
  simpl. constructor; [|exact IH].
  rewrite (Hkeys _ _ Hget). intros Hin.
  apply list_elem_of_fmap in Hin as (t' & Hid & Hin).
  apply list_elem_of_omap in Hin as (k' & Hk' & Hget').
  rewrite (Hkeys _ _ Hget') in Hid. by subst.
Qed.

Lemma NoDup_ids_filter (p : Transaction.t -> bool) txns :
  NoDup (Transaction.id <$> txns) -> NoDup (Transaction.id <$> List.filter p txns).
Proof.
  induction txns as [|txn txns IH]; simpl; [done|].
  intros Hnd. apply NoDup_cons in Hnd as [Hnot Hnd].
  destruct (p txn); simpl; [|by apply IH].
  constructor; [|by apply IH].
  intros Hin. apply Hnot.
  apply list_elem_of_fmap in Hin as (t' & Hid & Hin).
  apply list_elem_of_In, filter_In in Hin as [Hin _].
  apply list_elem_of_fmap. exists t'. split; [done | by apply list_elem_of_In].
Qed.

(** [getSuccessfulBySipId] returns the SUCCESS transactions of the SIP that
    the ledger stores, each once. *)
Lemma getSuccessfulBySipId_spec r s :
  txn_keys_wf r -> txn_index_wf r ->
  (forall txn,
     txn ∈ getSuccessfulBySipId s r
     <-> getById (Transaction.id txn) r = Some txn /\ Transaction.sipId txn = s /\
         Transaction.status txn = SUCCESS) /\
  NoDup (Transaction.id <$> getSuccessfulBySipId s r).
Proof.
  intros Hkeys Hidx. split.
  - intros txn. unfold getSuccessfulBySipId, getById.
    rewrite list_elem_of_In, filter_In, <- list_elem_of_In,
      (getBySipId_elem r s txn Hkeys Hidx), bool_decide_eq_true.
    tauto.
  - unfold getSuccessfulBySipId. apply NoDup_ids_filter.
    unfold getBySipId. destruct (sipIndex r !! s) as [ids|]; [|constructor].
    apply NoDup_omap_ids; [exact Hkeys | apply set_iteration_NoDup].
Qed.
End ValuationFacts.

(** ** Claims about the valuation engine *)

Module ValuationClaims.
Import RepositoryFacts ValuationFacts PortfolioServiceImpl.

Lemma sample_valued_keys_wf : txn_keys_wf (transactionRepository Sample.world_valued).
Proof. apply txn_add_wf, txn_add_wf, txn_empty_wf. Qed.

Lemma sample_valued_index_wf : txn_index_wf (transactionRepository Sample.world_valued).
Proof.
  apply txn_index_add; [apply txn_index_add; [apply txn_index_empty | reflexivity]
                       | reflexivity].
Qed.

(** C6, as amended: on a ledger whose index is exact, [buildPortfolioItem]
    returns an item whose totalInvested and totalUnits are the sums of the
    amounts and of the units over the stored SUCCESS transactions of the SIP
    (each once, added in the order of their ids), whose currentValue is
    totalUnits times the current NAV, whose gainLoss is currentValue minus
    totalInvested, and whose gainLossPercentage is gainLoss / totalInvested
    * 100 when totalInvested is above zero and 0 otherwise: 0 when the total
    is 0, and 0 as well when the total is negative or not a number; for
    every total that is at least zero this is the rule of the claim.  It
    writes to neither repository.  For two such transactions of
    (1000, 10 units) and (1100, 10 units) at a current NAV of 120 the item
    has 2100 invested, 20 units, a value of 2400, a gain of 300 and a
    percentage of 14.2857..., which is 14.29 to two decimals (one hundred
    times it lies between 1428.5 and 1429.5). *)
Theorem portfolio_valuation `{MathLib} `{RandomDevice} (w : World) (sip : SIP.t) :
  txn_keys_wf (transactionRepository w) ->
  txn_index_wf (transactionRepository w) ->
  let txns :=
    InMemoryTransactionRepository.getSuccessfulBySipId (SIP.id sip) (transactionRepository w) in
  exists item w',
    buildPortfolioItem sip w = (w', Returned item) /\
    (forall txn,
       txn ∈ txns
       <-> InMemoryTransactionRepository.getById (Transaction.id txn) (transactionRepository w)
           = Some txn /\
           Transaction.sipId txn = SIP.id sip /\ Transaction.status txn = SUCCESS) /\
    NoDup (Transaction.id <$> txns) /\
    totalInvested item = float_sum (map Transaction.amount txns) /\
    totalUnits item = float_sum (map Transaction.units txns) /\
    currentNav item
    = match (MockMarketPriceService.getCurrentNAV (SIP.fundId sip) (marketPriceService w)).2 with
      | Returned nav => nav
      | Thrown _ => 0%float
      end /\
    currentValue item = (totalUnits item * currentNav item)%float /\
    gainLoss item = (currentValue item - totalInvested item)%float /\
    gainLossPercentage item
    = (if (0 <? totalInvested item)%float
       then (gainLoss item / totalInvested item * 100)%float else 0%float) /\
    ((totalInvested item =? 0)%float = true -> gainLossPercentage item = 0%float) /\
    ((totalInvested item <? 0)%float = true -> gainLossPercentage item = 0%float) /\
    ((totalInvested item =? totalInvested item)%float = false ->
     gainLossPercentage item = 0%float) /\
    ((0 <=? totalInvested item)%float = true ->
     gainLossPercentage item
     = (if (totalInvested item =? 0)%float then 0%float
        else (gainLoss item / totalInvested item * 100)%float)) /\
    transactionRepository w' = transactionRepository w /\
    sipRepository w' = sipRepository w /\
    (forall txn1 txn2,
       txns = [txn1; txn2] ->
       Transaction.amount txn1 = 1000%float -> Transaction.units txn1 = 10%float ->
       Transaction.amount txn2 = 1100%float -> Transaction.units txn2 = 10%float ->
       currentNav item = 120%float ->
       totalInvested item = 2100%float /\ totalUnits item = 20%float /\
       currentValue item = 2400%float /\ gainLoss item = 300%float /\
       gainLossPercentage item = 0x1.c924924924924p+3%float /\
       (1428.5 <? gainLossPercentage item * 100)%float = true /\
       (gainLossPercentage item * 100 <? 1429.5)%float = true).
Proof.
  intros Hkeys Hidx txns.
  destruct (getSuccessfulBySipId_spec (transactionRepository w) (SIP.id sip) Hkeys Hidx)
    as [Hmem Hnodup].
  unfold buildPortfolioItem, bind, get, try_catch, ret, onMarketPriceService, zoom.
  fold txns.
  destruct (MockMarketPriceService.getCurrentNAV (SIP.fundId sip) (marketPriceService w))
    as [market' [nav|e]]; cbn [fst snd transactionRepository setMarketPriceService];
    fold txns; rewrite accumulate_totals;
    (eexists _, _; split; [reflexivity|]);
    cbn [totalInvested totalUnits currentNav currentValue gainLoss gainLossPercentage
         fst snd transactionRepository sipRepository setMarketPriceService];
    (split; [exact Hmem|]); (split; [exact Hnodup|]);
    (do 6 (split; [reflexivity|]));
    (split; [intros Hzero; by rewrite (FloatFacts.eqb_zero_not_ltb _ Hzero)|]);
    (split; [intros Hneg; by rewrite (FloatFacts.below_zero_not_above _ Hneg)|]);
    (split; [intros Hnan; by rewrite (FloatFacts.nan_not_above _ 0%float Hnan)|]);
    (split;
       [intros Hge;
        match goal with
        | |- context [(?ti =? 0)%float] =>
            destruct (ti =? 0)%float eqn:Hzero;
            [by rewrite (FloatFacts.eqb_zero_not_ltb _ Hzero)
            |by rewrite (FloatFacts.leb_zero_not_eqb_ltb _ Hge Hzero)]
        end|]);
    (do 2 (split; [reflexivity|]));
    intros txn1 txn2 -> Ha1 Hu1 Ha2 Hu2 Hnav; unfold float_sum; simpl;
    rewrite Ha1, Hu1, Ha2, Hu2; simpl in Hnav.
  - subst nav. repeat split; vm_compute; reflexivity.
  - exfalso. apply (f_equal (fun x => (x <? 1)%float)) in Hnav.
    vm_compute in Hnav. discriminate.
Qed.

(** The valuation example of the design document. *)
Lemma portfolio_valuation_witness :
  exists item,
    (@buildPortfolioItem Sample.math Sample.random Sample.sip1_after_two
       Sample.world_valued).2 = Returned item /\
    totalInvested item = 2100%float /\ totalUnits item = 20%float /\
    currentValue item = 2400%float /\ gainLoss item = 300%float /\
    (1428.5 <? gainLossPercentage item * 100)%float = true /\
    (gainLossPercentage item * 100 <? 1429.5)%float = true.
Proof.
  destruct (@portfolio_valuation Sample.math Sample.random Sample.world_valued
              Sample.sip1_after_two sample_valued_keys_wf sample_valued_index_wf)
    as (item & w' & Hrun & _ & _ & _ & _ & Hnav & _ & _ & _ & _ & _ & _ & _ & _ & _ &
        Hexample).
  destruct (Hexample Sample.paid_txn1 Sample.paid_txn2 eq_refl eq_refl eq_refl eq_refl eq_refl
              Hnav)
    as (Hinv & Hunits & Hvalue & Hgain & _ & Hlow & Hhigh).
  exists item. rewrite Hrun. repeat split; assumption.
Defined.

Section OnSamples.
Existing Instance Sample.utc.

(** The claim as stated fails for a total that is not a number.  [createSIP]
    refuses an amount that is zero or below, and NaN is neither: the SIP is
    created, its first installment is recorded with the amount NaN and paid,
    and the portfolio item has a total invested that is not 0, a percentage
    of 0, and a quotient gainLoss / totalInvested * 100 that is not 0 but
    NaN. *)
Lemma portfolio_valuation_nan_total :
  exists sip w1 w2 item,
    SIPServiceImplRest.createSIP Main.users "USER_000001" "FUND_000004" nan MONTHLY
      (DateUtils.createDate 2024 1 1) 0 Main.world = (w1, Returned sip) /\
    @SIPScheduler.executeSIP Sample.math Sample.random Sample.utc sip
      (DateUtils.createDate 2024 1 1) w1 = (w2, Returned tt) /\
    (@buildPortfolioItem Sample.math Sample.random sip w2).2 = Returned item /\
    (totalInvested item =? 0)%float = false /\
    is_nan (totalInvested item) = true /\
    gainLossPercentage item = 0%float /\
    is_nan (gainLoss item / totalInvested item * 100)%float = true /\
    (gainLoss item / totalInvested item * 100 =? gainLossPercentage item)%float = false.
Proof.
  eexists _, _, _, _.
  split; [vm_compute; reflexivity|].
  split; [vm_compute; reflexivity|].
  split; [vm_compute; reflexivity|].
  repeat split; vm_compute; reflexivity.
Qed.
End OnSamples.
End ValuationClaims.

(** * Part III: further properties of the sources *)

(** ** Dates *)

Module DateFacts.
Import Chrono CLib DateUtils DateUtilsRest CalendarFacts.

Lemma calendar_add_months_zero t : valid_tm t -> calendar_add_months 0 t = t.
Proof.
  destruct t as [sec mi hour mday mon year wday yday isdst].
  unfold valid_tm, valid_date, calendar_add_months.
  cbn [tm_sec tm_min tm_hour tm_mday tm_mon tm_year tm_wday tm_yday tm_isdst].
  intros (_ & _ & _ & Hmon & Hday).
  replace ((mon + 0) mod 12) with mon by zdiv.
  replace ((mon + 0) / 12) with 0 by zdiv.
  rewrite Z.add_0_r. f_equal. lia.
Qed.

(** Moving back by at least one month moves at least one day back. *)
Lemma timegm_calendar_add_months_back t n :
  valid_tm t -> n < 0 -> timegm (calendar_add_months n t) + 86400 <= timegm t.
Proof.
  intros Hv Hn. pose proof (calendar_add_months_valid n t Hv) as Hv'.
  pose proof Hv as (Hs & Hm & Hh & Hmon & Hd).
  rewrite (timegm_month t) by lia.
  rewrite (timegm_month (calendar_add_months n t))
    by (destruct Hv' as (_ & _ & _ & ? & _); lia).
  unfold calendar_add_months.
  cbn [tm_sec tm_min tm_hour tm_mday tm_mon tm_year].
  set (total := tm_mon t + n).
  assert (Hmon' : 1 <= total mod 12 + 1 <= 12) by zdiv.
  rewrite !days_from_civil_month_index by assumption.
  pose proof (month_length_index (tm_year t + total / 12 + 1900) (total mod 12 + 1) Hmon')
    as Hlen.
  assert (Hlt : 12 * (tm_year t + total / 12 + 1900) + (total mod 12 + 1 - 1)
                < 12 * (tm_year t + 1900) + (tm_mon t + 1 - 1))
    by (subst total; zdiv).
  apply first_of_month_mono in Hlt. lia.
Qed.

(** X1: in a zone that keeps one offset from UTC all year, for every number
    of months, positive, zero or negative, that leaves the date
    [31 * |months| + 31] days inside the range of the 64-bit clock, the date
    [addMonths] returns reads back, in the zone of the process, as the
    calendar formula applied to the reading of the date it was given: same
    time of day, month moved with the years carried, and the day of the
    month the smaller of the original day and the last day of the target
    month, so it never grows.  Zero months keep the date up to the fraction
    of a second that [to_time_t] drops. *)
Theorem addMonths_reads_back `{CLibrary} (offset : Z) (date : Date) (months : Z) :
  fixed_offset offset ->
  in_range_by (31 * Z.abs months + 31) date ->
  let before := civil date in
  let after := civil (addMonths date months) in
  calendar after = calendar (calendar_add_months months before) /\
  getDayOfMonth (addMonths date months)
  = Z.min (getDayOfMonth date)
      (last_day_of_month (tm_year after + 1900) (tm_mon after + 1)) /\
  getDayOfMonth (addMonths date months) <= getDayOfMonth date /\
  (tm_hour after, tm_min after, tm_sec after)
  = (tm_hour before, tm_min before, tm_sec before) /\
  12 * tm_year after + tm_mon after = 12 * tm_year before + tm_mon before + months /\
  (months = 0 -> addMonths date months = to_time_t date * ticks_per_second).
Proof.
  intros Hzone Hin before after.
  destruct (addMonths_in_range_near offset Hzone date months Hin) as [Hr Hrange].
  assert (Hmonths : -2147483648 <= months < 2147483637).
  { destruct Hin as [Hlo Hhi]. unfold representable, ticks_per_second in *. lia. }
  destruct (addMonths_exact offset Hzone date months Hr Hmonths Hrange) as [Hexact Hafter].
  fold before after in Hafter.
  assert (Hfields : tm_year after = tm_year (calendar_add_months months before) /\
                    tm_mon after = tm_mon (calendar_add_months months before) /\
                    tm_mday after = tm_mday (calendar_add_months months before) /\
                    tm_hour after = tm_hour before /\ tm_min after = tm_min before /\
                    tm_sec after = tm_sec before).
  { unfold calendar in Hafter. injection Hafter as -> -> -> -> -> ->. done. }
  destruct Hfields as (Hy & Hm & Hd & Hh & Hmi & Hs).
  split; [exact Hafter|].
  assert (Hday : getDayOfMonth (addMonths date months)
                 = Z.min (getDayOfMonth date)
                     (last_day_of_month (tm_year after + 1900) (tm_mon after + 1))).
  { unfold getDayOfMonth. fold (civil (addMonths date months)). fold after.
    fold (civil date). fold before. rewrite Hd, Hy, Hm. reflexivity. }
  split; [exact Hday|]. split; [rewrite Hday; lia|].
  split; [by rewrite Hh, Hmi, Hs|].
  split.
  - rewrite Hy, Hm. unfold calendar_add_months. cbn [tm_year tm_mon]. zdiv.
  - intros ->. rewrite Hexact.
    rewrite calendar_add_months_zero by (by apply (civil_valid offset)).
    rewrite (civil_gmtime offset) by assumption. rewrite timegm_gmtime. f_equal. lia.
Qed.

(** X2: under the same conditions [addMonths] moves strictly forward for a
    positive number of months and strictly backward for a negative one, by
    at least a day. *)
Theorem addMonths_direction `{CLibrary} (offset : Z) (date : Date) (months : Z) :
  fixed_offset offset ->
  in_range_by (31 * Z.abs months + 31) date ->
  (0 < months ->
   date < addMonths date months /\
   (to_time_t date + 86400) * ticks_per_second <= addMonths date months) /\
  (months < 0 ->
   addMonths date months < date /\
   addMonths date months <= (to_time_t date - 86400) * ticks_per_second).
Proof.
  intros Hzone Hin.
  destruct (addMonths_in_range_near offset Hzone date months Hin) as [Hr Hrange].
  assert (Hmonths : -2147483648 <= months < 2147483637).
  { destruct Hin as [Hlo Hhi]. unfold representable, ticks_per_second in *. lia. }
  destruct (addMonths_exact offset Hzone date months Hr Hmonths Hrange) as [-> _].
  rewrite (civil_gmtime offset) by assumption.
  pose proof (gmtime_valid (to_time_t date + offset)) as Hvalid.
  pose proof (timegm_gmtime (to_time_t date + offset)) as Hround.
  pose proof (to_time_t_bound date) as Hbound.
  unfold ticks_per_second in *.
  split; intros Hn.
  - pose proof (timegm_calendar_add_months _ months Hvalid Hn). lia.
  - pose proof (timegm_calendar_add_months_back _ months Hvalid Hn). lia.
Qed.

(** X3: the two month loops of [addMonths] end, for every month number and
    within the fuel they are given, with the month inside 0..11 and the
    years carried: months counted from year zero are conserved. *)
Theorem month_loops (mon year : Z) :
  let '(mon', year') := normalize_month mon year in
  0 <= mon' <= 11 /\
  12 * year' + mon' = 12 * year + mon /\
  (0 <= mon <= 11 -> (mon', year') = (mon, year)) /\
  forall extra,
    normalize_underflow (Z.to_nat (- mon') + extra) mon' year' = (mon', year') /\
    normalize_overflow (Z.to_nat mon + extra) mon year
    = normalize_overflow (Z.to_nat mon) mon year.
Proof.
  rewrite normalize_month_spec.
  split; [zdiv|]. split; [zdiv|]. split.
  - intros Hin. f_equal; zdiv.
  - intros extra. split.
    + rewrite normalize_underflow_spec by lia.
      destruct (Z.ltb_spec (mon mod 12) 0); [zdiv | reflexivity].
    + rewrite !normalize_overflow_spec by lia. reflexivity.
Qed.

Lemma setw_short width c s :
  (width <= String.length s)%nat -> IdGenerator.setw width c s = s.
Proof.
  intros Hlen. unfold IdGenerator.setw.
  replace (width - String.length s)%nat with O by lia. reflexivity.
Qed.

(** The day counts of the years 1678 to 2261, whose every second the clock
    can hold. *)
Lemma days_from_civil_range year month day :
  valid_date year month day -> 1678 <= year <= 2261 ->
  -106650 <= days_from_civil year month day < 106651.
Proof.
  intros [Hm Hd] Hy.
  rewrite days_from_civil_month_index by assumption.
  rewrite <- month_length_index in Hd by assumption.
  pose proof (first_of_month_le (12 * 1678) (12 * year + (month - 1)) ltac:(lia)) as Hlo.
  pose proof (first_of_month_mono (12 * year + (month - 1)) (12 * 2262) ltac:(lia)) as Hhi.
  change (first_of_month (12 * 1678)) with (-106650) in Hlo.
  change (first_of_month (12 * 2262)) with 106651 in Hhi.
  lia.
Qed.

(** X4: in a zone that keeps one offset of at most a day from UTC all year,
    a date of the calendar in the years 1678 to 2261 given to [createDate]
    reads back in that zone: midnight of that day, the same day of the
    month, and [formatDate] prints the year, the month and the day it was
    given, month and day padded to two digits. *)
Theorem createDate_reads_back `{CLibrary} (offset : Z) (year month day : Z) :
  fixed_offset offset ->
  -86400 <= offset <= 86400 ->
  1678 <= year <= 2261 ->
  valid_date year month day ->
  calendar (civil (createDate year month day)) = (year - 1900, month - 1, day, 0, 0, 0) /\
  getDayOfMonth (createDate year month day) = day /\
  formatDate (createDate year month day)
  = pretty year +:+ "-" +:+ IdGenerator.setw 2 "0" (pretty month) +:+ "-" +:+
    IdGenerator.setw 2 "0" (pretty day).
Proof.
  intros Hzone Hoffset Hyear Hvalid.
  set (t := {| tm_sec := 0; tm_min := 0; tm_hour := 0; tm_mday := day;
               tm_mon := month - 1; tm_year := year - 1900;
               tm_wday := 0; tm_yday := 0; tm_isdst := 0 |}).
  assert (Ht : valid_tm t).
  { unfold valid_tm, t. cbn [tm_sec tm_min tm_hour tm_mday tm_mon tm_year].
    replace (year - 1900 + 1900) with year by lia.
    replace (month - 1 + 1) with month by lia.
    repeat split; try lia; apply Hvalid. }
  assert (Hcreate : createDate year month day = from_time_t (timegm t - offset)).
  { unfold createDate. destruct Hvalid as [Hm _].
    rewrite !wrap32_id by lia. destruct Hzone as [_ Hmk]. by rewrite Hmk. }
  assert (Hrange : time_t_range (timegm t - offset)).
  { rewrite timegm_month by (unfold t; cbn [tm_mon]; destruct Hvalid; lia).
    unfold t. cbn [tm_sec tm_min tm_hour tm_mday tm_mon tm_year].
    replace (year - 1900 + 1900) with year by lia.
    replace (month - 1 + 1) with month by lia.
    pose proof (days_from_civil_range year month day Hvalid Hyear).
    unfold time_t_range. lia. }
  assert (Hcivil : calendar (civil (createDate year month day))
                   = (year - 1900, month - 1, day, 0, 0, 0)).
  { rewrite Hcreate. rewrite (civil_gmtime offset) by (assumption || apply wrap64_representable).
    rewrite to_time_t_from_time_t by assumption.
    replace (timegm t - offset + offset) with (timegm t) by lia.
    by rewrite gmtime_timegm. }
  split; [exact Hcivil|].
  unfold calendar in Hcivil. injection Hcivil as Hy Hm Hd _ _ _.
  split; [unfold getDayOfMonth; fold (civil (createDate year month day)); exact Hd|].
  unfold formatDate. fold (civil (createDate year month day)). rewrite Hy, Hm, Hd.
  replace (year - 1900 + 1900) with year by lia.
  replace (month - 1 + 1) with month by lia. reflexivity.
Qed.

Lemma civil_from_days_inj z1 z2 : civil_from_days z1 = civil_from_days z2 -> z1 = z2.
Proof.
  intros Heq.
  pose proof (days_from_civil_from_days z1) as H1.
  pose proof (days_from_civil_from_days z2) as H2.
  rewrite Heq in H1. destruct (civil_from_days z2) as [[y m] d]. congruence.
Qed.

(** X5: in a zone that keeps [offset] seconds from UTC all year, [isSameDay]
    holds exactly when the two dates fall on the same day of that zone: the
    day counts of their seconds shifted by the offset agree; the time of day
    and the fraction of a second do not matter. *)
Theorem isSameDay_days `{CLibrary} (offset : Z) (date1 date2 : Date) :
  fixed_offset offset ->
  representable date1 -> representable date2 ->
  isSameDay date1 date2 = true
  <-> (to_time_t date1 + offset) / 86400 = (to_time_t date2 + offset) / 86400.
Proof.
  intros [Hlocal _] Hr1 Hr2.
  unfold isSameDay. rewrite !Hlocal by assumption. unfold gmtime.
  split.
  - intros Hsame. apply civil_from_days_inj.
    destruct (civil_from_days ((to_time_t date1 + offset) / 86400)) as [[y1 m1] d1].
    destruct (civil_from_days ((to_time_t date2 + offset) / 86400)) as [[y2 m2] d2].
    cbn [tm_year tm_mon tm_mday] in Hsame.
    apply andb_true_iff in Hsame as [Hsame Hd].
    apply andb_true_iff in Hsame as [Hy Hm].
    apply Z.eqb_eq in Hy, Hm, Hd. repeat f_equal; lia.
  - intros ->.
    destruct (civil_from_days ((to_time_t date2 + offset) / 86400)) as [[y2 m2] d2].
    cbn [tm_year tm_mon tm_mday]. by rewrite !Z.eqb_refl.
Qed.

(** X6: in a zone that keeps one offset from UTC all year, the day of the
    week of a representable date is within 0..6, so the name table is never
    read out of bounds, and a number of whole weeks that is not negative,
    added to a date from the epoch onwards without leaving the range of the
    clock, keeps it. *)
Theorem day_of_week `{CLibrary} (offset : Z) (date : Date) (weeks : Z) :
  fixed_offset offset ->
  representable date ->
  0 <= getDayOfWeek date <= 6 /\
  In (getDayOfWeekName date) days /\
  (0 <= date -> 0 <= weeks ->
   date + weeks * 7 * 86400 * ticks_per_second < 9223372036854775808 ->
   addWeeks date weeks = date + weeks * 7 * 86400 * ticks_per_second /\
   getDayOfWeek (addWeeks date weeks) = getDayOfWeek date /\
   getDayOfWeekName (addWeeks date weeks) = getDayOfWeekName date).
Proof.
  intros [Hlocal _] Hr.
  assert (Hwday : forall d, representable d ->
            getDayOfWeek d = ((to_time_t d + offset) / 86400 + 4) mod 7).
  { intros d Hd. unfold getDayOfWeek. rewrite Hlocal by assumption. apply gmtime_wday. }
  assert (Hrange : 0 <= getDayOfWeek date <= 6) by (rewrite Hwday by assumption; zdiv).
  split; [exact Hrange|]. split.
  - unfold getDayOfWeekName. apply nth_In. simpl. lia.
  - intros Hdate Hweeks Hend. unfold ticks_per_second in Hend.
    assert (Hadd : addWeeks date weeks = date + weeks * 7 * 86400 * ticks_per_second).
    { unfold addWeeks, plus, hours, ticks_per_second.
      rewrite (wrap32_id (24 * 7 * weeks)) by lia.
      rewrite (wrap64_id (24 * 7 * weeks * 3600 * 1000000000))
        by (unfold representable; lia).
      rewrite wrap64_id by (unfold representable; lia). lia. }
    split; [exact Hadd|].
    assert (Hsame : getDayOfWeek (addWeeks date weeks) = getDayOfWeek date).
    { rewrite !Hwday by (assumption || (rewrite Hadd; unfold representable, ticks_per_second; lia)).
      rewrite Hadd. unfold to_time_t, ticks_per_second.
      assert (Hq : Z.quot (date + weeks * 7 * 86400 * 1000000000) 1000000000
                   = Z.quot date 1000000000 + 604800 * weeks) by zdiv.
      rewrite Hq. zdiv. }
    split; [exact Hsame|]. unfold getDayOfWeekName. by rewrite Hsame.
Qed.

(** X7: [isLeapYear] is the divisibility rule (by 4 and not by 100, or by
    400) for every year, negative years included although [%] truncates;
    for the twelve months [getDaysInMonth] is 29 for February of a leap
    year, 28 for any other February, 30 for April, June, September and
    November, and 31 otherwise. *)
Theorem days_in_month (year month : Z) :
  isLeapYear year = leap_year year /\
  (isLeapYear year = true <->
   year mod 4 = 0 /\ (year mod 100 <> 0 \/ year mod 400 = 0)) /\
  (1 <= month <= 12 ->
   getDaysInMonth year month = last_day_of_month year month /\
   28 <= getDaysInMonth year month <= 31 /\
   (getDaysInMonth year month = 29 <-> month = 2 /\ isLeapYear year = true)).
Proof.
  split; [apply isLeapYear_leap_year|].
  split; [rewrite isLeapYear_leap_year; apply leap_year_true|].
  intros Hmonth.
  rewrite getDaysInMonth_last_day by assumption.
  split; [reflexivity|]. split; [apply last_day_bounds|].
  rewrite isLeapYear_leap_year. unfold last_day_of_month.
  each_month Hmonth; simpl; try (split; [lia | intros [? _]; lia]).
  destruct (leap_year year); split; try lia; try tauto.
Qed.

(** The samples are read in the zone of India, five and a half hours east
    of UTC all year. *)
Definition india : CLibrary := fixed_zone 19800.

Section OnSamples.
Existing Instance india.

Lemma sample_in_range days (year month day : Z) :
  0 <= days <= 40000 -> 2000 <= year <= 2100 -> valid_date year month day ->
  in_range_by days (createDate year month day).
Proof.
  intros Hdays Hyear Hvalid.
  pose proof (days_from_civil_range year month day Hvalid ltac:(lia)) as Hrange.
  assert (Hcreate : createDate year month day
                    = (days_from_civil year month day * 86400 - 19800) * ticks_per_second).
  { unfold createDate. destruct Hvalid as [Hm _]. rewrite !wrap32_id by lia.
    cbn [mktime india fixed_zone]. rewrite timegm_month by (cbn [tm_mon]; lia).
    cbn [tm_sec tm_min tm_hour tm_mday tm_mon tm_year].
    replace (year - 1900 + 1900) with year by lia.
    replace (month - 1 + 1) with month by lia.
    rewrite from_time_t_id by (unfold time_t_range; lia). f_equal. lia. }
  assert (Hnear : -51000 <= days_from_civil year month day <= 51000).
  { destruct Hvalid as [Hm Hd].
    rewrite days_from_civil_month_index by assumption.
    rewrite <- month_length_index in Hd by assumption.
    pose proof (first_of_month_le (12 * 2000) (12 * year + (month - 1)) ltac:(lia)) as Hlo.
    pose proof (first_of_month_mono (12 * year + (month - 1)) (12 * 2101) ltac:(lia)) as Hhi.
    change (first_of_month (12 * 2000)) with 10957 in Hlo.
    change (first_of_month (12 * 2101)) with 47847 in Hhi.
    lia. }
  rewrite Hcreate. unfold in_range_by, representable, ticks_per_second. lia.
Qed.

Lemma valid_date_sample year month day :
  (1 <=? month) && (month <=? 12) && (1 <=? day) && (day <=? last_day_of_month year month)
  = true ->
  valid_date year month day.
Proof.
  rewrite !andb_true_iff, !Z.leb_le. unfold valid_date. lia.
Qed.

(** From 31 January 2024 one month on is 29 February 2024, and thirteen
    months back from 31 March 2024 is 28 February 2023. *)
Lemma addMonths_reads_back_witness :
  getDayOfMonth (addMonths (createDate 2024 1 31) 1) = Z.min 31 29 /\
  formatDate (addMonths (createDate 2024 3 31) (-13)) = "2023-02-28".
Proof.
  destruct (@addMonths_reads_back india 19800 (createDate 2024 1 31) 1
              (fixed_zone_fixed_offset 19800)
              (sample_in_range (31 * Z.abs 1 + 31) 2024 1 31 ltac:(simpl; lia) ltac:(lia)
                 (valid_date_sample 2024 1 31 eq_refl)))
    as (_ & Hday & _).
  split; [rewrite Hday; vm_compute; reflexivity | vm_compute; reflexivity].
Defined.

Lemma addMonths_direction_witness :
  createDate 2024 1 31 < addMonths (createDate 2024 1 31) 1 /\
  addMonths (createDate 2024 3 31) (-13) < createDate 2024 3 31.
Proof.
  destruct (@addMonths_direction india 19800 (createDate 2024 1 31) 1
              (fixed_zone_fixed_offset 19800)
              (sample_in_range (31 * Z.abs 1 + 31) 2024 1 31 ltac:(simpl; lia) ltac:(lia)
                 (valid_date_sample 2024 1 31 eq_refl)))
    as [Hforward _].
  destruct (@addMonths_direction india 19800 (createDate 2024 3 31) (-13)
              (fixed_zone_fixed_offset 19800)
              (sample_in_range (31 * Z.abs (-13) + 31) 2024 3 31 ltac:(simpl; lia)
                 ltac:(lia)
                 (valid_date_sample 2024 3 31 eq_refl)))
    as [_ Hback].
  split; [apply Hforward; lia | apply Hback; lia].
Defined.

Lemma createDate_reads_back_witness :
  formatDate (createDate 2024 2 29) = "2024-02-29" /\
  getDayOfMonth (createDate 2024 2 29) = 29.
Proof.
  destruct (@createDate_reads_back india 19800 2024 2 29 (fixed_zone_fixed_offset 19800)
              ltac:(lia) ltac:(lia) (valid_date_sample 2024 2 29 eq_refl))
    as (_ & Hday & Hformat).
  split; [exact Hformat | exact Hday].
Defined.

(** Eighteen hours after the midnight that begins 29 February 2024 in
    India is the same day there; twenty-four hours after is the next. *)
Lemma isSameDay_days_witness :
  isSameDay (plus (createDate 2024 2 29) (hours 18)) (createDate 2024 2 29) = true /\
  isSameDay (plus (createDate 2024 2 29) (hours 24)) (createDate 2024 2 29) = false.
Proof.
  assert (Hr : forall d, d = wrap64 d -> representable d)
    by (intros d ->; apply wrap64_representable).
  split.
  - apply (@isSameDay_days india 19800 _ _ (fixed_zone_fixed_offset 19800));
      [by apply Hr | by apply Hr | vm_compute; reflexivity].
  - apply not_true_is_false.
    rewrite (@isSameDay_days india 19800 _ _ (fixed_zone_fixed_offset 19800))
      by (by apply Hr).
    vm_compute. congruence.
Defined.

(** 29 February 2024 was a Thursday, and so was the day four weeks on. *)
Lemma day_of_week_witness :
  getDayOfWeekName (createDate 2024 2 29) = "Thursday" /\
  getDayOfWeek (addWeeks (createDate 2024 2 29) 4) = getDayOfWeek (createDate 2024 2 29).
Proof.
  destruct (@day_of_week india 19800 (createDate 2024 2 29) 4 (fixed_zone_fixed_offset 19800))
    as (_ & _ & Hweeks).
  { split; vm_compute; congruence. }
  split; [vm_compute; reflexivity|].
  apply Hweeks; vm_compute; congruence.
Defined.
End OnSamples.
End DateFacts.

(** ** Identifiers *)

Module IdGeneratorFacts.
Import IdGenerator.

(** Reading a decimal numeral back: the value of a digit, and of a string of
    digits from the left. *)
Definition digit_value (c : ascii) : N := (N_of_ascii c - 48)%N.

Fixpoint decimal_value_from (acc : N) (s : string) : N :=
  match s with
  | EmptyString => acc
  | String c rest => decimal_value_from (acc * 10 + digit_value c) rest
  end.

Definition decimal_value (s : string) : N := decimal_value_from 0 s.

Lemma digit_value_pretty d : (d < 10)%N -> digit_value (pretty_N_char d) = d.
Proof.
  intros Hd.
  assert (Hc : (d = 0 \/ d = 1 \/ d = 2 \/ d = 3 \/ d = 4 \/ d = 5 \/ d = 6 \/ d = 7
               \/ d = 8 \/ d = 9)%N) by lia.
  destruct Hc as [->|[->|[->|[->|[->|[->|[->|[->|[->| ->]]]]]]]]]; reflexivity.
Qed.

Lemma decimal_value_pretty_go x :
  exists p, forall acc s,
    decimal_value_from acc (pretty_N_go x s) = decimal_value_from (acc * p + x) s.
Proof.
  induction (N.lt_wf_0 x) as [x _ IH].
  destruct (decide (x = 0)%N) as [->|Hx].
  - exists 1%N. intros acc s. rewrite pretty_N_go_0. f_equal. lia.
  - destruct (IH (x `div` 10)%N) as [p Hp]; [apply N.div_lt; lia|].
    exists (p * 10)%N. intros acc s.
    rewrite pretty_N_go_step by lia. rewrite Hp. simpl.
    rewrite digit_value_pretty by (apply N.mod_lt; lia).
    f_equal. pose proof (N.div_mod x 10). lia.
Qed.

Lemma decimal_value_pretty (n : N) : decimal_value (pretty n) = n.
Proof.
  unfold decimal_value, pretty, pretty_N. case_decide; [by subst|].
  destruct (decimal_value_pretty_go n) as [p Hp]. rewrite Hp. simpl. lia.
Qed.

Lemma decimal_value_fill k s :
  decimal_value (fill k "0" +:+ s) = decimal_value s.
Proof. unfold decimal_value. induction k as [|k IH]; [done|]. simpl. exact IH. Qed.

(** X8: the identifiers of one prefix are distinct for distinct counter
    values: the digits after the prefix read back as the counter value the
    id was drawn at, with or without padding.  Each draw moves the 64-bit
    counter on by one, wrapping at 2^64, and an id drawn below one million
    is the prefix, an underscore and exactly six digits. *)
Theorem generated_ids_distinct (prefix : string) (counter1 counter2 : Z) :
  0 <= counter1 -> 0 <= counter2 ->
  (exists digits,
     (generateSimple prefix counter1).2 = Returned (prefix +:+ "_" +:+ digits) /\
     decimal_value digits = Z.to_N counter1 /\
     (counter1 < 1000000 -> String.length digits = 6%nat)) /\
  (generateSimple prefix counter1).1 = (counter1 + 1) mod 2 ^ 64 /\
  ((generateSimple prefix counter1).2 = (generateSimple prefix counter2).2 ->
   counter1 = counter2).
Proof.
  intros H1 H2.
  assert (Hread : forall c, decimal_value (setw 6 "0" (pretty (Z.to_N c))) = Z.to_N c).
  { intros c. unfold setw. rewrite decimal_value_fill. apply decimal_value_pretty. }
  split; [|split; [reflexivity|]].
  - eexists. split; [reflexivity|]. split; [apply Hread|].
    intros Hsmall. unfold setw.
    assert (Hlen : forall k s, String.length (fill k "0" +:+ s) = (k + String.length s)%nat).
    { intros k s. induction k as [|k IH]; [done|]. simpl. by rewrite IH. }
    rewrite Hlen.
    assert (Hshort : (String.length (pretty (Z.to_N counter1)) <= 6)%nat).
    { assert (Hn : (Z.to_N counter1 < 1000000)%N) by lia.
      revert Hn. generalize (Z.to_N counter1). clear. intros n Hn.
      unfold pretty, pretty_N. case_decide; [simpl; lia|].
      assert (Hgo : forall k x s, (x < 10 ^ N.of_nat k)%N ->
                (String.length (pretty_N_go x s) <= k + String.length s)%nat).
      { clear. induction k as [|k IH]; intros x s Hx.
        - assert (x = 0%N) by (simpl in Hx; lia). subst. rewrite pretty_N_go_0. lia.
        - destruct (decide (x = 0)%N) as [->|Hpos]; [rewrite pretty_N_go_0; lia|].
          rewrite pretty_N_go_step by lia.
          etrans; [apply IH|simpl; lia].
          apply N.Div0.div_lt_upper_bound.
          replace (10 ^ N.of_nat (S k))%N with (10 * 10 ^ N.of_nat k)%N in Hx; [done|].
          rewrite Nat2N.inj_succ, N.pow_succ_r'. reflexivity. }
      specialize (Hgo 6%nat n ""). simpl in Hgo. apply Hgo. exact Hn. }
    lia.
  - unfold generateSimple. simpl. intros Heq.
    injection Heq as Heq.
    apply (inj (String.app prefix)) in Heq.
    apply (inj (String.app "_")) in Heq.
    apply (f_equal decimal_value) in Heq. rewrite !Hread in Heq. lia.
Qed.

Lemma generated_ids_distinct_witness :
  (generateSimple "TXN" 1).2 = Returned "TXN_000001" /\
  ((generateSimple "TXN" 1).2 = (generateSimple "TXN" 1).2 -> 1 = 1).
Proof.
  destruct (generated_ids_distinct "TXN" 1 1) as (_ & _ & Hinj); [lia | lia |].
  split; [reflexivity | exact Hinj].
Defined.
End IdGeneratorFacts.

(** ** The order of iteration and the secondary indexes *)

Module IndexFacts.
Import RepositoryFacts ValuationFacts.

Lemma ascii_compare_trans a b c :
  Ascii.compare a b <> Gt -> Ascii.compare b c <> Gt -> Ascii.compare a c <> Gt.
Proof.
  unfold Ascii.compare. rewrite !N.compare_le_iff. lia.
Qed.

Lemma ascii_compare_lt_trans a b c :
  Ascii.compare a b = Lt -> Ascii.compare b c <> Gt -> Ascii.compare a c = Lt.
Proof.
  unfold Ascii.compare. rewrite N.compare_le_iff, !N.compare_lt_iff. lia.
Qed.

Lemma ascii_compare_le_lt_trans a b c :
  Ascii.compare a b <> Gt -> Ascii.compare b c = Lt -> Ascii.compare a c = Lt.
Proof.
  unfold Ascii.compare. rewrite N.compare_le_iff, !N.compare_lt_iff. lia.
Qed.

Lemma string_compare_trans s1 : forall s2 s3,
  String.compare s1 s2 <> Gt -> String.compare s2 s3 <> Gt -> String.compare s1 s3 <> Gt.
Proof.
  induction s1 as [|a s1 IH]; intros [|b s2] [|c s3]; simpl; try done.
  destruct (Ascii.compare a b) eqn:Hab; [| |done].
  - apply Ascii.compare_eq_iff in Hab as ->.
    destruct (Ascii.compare b c); [apply IH | done | done].
  - intros _. destruct (Ascii.compare b c) eqn:Hbc; [| |done].
    + apply Ascii.compare_eq_iff in Hbc as ->. by rewrite Hab.
    + intros _. by rewrite (ascii_compare_lt_trans a b c) by (done || by rewrite Hbc).
Qed.

#[global] Instance string_le_total : Total string_le.
Proof. intros a b. apply String.leb_total. Qed.

#[global] Instance string_le_trans : Transitive string_le.
Proof.
  intros a b c. unfold string_le, String.leb. intros Hab Hbc.
  pose proof (string_compare_trans a b c) as H.
  destruct (String.compare a b), (String.compare b c), (String.compare a c);
    try done; exfalso; apply H; done.
Qed.

(** A [std::set] is walked in ascending order. *)
Lemma set_iteration_sorted s : StronglySorted string_le (set_iteration s).
Proof. apply StronglySorted_merge_sort; apply _. Qed.

(** Looking the ids of an ascending walk up in a map that keeps every value
    under its own id gives the values in ascending order of their ids. *)
Lemma omap_ids_sorted {V} (id : V -> string) (m : gmap string V) ks :
  (forall k v, m !! k = Some v -> id v = k) ->
  StronglySorted string_le ks ->
  StronglySorted string_le (id <$> omap (fun k => m !! k) ks).
Proof.
  intros Hkeys. induction 1 as [|k ks Hs IH Hall]; simpl; [constructor|].
  destruct (m !! k) as [v|] eqn:Hget; [|exact IH].
  simpl. constructor; [exact IH|].
  rewrite (Hkeys _ _ Hget). apply Forall_forall. intros x Hin.
  apply list_elem_of_fmap in Hin as (v' & -> & Hin).
  apply list_elem_of_omap in Hin as (k' & Hk' & Hget').
  rewrite (Hkeys _ _ Hget'). rewrite Forall_forall in Hall. by apply Hall.
Qed.

Lemma omap_ids_NoDup {V} (id : V -> string) (m : gmap string V) ks :
  (forall k v, m !! k = Some v -> id v = k) ->
  NoDup ks -> NoDup (id <$> omap (fun k => m !! k) ks).
Proof.
  intros Hkeys. induction 1 as [|k ks Hk Hnd IH]; simpl; [constructor|].
  destruct (m !! k) as [v|] eqn:Hget; [|exact IH].
  simpl. constructor; [|exact IH].
  rewrite (Hkeys _ _ Hget). intros Hin.
  apply list_elem_of_fmap in Hin as (v' & Hid & Hin).
  apply list_elem_of_omap in Hin as (k' & Hk' & Hget').
  rewrite (Hkeys _ _ Hget') in Hid. by subst.
Qed.

(** An index over the values of a map is exact for a projection when it
    lists under each key the ids of the stored values with that key. *)
Definition index_exact {V} (proj : V -> string) (m : gmap string V)
    (idx : gmap string (gset string)) : Prop :=
  forall s k, k ∈ default ∅ (idx !! s) <-> exists v, m !! k = Some v /\ proj v = s.

Lemma index_exact_empty {V} (proj : V -> string) : index_exact proj ∅ ∅.
Proof.
  intros s k. rewrite lookup_empty. simpl. split; [set_solver|].
  intros (v & Hget & _). by rewrite lookup_empty in Hget.
Qed.

Lemma index_exact_insert_fresh {V} (proj : V -> string) m idx id v :
  index_exact proj m idx -> m !! id = None ->
  index_exact proj (<[id := v]> m) (index_insert idx (proj v) id).
Proof.
  intros Hwf Hfresh s k. rewrite index_insert_elem, (Hwf s k), lookup_insert.
  split.
  - intros [[-> ->] | (v' & Hget & Hs)].
    + exists v. by rewrite decide_True.
    + exists v'. rewrite decide_False by congruence. done.
  - intros (v' & Hget & Hs). case_decide; [left; naive_solver | right; eauto].
Qed.

Lemma index_exact_replace {V} (proj : V -> string) m idx id old v :
  index_exact proj m idx -> m !! id = Some old ->
  index_exact proj (<[id := v]> m) (index_insert (index_erase idx (proj old) id) (proj v) id).
Proof.
  intros Hwf Hold s k. rewrite index_insert_elem, index_erase_elem, (Hwf s k), lookup_insert.
  split.
  - intros [[-> ->] | [(v' & Hget & Hs) Hnot]].
    + exists v. by rewrite decide_True.
    + exists v'. rewrite decide_False; [done|].
      intros <-. apply Hnot. split; [|done]. congruence.
  - intros (v' & Hget & Hs). case_decide as Hk; [left; naive_solver|].
    right. split; [eauto|]. intros [_ ->]. done.
Qed.

Lemma index_exact_delete {V} (proj : V -> string) m idx id old :
  index_exact proj m idx -> m !! id = Some old ->
  index_exact proj (delete id m) (index_erase idx (proj old) id).
Proof.
  intros Hwf Hold s k. rewrite index_erase_elem, (Hwf s k), lookup_delete.
  split.
  - intros [(v' & Hget & Hs) Hnot]. exists v'. rewrite decide_False; [done|].
    intros <-. apply Hnot. split; [|done]. congruence.
  - intros (v' & Hget & Hs). case_decide as Hk; [done|].
    split; [eauto|]. intros [_ ->]. done.
Qed.

(** Reading an exact index: the stored values with the key, each once, in
    ascending order of their ids. *)
Lemma index_read {V} (id proj : V -> string) (m : gmap string V) idx s :
  (forall k v, m !! k = Some v -> id v = k) ->
  index_exact proj m idx ->
  let result :=
    match idx !! s with
    | Some ids => omap (fun k => m !! k) (set_iteration ids)
    | None => []
    end in
  (forall v, v ∈ result <-> m !! id v = Some v /\ proj v = s) /\
  NoDup (id <$> result) /\
  StronglySorted string_le (id <$> result).
Proof.
  intros Hkeys Hidx result. pose proof (Hidx s) as Hs. subst result.
  destruct (idx !! s) as [ids|]; simpl in Hs.
  - split; [|split].
    + intros v. rewrite list_elem_of_omap. split.
      * intros (k & Hk & Hget). pose proof (Hkeys _ _ Hget) as <-.
        apply set_iteration_elem, Hs in Hk as (v' & Hget' & Hproj). by simplify_eq.
      * intros [Hget Hproj]. exists (id v). split; [|done].
        apply set_iteration_elem, Hs. eauto.
    + apply omap_ids_NoDup; [done | apply set_iteration_NoDup].
    + apply omap_ids_sorted; [done | apply set_iteration_sorted].
  - split; [|split; constructor].
    intros v. split; [intros Hin; inversion Hin|].
    intros [Hget Hproj]. destruct (Hs (id v)) as [_ Hback].
    exfalso. apply (not_elem_of_empty (C := gset string) (id v)). apply Hback. eauto.
Qed.
End IndexFacts.

(** ** The SIP repository *)

Module SIPRepositoryFacts.
Import InMemorySIPRepository RepositoryFacts ValuationFacts IndexFacts.

(** The repository is consistent when every SIP is stored under its own id
    and both indexes are exact. *)
Definition consistent (r : t) : Prop :=
  sip_keys_wf r /\
  index_exact SIP.userId (storage r) (userIndex r) /\
  index_exact SIP.fundId (storage r) (fundIndex r).

Lemma empty_consistent : consistent empty.
Proof. split; [apply sip_empty_wf | split; apply index_exact_empty]. Qed.

Lemma add_consistent sip r :
  consistent r -> storage r !! SIP.id sip = None -> consistent (add sip r).
Proof.
  intros (Hkeys & Huser & Hfund) Hfresh.
  split; [by apply sip_add_wf|].
  split; simpl; by apply index_exact_insert_fresh.
Qed.

Lemma update_consistent sip r : consistent r -> consistent (update sip r).1.
Proof.
  intros (Hkeys & Huser & Hfund).
  split; [by apply sip_update_wf|].
  unfold update. destruct (storage r !! SIP.id sip) as [old|] eqn:Hold; [|done].
  pose proof (Hkeys _ _ Hold) as Hid.
  split; simpl; rewrite Hid; by apply index_exact_replace.
Qed.

Lemma remove_consistent id r : consistent r -> consistent (remove id r).1.
Proof.
  intros (Hkeys & Huser & Hfund). unfold remove.
  destruct (storage r !! id) as [old|] eqn:Hold; [|done].
  pose proof (Hkeys _ _ Hold) as Hid.
  split; [|split]; simpl.
  - intros k sip Hget. simpl in Hget. apply lookup_delete_Some in Hget as [_ Hget].
    by apply Hkeys.
  - rewrite Hid. by apply index_exact_delete.
  - rewrite Hid. by apply index_exact_delete.
Qed.

(** X9: a consistent SIP repository (every SIP under its own id, the user
    index and the fund index exact) stays consistent when a SIP with an
    unused id is added, when any SIP is updated, also with another user or
    fund, and when any id is removed; [update] and [remove] report whether the
    id was stored and leave the repository alone when it was not. *)
Theorem sip_repository_consistent (r : t) (sip : SIP.t) (id : string) :
  consistent r ->
  (exists_ (SIP.id sip) r = false -> consistent (add sip r)) /\
  consistent (update sip r).1 /\
  consistent (remove id r).1 /\
  (update sip r).2 = exists_ (SIP.id sip) r /\
  (remove id r).2 = exists_ id r /\
  (exists_ (SIP.id sip) r = false -> (update sip r).1 = r) /\
  (exists_ id r = false -> (remove id r).1 = r) /\
  getById id (remove id r).1 = None.
Proof.
  intros Hwf.
  assert (Hex : forall k, exists_ k r = false -> storage r !! k = None).
  { intros k Hk. apply bool_decide_eq_false in Hk.
    destruct (storage r !! k); [exfalso; eauto | done]. }
  split; [intros Hfresh; apply add_consistent; auto|].
  split; [by apply update_consistent|].
  split; [by apply remove_consistent|].
  unfold update, remove, exists_, getById.
  split; [by destruct (storage r !! SIP.id sip)|].
  split; [by destruct (storage r !! id)|].
  split; [intros Hk; by rewrite (Hex _ Hk)|].
  split; [intros Hk; by rewrite (Hex _ Hk)|].
  destruct (storage r !! id) eqn:E; simpl; [apply lookup_delete_eq | exact E].
Qed.

Lemma sip_repository_consistent_witness :
  consistent (add Sample.sip1 empty) /\
  (remove "SIP_000001" empty).1 = empty.
Proof.
  destruct (sip_repository_consistent empty Sample.sip1 "SIP_000001" empty_consistent)
    as (Hadd & _ & _ & _ & _ & _ & Hremove & _).
  split; [apply Hadd; reflexivity | apply Hremove; reflexivity].
Defined.

(** What the user index gives back on a consistent repository. *)
Lemma getByUserId_exact r userId :
  consistent r ->
  (forall sip, sip ∈ getByUserId userId r
               <-> getById (SIP.id sip) r = Some sip /\ SIP.userId sip = userId) /\
  NoDup (SIP.id <$> getByUserId userId r) /\
  StronglySorted string_le (SIP.id <$> getByUserId userId r).
Proof.
  intros (Hkeys & Huser & _).
  exact (index_read SIP.id SIP.userId (storage r) (userIndex r) userId Hkeys Huser).
Qed.

(** X10: on a consistent repository [getByUserId] returns exactly the stored
    SIPs of the user and [getByFundId] exactly those of the fund, each once
    and in ascending order of the SIP ids; [getByUserIdAndState] returns those
    of the user's SIPs that are in the state. *)
Theorem sip_queries_exact (r : t) (userId fundId : string) (state : SIPState) :
  consistent r ->
  (forall sip, sip ∈ getByUserId userId r
               <-> getById (SIP.id sip) r = Some sip /\ SIP.userId sip = userId) /\
  NoDup (SIP.id <$> getByUserId userId r) /\
  StronglySorted string_le (SIP.id <$> getByUserId userId r) /\
  (forall sip, sip ∈ getByFundId fundId r
               <-> getById (SIP.id sip) r = Some sip /\ SIP.fundId sip = fundId) /\
  NoDup (SIP.id <$> getByFundId fundId r) /\
  StronglySorted string_le (SIP.id <$> getByFundId fundId r) /\
  (forall sip, sip ∈ getByUserIdAndState userId state r
               <-> getById (SIP.id sip) r = Some sip /\ SIP.userId sip = userId /\
                   SIP.state sip = state).
Proof.
  intros (Hkeys & Huser & Hfund).
  destruct (index_read SIP.id SIP.userId (storage r) (userIndex r) userId Hkeys Huser)
    as (Hu1 & Hu2 & Hu3).
  destruct (index_read SIP.id SIP.fundId (storage r) (fundIndex r) fundId Hkeys Hfund)
    as (Hf1 & Hf2 & Hf3).
  split; [exact Hu1|]. split; [exact Hu2|]. split; [exact Hu3|].
  split; [exact Hf1|]. split; [exact Hf2|]. split; [exact Hf3|].
  intros sip. unfold getByUserIdAndState.
  rewrite list_elem_of_In, filter_In, <- list_elem_of_In, Hu1, bool_decide_eq_true.
  tauto.
Qed.

Lemma sip_queries_exact_witness :
  Sample.sip1 ∈ getByUserId (SIP.userId Sample.sip1) (add Sample.sip1 empty).
Proof.
  destruct (sip_queries_exact (add Sample.sip1 empty) (SIP.userId Sample.sip1) "" ACTIVE)
    as (Hin & _).
  - apply add_consistent; [apply empty_consistent | reflexivity].
  - apply Hin. split; reflexivity.
Defined.

(** On a repository that keeps every SIP under its own id, the due SIPs
    have distinct ids. *)
Lemma getDueSIPs_NoDup r asOfDate :
  sip_keys_wf r -> NoDup (SIP.id <$> getDueSIPs asOfDate r).
Proof.
  intros Hkeys. unfold getDueSIPs, map_iteration.
  assert (Hnd : NoDup (SIP.id <$> (map_to_list (storage r)).*2)).
  { assert (Heq : SIP.id <$> (map_to_list (storage r)).*2 = (map_to_list (storage r)).*1).
    { rewrite <- list_fmap_compose. apply list_fmap_ext.
      intros i [k s] Hl. simpl. apply Hkeys.
      apply elem_of_map_to_list. eapply list_elem_of_lookup_2; eauto. }
    rewrite Heq. apply NoDup_fst_map_to_list. }
  revert Hnd. generalize ((map_to_list (storage r)).*2). intros l.
  induction l as [|s l IH]; simpl; [done|].
  intros Hnd. apply NoDup_cons in Hnd as [Hnot Hnd].
  destruct (_ && _); simpl; [|by apply IH].
  constructor; [|by apply IH].
  intros Hs. apply Hnot.
  apply list_elem_of_fmap in Hs as (s' & Hid & Hs).
  apply list_elem_of_In, filter_In in Hs as [Hs _].
  apply list_elem_of_fmap. exists s'. split; [done | by apply list_elem_of_In].
Qed.

(** The repository's test for a due SIP is the scheduler's. *)
Lemma getDueSIPs_elem r asOfDate sip :
  sip ∈ getDueSIPs asOfDate r
  <-> (exists k, storage r !! k = Some sip) /\ SIPScheduler.isDue sip asOfDate = true.
Proof.
  assert (Hdue : bool_decide (SIP.state sip = ACTIVE) && (SIP.nextExecutionDate sip <=? asOfDate)
                 = SIPScheduler.isDue sip asOfDate).
  { unfold SIPScheduler.isDue, DateUtils.isOnOrBefore.
    by destruct (bool_decide (SIP.state sip = ACTIVE)). }
  unfold getDueSIPs, map_iteration.
  rewrite list_elem_of_In, filter_In, <- list_elem_of_In, Hdue, list_elem_of_fmap.
  split.
  - intros [([k s] & -> & Hk) Hd]. apply elem_of_map_to_list in Hk. eauto.
  - intros [[k Hk] Hd]. split; [|done]. exists (k, sip). split; [done|].
    by apply elem_of_map_to_list.
Qed.

(** X11: the SIPs [getDueSIPs] hands to the scheduler are exactly the stored
    SIPs that the scheduler's own test [isDue] accepts; a PAUSED or STOPPED
    SIP is never among them, whatever its date, and on a repository that
    keeps every SIP under its own id no SIP comes twice. *)
Theorem due_sips_exact (r : t) (asOfDate : Date) :
  (forall sip, sip ∈ getDueSIPs asOfDate r
               <-> (exists k, storage r !! k = Some sip) /\
                   SIPScheduler.isDue sip asOfDate = true) /\
  (forall sip, sip ∈ getDueSIPs asOfDate r ->
               SIP.state sip = ACTIVE /\ SIP.nextExecutionDate sip <= asOfDate) /\
  (sip_keys_wf r -> NoDup (SIP.id <$> getDueSIPs asOfDate r)).
Proof.
  split; [intros sip; apply getDueSIPs_elem|]. split; [|apply getDueSIPs_NoDup].
  intros sip Hs. apply getDueSIPs_elem in Hs as [_ Hd].
  unfold SIPScheduler.isDue, DateUtils.isOnOrBefore in Hd.
  case_bool_decide as Hst; simpl in Hd; [|done].
  apply Z.leb_le in Hd. done.
Qed.
End SIPRepositoryFacts.

(** ** Lifecycle operations on a consistent repository *)

Module LifecycleRoundTrip.
Import InMemorySIPRepository SIPServiceImpl RepositoryFacts ValuationFacts IndexFacts.
Import SIPRepositoryFacts.

(** Erasing an id an index lists and inserting it again under the same key
    gives the index back. *)
Lemma index_reinsert idx key elem :
  elem ∈ default ∅ (idx !! key) -> index_insert (index_erase idx key elem) key elem = idx.
Proof.
  intros Hin. unfold index_insert, index_erase.
  rewrite lookup_insert_eq, insert_insert_eq. simpl.
  destruct (idx !! key) as [ids|] eqn:E; simpl in *; [|set_solver].
  replace (ids ∖ {[elem]} ∪ {[elem]}) with ids; [by apply insert_id|].
  rewrite difference_union_L. set_solver.
Qed.

(** An update that keeps the owner and the fund of the SIP rewrites the
    stored SIP and nothing else. *)
Lemma update_in_place sip old r :
  consistent r ->
  storage r !! SIP.id sip = Some old ->
  SIP.userId sip = SIP.userId old -> SIP.fundId sip = SIP.fundId old ->
  update sip r = (setStorage (<[SIP.id sip := sip]> (storage r)) r, true).
Proof.
  intros (Hkeys & Huser & Hfund) Hold Hu Hf. pose proof (Hkeys _ _ Hold) as Hid.
  unfold update. rewrite Hold. f_equal.
  unfold addToIndexes, removeFromIndexes, setStorage. simpl.
  rewrite Hu, Hf, Hid.
  rewrite !index_reinsert; [done | apply Hfund; eauto | apply Huser; eauto].
Qed.

(** X12: pausing an ACTIVE SIP of a consistent repository returns and stores
    the SIP as PAUSED with everything else as it was, the next execution date
    included; while it is paused no date makes it due; and unpausing it
    returns and gives back the repository exactly as it was before the pause. *)
Theorem pause_unpause_restores (r : t) (sipId : string) (sip : SIP.t) :
  consistent r ->
  getById sipId r = Some sip ->
  SIP.state sip = ACTIVE ->
  exists paused,
    pauseSIP sipId r = (paused, Returned tt) /\
    getById sipId paused = Some (SIP.setState PAUSED sip) /\
    (forall other, other <> sipId -> getById other paused = getById other r) /\
    (forall asOfDate due, due ∈ getDueSIPs asOfDate paused -> SIP.id due <> sipId) /\
    unpauseSIP sipId paused = (r, Returned tt).
Proof.
  intros Hwf Hget Hstate. pose proof Hwf as (Hkeys & _).
  pose proof (Hkeys _ _ Hget) as Hid.
  set (paused := setStorage (<[sipId := SIP.setState PAUSED sip]> (storage r)) r).
  assert (Hpause : update (SIP.setState PAUSED sip) r = (paused, true)).
  { rewrite (update_in_place _ sip); try done; simpl; by rewrite Hid. }
  assert (Hpaused : consistent paused).
  { replace paused with (update (SIP.setState PAUSED sip) r).1 by (by rewrite Hpause).
    by apply update_consistent. }
  assert (Hback : SIP.setState ACTIVE (SIP.setState PAUSED sip) = sip).
  { destruct sip. simpl in *. by subst. }
  assert (Hrestored : update sip paused = (r, true)).
  { rewrite (update_in_place _ (SIP.setState PAUSED sip)); try done.
    - f_equal. subst paused. unfold setStorage. simpl. rewrite Hid.
      rewrite insert_insert_eq, insert_id by done. by destruct r.
    - subst paused. simpl. rewrite Hid. apply lookup_insert_eq. }
  exists paused. split; [|split; [|split; [|split]]].
  - unfold pauseSIP, bind, validateSIPExists, repository_update, ret. rewrite Hget, Hstate.
    simpl. by rewrite Hpause.
  - unfold getById. subst paused. simpl. apply lookup_insert_eq.
  - intros other Hne. unfold getById. subst paused. simpl. by apply lookup_insert_ne.
  - intros asOfDate due Hdue Heq.
    unfold getDueSIPs, map_iteration in Hdue.
    apply list_elem_of_In, filter_In in Hdue as [Hin Hd].
    apply list_elem_of_In, list_elem_of_fmap in Hin as ([k s] & -> & Hin).
    apply elem_of_map_to_list in Hin. simpl in *.
    destruct Hpaused as (Hk & _). pose proof (Hk _ _ Hin) as Hks. simpl in Hks.
    rewrite Heq in Hks. subst k. rewrite lookup_insert_eq in Hin.
    injection Hin as <-. simpl in Hd. done.
  - unfold unpauseSIP, bind, validateSIPExists, repository_update, ret.
    assert (Hg : getById sipId paused = Some (SIP.setState PAUSED sip))
      by (unfold getById; subst paused; simpl; apply lookup_insert_eq).
    rewrite Hg. simpl. rewrite Hback, Hrestored. reflexivity.
Qed.

Lemma pause_unpause_restores_witness :
  exists paused,
    pauseSIP "SIP_000001" (add Sample.sip1 empty) = (paused, Returned tt) /\
    unpauseSIP "SIP_000001" paused = (add Sample.sip1 empty, Returned tt).
Proof.
  destruct (pause_unpause_restores (add Sample.sip1 empty) "SIP_000001" Sample.sip1)
    as (paused & Hp & _ & _ & _ & Hu).
  - apply add_consistent; [apply empty_consistent | reflexivity].
  - reflexivity.
  - reflexivity.
  - exists paused. split; assumption.
Defined.

(** X13: [add] does not look at what is stored.  Adding a SIP under an id
    that is in use replaces the stored SIP (the count stays), but the index
    entries of the replaced SIP remain: when the owner differs, the previous
    owner's query returns the SIP of the new owner, and the repository is no
    longer consistent. *)
Theorem add_over_stored_id (r : t) (sip old : SIP.t) :
  consistent r ->
  getById (SIP.id sip) r = Some old ->
  SIP.userId old <> SIP.userId sip ->
  getById (SIP.id sip) (add sip r) = Some sip /\
  count (add sip r) = count r /\
  sip ∈ getByUserId (SIP.userId old) (add sip r) /\
  sip ∈ getByUserId (SIP.userId sip) (add sip r) /\
  ~ consistent (add sip r).
Proof.
  intros (Hkeys & Huser & Hfund) Hold Hne. unfold getById in Hold.
  assert (Hget : storage (add sip r) !! SIP.id sip = Some sip)
    by (simpl; apply lookup_insert_eq).
  assert (Hstale : SIP.id sip ∈ default ∅ (userIndex (add sip r) !! SIP.userId old)).
  { simpl. apply index_insert_elem. right. apply Huser. eauto. }
  assert (Hnew : SIP.id sip ∈ default ∅ (userIndex (add sip r) !! SIP.userId sip)).
  { simpl. apply index_insert_elem. by left. }
  assert (Hread : forall u, SIP.id sip ∈ default ∅ (userIndex (add sip r) !! u) ->
                  sip ∈ getByUserId u (add sip r)).
  { intros u Hu. unfold getByUserId.
    destruct (userIndex (add sip r) !! u) as [ids|]; simpl in Hu; [|set_solver].
    apply list_elem_of_omap. exists (SIP.id sip). split; [|exact Hget].
    by apply set_iteration_elem. }
  split; [exact Hget|]. split; [|split; [by apply Hread | split; [by apply Hread|]]].
  - unfold count. simpl. apply map_size_insert_Some. eauto.
  - intros (_ & Huser' & _). apply Huser' in Hstale as (sip' & Hget' & Hu').
    rewrite Hget in Hget'. injection Hget' as <-. by apply Hne.
Qed.

Section OnSamples.
Existing Instance Sample.utc.

Lemma add_over_stored_id_witness :
  let sip :=
    SIP.make "SIP_000001" "USER_000002" "FUND_000001" 500 WEEKLY
      (DateUtils.createDate 2024 3 1) 0 in
  sip ∈ getByUserId (SIP.userId Sample.sip1) (add sip (add Sample.sip1 empty)).
Proof.
  intros sip.
  destruct (add_over_stored_id (add Sample.sip1 empty) sip Sample.sip1)
    as (_ & _ & Hstale & _).
  - apply add_consistent; [apply empty_consistent | reflexivity].
  - reflexivity.
  - discriminate.
  - exact Hstale.
Defined.
End OnSamples.
End LifecycleRoundTrip.

(** ** The transaction ledger *)

Module LedgerFacts.
Import InMemoryTransactionRepository RepositoryFacts ValuationFacts IndexFacts.

Lemma txn_index_remove id r : txn_keys_wf r -> txn_index_wf r -> txn_index_wf (remove id r).1.
Proof.
  intros Hkeys Hidx. unfold remove.
  destruct (storage r !! id) as [old|] eqn:Hold; [|exact Hidx].
  exact (index_exact_delete Transaction.sipId (storage r) (sipIndex r) id old Hidx Hold).
Qed.

Lemma txn_remove_wf id r : txn_keys_wf r -> txn_keys_wf (remove id r).1.
Proof.
  intros Hkeys. unfold remove. destruct (storage r !! id) as [old|]; [|exact Hkeys].
  intros k txn Hget. simpl in Hget. apply lookup_delete_Some in Hget as [_ Hget].
  by apply Hkeys.
Qed.

(** X14: a ledger that keeps every transaction under its own id and whose
    SIP index is exact stays so when a transaction with an unused id is
    added, when any transaction is updated, also one moved to another SIP,
    and when any id is removed; [update] and [remove] report whether the id
    was stored, and a removed id is gone. *)
Theorem ledger_consistent (r : t) (txn : Transaction.t) (id : string) :
  txn_keys_wf r -> txn_index_wf r ->
  (exists_ (Transaction.id txn) r = false ->
   txn_keys_wf (add txn r) /\ txn_index_wf (add txn r)) /\
  (txn_keys_wf (update txn r).1 /\ txn_index_wf (update txn r).1) /\
  (txn_keys_wf (remove id r).1 /\ txn_index_wf (remove id r).1) /\
  (update txn r).2 = exists_ (Transaction.id txn) r /\
  (remove id r).2 = exists_ id r /\
  getById id (remove id r).1 = None /\
  (exists_ (Transaction.id txn) r = true ->
   getById (Transaction.id txn) (update txn r).1 = Some txn).
Proof.
  intros Hkeys Hidx.
  split.
  { intros Hfresh. split; [by apply txn_add_wf|]. apply txn_index_add; [done|].
    apply bool_decide_eq_false in Hfresh.
    destruct (storage r !! Transaction.id txn); [exfalso; eauto | done]. }
  split; [split; [by apply txn_update_wf | by apply txn_index_update]|].
  split; [split; [by apply txn_remove_wf | by apply txn_index_remove]|].
  unfold update, remove, exists_, getById.
  split; [by destruct (storage r !! Transaction.id txn)|].
  split; [by destruct (storage r !! id)|].
  split.
  - destruct (storage r !! id) eqn:E; simpl; [apply lookup_delete_eq | exact E].
  - destruct (storage r !! Transaction.id txn); simpl; [|done].
    intros _. apply lookup_insert_eq.
Qed.

Lemma ledger_consistent_witness :
  txn_keys_wf (add Sample.pending_txn empty) /\ txn_index_wf (add Sample.pending_txn empty).
Proof.
  destruct (ledger_consistent empty Sample.pending_txn "" txn_empty_wf txn_index_empty)
    as (Hadd & _).
  apply Hadd. reflexivity.
Defined.

(** X15: on a consistent ledger the transaction history of a SIP is exactly
    the stored transactions of that SIP, each once and in ascending order of
    the transaction ids; [getSuccessfulBySipId] keeps those with status
    SUCCESS in the same order, and [getByStatus] returns exactly the stored
    transactions with the status. *)
Theorem transaction_history_exact (w : World) (sipId : string) (status : PaymentStatus) :
  txn_keys_wf (transactionRepository w) ->
  txn_index_wf (transactionRepository w) ->
  let history := PortfolioServiceImplRest.getTransactionHistory sipId w in
  (forall txn, txn ∈ history
               <-> getById (Transaction.id txn) (transactionRepository w) = Some txn /\
                   Transaction.sipId txn = sipId) /\
  NoDup (Transaction.id <$> history) /\
  StronglySorted string_le (Transaction.id <$> history) /\
  getSuccessfulBySipId sipId (transactionRepository w)
  = List.filter (fun txn => bool_decide (Transaction.status txn = SUCCESS)) history /\
  (forall txn, txn ∈ getByStatus status (transactionRepository w)
               <-> getById (Transaction.id txn) (transactionRepository w) = Some txn /\
                   Transaction.status txn = status).
Proof.
  intros Hkeys Hidx history.
  destruct (index_read Transaction.id Transaction.sipId
              (storage (transactionRepository w)) (sipIndex (transactionRepository w))
              sipId Hkeys Hidx) as (H1 & H2 & H3).
  split; [exact H1|]. split; [exact H2|]. split; [exact H3|]. split; [reflexivity|].
  intros txn. unfold getByStatus, map_iteration, getById.
  rewrite list_elem_of_In, filter_In, <- list_elem_of_In, bool_decide_eq_true,
    list_elem_of_fmap.
  split.
  - intros [([k t'] & -> & Hk) Hst]. apply elem_of_map_to_list in Hk. simpl in *.
    by rewrite (Hkeys _ _ Hk).
  - intros [Hget Hst]. split; [|done]. exists (Transaction.id txn, txn).
    split; [done | by apply elem_of_map_to_list].
Qed.

Lemma transaction_history_exact_witness :
  Transaction.id <$> PortfolioServiceImplRest.getTransactionHistory "SIP_000001"
                       Sample.world_valued
  = ["TXN_000001"; "TXN_000002"] /\
  StronglySorted string_le
    (Transaction.id <$> PortfolioServiceImplRest.getTransactionHistory "SIP_000001"
                          Sample.world_valued).
Proof.
  destruct (transaction_history_exact Sample.world_valued "SIP_000001" SUCCESS)
    as (_ & _ & Hsorted & _).
  - apply txn_add_wf, txn_add_wf, txn_empty_wf.
  - apply txn_index_add; [apply txn_index_add; [apply txn_index_empty | reflexivity]
                         | reflexivity].
  - split; [vm_compute; reflexivity | exact Hsorted].
Defined.
End LedgerFacts.

(** ** Creating a SIP *)

Module CreationFacts.
Import InMemorySIPRepository RepositoryFacts ValuationFacts IndexFacts SIPRepositoryFacts.
Import SIPServiceImplRest.

(** X16: [createSIP] for a known user and fund, an amount above zero and a
    step-up of at least zero, on a consistent repository in which the next
    SIP id is unused: it returns the new ACTIVE SIP with no installment made
    and the start date as its next execution date, stores it under the id
    drawn from the counter, leaves every other SIP and every other component
    alone and the repository consistent; the user's query lists the SIP, it
    is due exactly from its start date on, and the amount quoted for its
    first installment is the base amount. *)
Theorem createSIP_creates `{MathLib} (users : InMemoryUserRepository.t)
    (userId fundId : string) (amount : float) (frequency : SIPFrequency)
    (startDate : Date) (stepUpPercentage : float) (w : World) :
  InMemoryUserRepository.exists_ userId users = true ->
  MutualFundServiceImpl.fundExists fundId (fundRepository w) = true ->
  (0 <? amount)%float = true ->
  (0 <=? stepUpPercentage)%float = true ->
  consistent (sipRepository w) ->
  (forall sipId, (IdGenerator.generateSipId (idCounter w)).2 = Returned sipId ->
                 exists_ sipId (sipRepository w) = false) ->
  exists sipId w',
    (IdGenerator.generateSipId (idCounter w)).2 = Returned sipId /\
    let sip := SIP.make sipId userId fundId amount frequency startDate stepUpPercentage in
    createSIP users userId fundId amount frequency startDate stepUpPercentage w
    = (w', Returned sip) /\
    getById sipId (sipRepository w') = Some sip /\
    (forall other, other <> sipId ->
       getById other (sipRepository w') = getById other (sipRepository w)) /\
    count (sipRepository w') = S (count (sipRepository w)) /\
    consistent (sipRepository w') /\
    sip ∈ getSIPsByUser userId (sipRepository w') /\
    (forall asOfDate, SIPScheduler.isDue sip asOfDate = true <-> startDate <= asOfDate) /\
    (SIPServiceImpl.calculateCurrentInstallmentAmount sipId (sipRepository w')).2
    = Returned amount /\
    idCounter w' = (idCounter w + 1) mod IdGenerator.uint64_modulus /\
    transactionRepository w' = transactionRepository w /\
    fundRepository w' = fundRepository w /\
    marketPriceService w' = marketPriceService w /\
    paymentService w' = paymentService w /\
    errorLog w' = errorLog w.
Proof.
  intros Huser Hfund Hamount Hstep Hwf Hfresh.
  apply FloatFacts.ltb_zero_not_leb in Hamount.
  apply FloatFacts.leb_zero_not_ltb in Hstep.
  eexists _, _. split; [reflexivity|]. cbv zeta.
  specialize (Hfresh _ eq_refl).
  set (sipId := ("SIP" +:+ _)%string) in *.
  set (sip := SIP.make sipId userId fundId amount frequency startDate stepUpPercentage).
  assert (Hnone : storage (sipRepository w) !! sipId = None).
  { apply bool_decide_eq_false in Hfresh.
    destruct (storage (sipRepository w) !! sipId); [exfalso; eauto | done]. }
  assert (Hcons : consistent (add sip (sipRepository w))) by (by apply add_consistent).
  split.
  { unfold createSIP. rewrite Huser, Hfund, Hamount, Hstep. simpl. reflexivity. }
  simpl.
  split; [apply lookup_insert_eq|].
  split; [intros other Hne; unfold getById; simpl; by apply lookup_insert_ne|].
  split; [unfold count; simpl; by apply map_size_insert_None|].
  split; [exact Hcons|].
  split.
  { destruct (getByUserId_exact (add sip (sipRepository w)) userId Hcons) as [Hin _].
    apply Hin. split; [apply lookup_insert_eq | reflexivity]. }
  split.
  { intros asOfDate. unfold SIPScheduler.isDue, DateUtils.isOnOrBefore. simpl.
    apply Z.leb_le. }
  split; [|done].
  unfold SIPServiceImpl.calculateCurrentInstallmentAmount, bind, SIPServiceImpl.getSIPById,
    getById, ret.
  simpl. rewrite lookup_insert_eq. simpl.
  unfold SIPServiceImpl.calculateSteppedUpAmount. simpl.
  by rewrite orb_true_r.
Qed.

Section OnSamples.
Existing Instance Sample.utc.

Lemma createSIP_creates_witness :
  exists w',
    @createSIP Main.users "USER_000001" "FUND_000004" 5000 MONTHLY
      (DateUtils.createDate 2024 1 15) 10 Main.world
    = (w', Returned (SIP.make "SIP_000002" "USER_000001" "FUND_000004" 5000 MONTHLY
                       (DateUtils.createDate 2024 1 15) 10)) /\
    (SIPServiceImpl.calculateCurrentInstallmentAmount (H := Sample.math) "SIP_000002"
       (sipRepository w')).2 = Returned 5000%float.
Proof.
  destruct (createSIP_creates (H := Sample.math) Main.users "USER_000001" "FUND_000004" 5000
              MONTHLY (DateUtils.createDate 2024 1 15) 10 Main.world)
    as (sipId & w' & Hid & Hrun & _ & _ & _ & _ & _ & _ & Hquote & _).
  - reflexivity.
  - reflexivity.
  - reflexivity.
  - reflexivity.
  - apply empty_consistent.
  - intros sipId _. reflexivity.
  - injection Hid as <-. exists w'. split; [exact Hrun | exact Hquote].
Defined.
End OnSamples.

(** X17: [createSIP] checks, in this order, that the user exists, that the
    fund exists, that the amount is not zero or below and that the step-up is
    not below zero, and throws for the first check that fails: UserNotFound
    and FundNotFound with the id, a validation error for the two numbers.
    It returns exactly when all four pass, and a rejected call leaves the
    world as it was: no id is drawn and nothing is stored. *)
Theorem createSIP_rejects (users : InMemoryUserRepository.t) (userId fundId : string)
    (amount : float) (frequency : SIPFrequency) (startDate : Date)
    (stepUpPercentage : float) (w : World) :
  let run := createSIP users userId fundId amount frequency startDate stepUpPercentage w in
  let userKnown := InMemoryUserRepository.exists_ userId users in
  let fundKnown := MutualFundServiceImpl.fundExists fundId (fundRepository w) in
  (returned run.2 = true
   <-> userKnown = true /\ fundKnown = true /\ (amount <=? 0)%float = false /\
       (stepUpPercentage <? 0)%float = false) /\
  (returned run.2 = false -> run.1 = w) /\
  (userKnown = false ->
   run.2 = Thrown (UserNotFoundException userId) /\
   what (UserNotFoundException userId) = "User not found: " +:+ userId) /\
  (userKnown = true -> fundKnown = false ->
   run.2 = Thrown (FundNotFoundException fundId) /\
   what (FundNotFoundException fundId) = "Fund not found: " +:+ fundId) /\
  (userKnown = true -> fundKnown = true -> (amount <=? 0)%float = true ->
   run.2 = Thrown (ValidationException "SIP amount must be positive")) /\
  (userKnown = true -> fundKnown = true -> (amount <=? 0)%float = false ->
   (stepUpPercentage <? 0)%float = true ->
   run.2 = Thrown (ValidationException "Step-up percentage cannot be negative")).
Proof.
  intros run userKnown fundKnown. subst run userKnown fundKnown. unfold createSIP.
  destruct (InMemoryUserRepository.exists_ userId users),
    (MutualFundServiceImpl.fundExists fundId (fundRepository w)),
    (amount <=? 0)%float, (stepUpPercentage <? 0)%float; simpl;
    repeat split; try done; try tauto; intros; intuition congruence.
Qed.
End CreationFacts.

(** ** From the scheduler through the payment service and back *)

Module PaymentFlowFacts.
Import SIPScheduler RepositoryFacts ReconcilerFacts SchedulerFacts.

(** The payment service as the scheduler's world holds it. *)
Definition completePayment `{RandomDevice} `{CLibrary} :=
  MockPaymentService.completePayment paymentService setPaymentService callPaymentCallback.

Definition onPaymentCallback `{RandomDevice} `{CLibrary} :=
  MockPaymentService.onPaymentCallback paymentService setPaymentService callPaymentCallback.

Definition completeAllPending `{RandomDevice} `{CLibrary} :=
  MockPaymentServiceRest.completeAllPending paymentService setPaymentService
    callPaymentCallback.

(** The SIP a delivered status leaves behind. *)
Definition after_payment {clib : CLibrary} (status : PaymentStatus) (sip : SIP.t) : SIP.t :=
  if bool_decide (status = SUCCESS) then advanced sip else sip.

(** The SIP a paid installment leaves, field by field: one more installment
    counted, the next execution date one period after the one it had, and
    every other field as it was. *)
Definition installment_paid {clib : CLibrary} (sip : SIP.t) : SIP.t :=
  {| SIP.id := SIP.id sip; SIP.userId := SIP.userId sip; SIP.fundId := SIP.fundId sip;
     SIP.baseAmount := SIP.baseAmount sip; SIP.frequency := SIP.frequency sip;
     SIP.state := SIP.state sip; SIP.startDate := SIP.startDate sip;
     SIP.nextExecutionDate :=
       SIPServiceImpl.calculateNextExecutionDate (SIP.nextExecutionDate sip)
         (SIP.frequency sip);
     SIP.installmentCount := SIP.installmentCount sip + 1;
     SIP.stepUpPercentage := SIP.stepUpPercentage sip |}.

(** The setters of the success path produce that SIP. *)
Lemma after_payment_fields {clib : CLibrary} status sip :
  after_payment status sip
  = if bool_decide (status = SUCCESS) then installment_paid sip else sip.
Proof. reflexivity. Qed.

(** The success path rewrites the SIP it is called for and no other. *)
Lemma lifecycle_on_success_others {clib : CLibrary} sipId other w :
  sip_keys_wf (sipRepository w) ->
  other <> sipId ->
  InMemorySIPRepository.storage (sipRepository (lifecycle_on_success sipId w).1) !! other
  = InMemorySIPRepository.storage (sipRepository w) !! other.
Proof.
  intros Hwf Hne.
  destruct (InMemorySIPRepository.storage (sipRepository w) !! sipId) as [sip|] eqn:Hget.
  - pose proof (Hwf _ _ Hget) as Hid.
    unfold lifecycle_on_success, bind, onSipService, zoom,
      SIPServiceImpl.onPaymentSuccess, SIPServiceImpl.updateNextExecutionDate, bind,
      SIPServiceImpl.validateSIPExists, SIPServiceImpl.repository_update, ret,
      InMemorySIPRepository.getById.
    rewrite Hget.
    pose proof (sip_update_storage (SIP.incrementInstallmentCount sip) (sipRepository w)) as H1.
    simpl in H1. rewrite Hid, Hget in H1.
    destruct (InMemorySIPRepository.update (SIP.incrementInstallmentCount sip) (sipRepository w))
      as [r1 b1]. simpl in *. rewrite H1, lookup_insert_eq.
    pose proof (sip_update_storage (advanced sip) r1) as H2.
    simpl in H2. rewrite Hid, H1, lookup_insert_eq in H2. unfold advanced in H2. simpl in H2.
    destruct (InMemorySIPRepository.update _ r1) as [r2 b2]. simpl in *.
    rewrite H2. by rewrite !lookup_insert_ne.
  - by rewrite lifecycle_on_success_absent.
Qed.

Section WithCollaborators.
Context `{MathLib} `{RandomDevice}.

(** Delivering a status for a recorded, unsettled transaction of a stored
    SIP: the callback and then the completion handler. *)
Lemma deliver {clib : CLibrary} w transactionId callback status txn sip :
  txn_keys_wf (transactionRepository w) ->
  sip_keys_wf (sipRepository w) ->
  InMemoryTransactionRepository.getById transactionId (transactionRepository w) = Some txn ->
  Transaction.callbackProcessed txn = false ->
  InMemorySIPRepository.getById (captured_sipId callback) (sipRepository w) = Some sip ->
  exists w',
    bind (callPaymentCallback callback transactionId status)
      (fun _ => MockPaymentService.callCompletionHandler paymentService callPaymentCallback
                  transactionId status) w
    = (w', Returned tt) /\
    InMemoryTransactionRepository.getById transactionId (transactionRepository w')
    = Some (settled status txn) /\
    (forall other, other <> transactionId ->
       InMemoryTransactionRepository.getById other (transactionRepository w')
       = InMemoryTransactionRepository.getById other (transactionRepository w)) /\
    InMemorySIPRepository.getById (captured_sipId callback) (sipRepository w')
    = Some (after_payment status sip) /\
    (forall other, other <> captured_sipId callback ->
       InMemorySIPRepository.getById other (sipRepository w')
       = InMemorySIPRepository.getById other (sipRepository w)) /\
    paymentService w' = paymentService w /\
    kept 0 w w'.
Proof.
  intros Htxn Hsip Hget Hflag Hstored.
  unfold InMemorySIPRepository.getById in *.
  set (sipId := captured_sipId callback) in *.
  pose proof (handlePaymentCallback_first w transactionId sipId status txn Htxn Hget Hflag)
    as Hfirst. cbv zeta in Hfirst.
  pose proof (handlePaymentCallback_settles w transactionId sipId status txn Htxn Hget Hflag)
    as Hsettled.
  pose proof (handlePaymentCallback_paymentService transactionId sipId status w) as Hpay.
  pose proof (kept_handlePaymentCallback transactionId sipId status w) as Hkept.
  set (w1 := setTransactionRepository (settle transactionId status txn (transactionRepository w))
               w) in *.
  assert (Hledger : forall other, other <> transactionId ->
            InMemoryTransactionRepository.getById other
              (transactionRepository (handlePaymentCallback transactionId sipId status w).1)
            = InMemoryTransactionRepository.getById other (transactionRepository w)).
  { intros other Hne. rewrite Hfirst. unfold InMemoryTransactionRepository.getById.
    destruct (bool_decide (status = SUCCESS)).
    - rewrite lifecycle_on_success_ledger. simpl. by apply lookup_insert_ne.
    - simpl. by apply lookup_insert_ne. }
  assert (Hsips :
            (handlePaymentCallback transactionId sipId status w).2 = Returned tt /\
            InMemorySIPRepository.storage
              (sipRepository (handlePaymentCallback transactionId sipId status w).1) !! sipId
            = Some (after_payment status sip) /\
            forall other, other <> sipId ->
              InMemorySIPRepository.storage
                (sipRepository (handlePaymentCallback transactionId sipId status w).1) !! other
              = InMemorySIPRepository.storage (sipRepository w) !! other).
  { rewrite Hfirst. unfold after_payment. destruct (bool_decide (status = SUCCESS)).
    - destruct (lifecycle_on_success_present sipId sip w1) as [Hret Hadv]; try done.
      split; [exact Hret|]. split; [exact Hadv|].
      intros other Hne. by rewrite lifecycle_on_success_others. 
    - done. }
  destruct Hsips as (Hret & Hadv & Hothers).
  unfold bind, callPaymentCallback at 1. fold sipId.
  destruct (handlePaymentCallback transactionId sipId status w) as [w' o]. simpl in *.
  subst o. rewrite (callCompletionHandler_settled w' _ _ (settled status txn)) by done.
  exists w'. done.
Qed.

End WithCollaborators.


Section OnSamples.
Existing Instance Sample.utc.

End OnSamples.



Section OnSamples.
Existing Instance Sample.utc.

End OnSamples.



Section OnSamples.
Existing Instance Sample.utc.

End OnSamples.
End PaymentFlowFacts.

(** ** One pass of the engine: what is recorded and what is submitted *)

Module PassClaims.
Import SIPScheduler RepositoryFacts ReconcilerFacts SchedulerFacts PaymentFlowFacts.

(** The id [generateTransactionId] hands out when the counter stands at
    [counter]. *)
Definition transaction_id (counter : Z) : string :=
  match (IdGenerator.generateTransactionId counter).2 with
  | Returned transactionId => transactionId
  | Thrown _ => ""
  end.

Lemma transaction_id_inj counter1 counter2 :
  0 <= counter1 -> 0 <= counter2 ->
  transaction_id counter1 = transaction_id counter2 -> counter1 = counter2.
Proof.
  intros H1 H2 Heq. unfold transaction_id in Heq. simpl in Heq.
  apply (inj (String.app "TXN")) in Heq.
  apply (inj (String.app "_")) in Heq.
  apply (f_equal IdGeneratorFacts.decimal_value) in Heq.
  unfold IdGenerator.setw in Heq.
  rewrite !IdGeneratorFacts.decimal_value_fill, !IdGeneratorFacts.decimal_value_pretty in Heq.
  lia.
Qed.

(** The reconciler writes to the ledger and to the SIP repository only. *)
Lemma handlePaymentCallback_others {clib : CLibrary} transactionId sipId status w :
  idCounter (handlePaymentCallback transactionId sipId status w).1 = idCounter w /\
  marketPriceService (handlePaymentCallback transactionId sipId status w).1
  = marketPriceService w.
Proof.
  unfold handlePaymentCallback.
  destruct (InMemoryTransactionRepository.getById _ _) as [txn|]; [|done].
  destruct (Transaction.callbackProcessed txn); [done|].
  destruct (bool_decide (status = SUCCESS)); [|done].
  unfold bind, onSipService, zoom.
  destruct (SIPServiceImpl.onPaymentSuccess sipId _) as [r1 [[]|e]]; simpl; [|done].
  by destruct (SIPServiceImpl.updateNextExecutionDate sipId r1).
Qed.

(** The price service after [n] more prices were read: a draw made for each
    when prices fluctuate, and nothing else changed. *)
Definition priced (n : nat) (market market' : MockMarketPriceService.t) : Prop :=
  MockMarketPriceService.navData market' = MockMarketPriceService.navData market /\
  MockMarketPriceService.enablePriceFluctuation market'
  = MockMarketPriceService.enablePriceFluctuation market /\
  MockMarketPriceService.fluctuationRange market'
  = MockMarketPriceService.fluctuationRange market /\
  MockMarketPriceService.navDraws market'
  = if MockMarketPriceService.enablePriceFluctuation market
    then (MockMarketPriceService.navDraws market + n)%nat
    else MockMarketPriceService.navDraws market.

(** The payment service after [n] more payments were submitted: a draw made
    for each when payments complete at once; mode and success rate stay. *)
Definition drawn (n : nat) (service service' : MockPaymentService.t) : Prop :=
  MockPaymentService.autoComplete service' = MockPaymentService.autoComplete service /\
  MockPaymentService.successRate service' = MockPaymentService.successRate service /\
  (MockPaymentService.autoComplete service = true ->
   MockPaymentService.paymentDraws service'
   = (MockPaymentService.paymentDraws service + n)%nat).

Section WithCollaborators.
Context `{MathLib} `{RandomDevice} {clib : CLibrary}.

Lemma initiatePayment_others transactionId amount callback w :
  idCounter (initiatePayment transactionId amount callback w).1 = idCounter w /\
  marketPriceService (initiatePayment transactionId amount callback w).1
  = marketPriceService w.
Proof.
  unfold initiatePayment, MockPaymentService.initiatePayment.
  destruct (MockPaymentService.autoComplete (paymentService w)); [|done].
  unfold MockPaymentService.simulatePaymentResult, bind, callPaymentCallback.
  match goal with
  | |- context [handlePaymentCallback ?t ?s ?st ?w1] =>
      pose proof (handlePaymentCallback_others t s st w1) as Hcall;
      destruct (handlePaymentCallback t s st w1) as [w2 [[]|e]]
  end; simpl in *; [|done].
  unfold MockPaymentService.callCompletionHandler.
  destruct (MockPaymentService.completionHandler (paymentService w2)) as [handler|];
    [|done].
  destruct (handlePaymentCallback_others transactionId (captured_sipId handler)
              (if (payment_draw (MockPaymentService.paymentDraws (paymentService w))
                   <? MockPaymentService.successRate (paymentService w))%float
               then SUCCESS else FAILURE) w2) as [Hc Hm].
  unfold callPaymentCallback. rewrite Hc, Hm. exact Hcall.
Qed.

(** What the [k]-th SIP initiated in a pass that starts from the world [w]
    leaves behind in the world [w'].  The transaction under the [k]-th id
    drawn belongs to the SIP and carries the stepped-up amount of its next
    installment, the price of its fund (with the [k]-th noise drawn when
    prices fluctuate), the units that amount buys at that price, the
    execution date and the type INSTALLMENT; with payments completing at
    once it is settled with the status of the [k]-th payment draw, and
    otherwise it is PENDING and its payment is parked under its id with the
    amount and the callback for this transaction and SIP. *)
Definition initiated_for (executionDate : Date) (w : World) (k : nat) (sip : SIP.t)
    (w' : World) : Prop :=
  let transactionId := transaction_id (idCounter w + Z.of_nat k) in
  let market := marketPriceService w in
  let service := paymentService w in
  exists txn baseNav,
    InMemoryTransactionRepository.getById transactionId (transactionRepository w') = Some txn /\
    Transaction.id txn = transactionId /\
    Transaction.sipId txn = SIP.id sip /\
    Transaction.amount txn
    = calculateSteppedUpAmount (SIP.baseAmount sip) (SIP.stepUpPercentage sip)
        (SIP.installmentCount sip + 1) /\
    MockMarketPriceService.navData market !! SIP.fundId sip = Some baseNav /\
    Transaction.nav txn
    = (if MockMarketPriceService.enablePriceFluctuation market
       then (baseNav * (1 + nav_noise (MockMarketPriceService.fluctuationRange market)
                              (MockMarketPriceService.navDraws market + k)))%float
       else baseNav) /\
    Transaction.units txn = (Transaction.amount txn / Transaction.nav txn)%float /\
    Transaction.date txn = executionDate /\
    Transaction.type txn = INSTALLMENT /\
    if MockPaymentService.autoComplete service
    then
      Transaction.status txn
      = (if (payment_draw (MockPaymentService.paymentDraws service + k)
             <? MockPaymentService.successRate service)%float
         then SUCCESS else FAILURE) /\
      Transaction.callbackProcessed txn = true
    else
      Transaction.status txn = PENDING /\
      Transaction.callbackProcessed txn = false /\
      MockPaymentService.pendingPayments (paymentService w') !! transactionId
      = Some (Transaction.amount txn,
              {| captured_txnId := transactionId; captured_sipId := SIP.id sip |}).

(** It depends on the ledger and on the parked payments under that id
    only. *)
Lemma initiated_for_frame executionDate w k sip w' w'' :
  let transactionId := transaction_id (idCounter w + Z.of_nat k) in
  InMemoryTransactionRepository.getById transactionId (transactionRepository w'')
  = InMemoryTransactionRepository.getById transactionId (transactionRepository w') ->
  MockPaymentService.pendingPayments (paymentService w'') !! transactionId
  = MockPaymentService.pendingPayments (paymentService w') !! transactionId ->
  initiated_for executionDate w k sip w' ->
  initiated_for executionDate w k sip w''.
Proof.
  intros transactionId Hledger Hparked (txn & baseNav & Hget & Hrest).
  exists txn, baseNav. fold transactionId.
  rewrite Hledger. split; [exact Hget|]. by rewrite Hparked.
Qed.

(** The [k]-th SIP of a pass from the world one initiation later is the
    next one of the pass from this world. *)
Lemma initiated_for_next executionDate w w1 k sip w' :
  idCounter w1 = idCounter w + 1 ->
  priced 1 (marketPriceService w) (marketPriceService w1) ->
  drawn 1 (paymentService w) (paymentService w1) ->
  initiated_for executionDate w1 k sip w' ->
  initiated_for executionDate w (S k) sip w'.
Proof.
  intros Hcounter (Hnavs & Hflag & Hrange & Hnoise) (Hmode & Hrate & Hdraws).
  unfold initiated_for. cbv zeta.
  rewrite Hcounter, Hnavs, Hflag, Hrange, Hnoise, Hmode, Hrate.
  replace (idCounter w + 1 + Z.of_nat k) with (idCounter w + Z.of_nat (S k)) by lia.
  intros (txn & baseNav & Hget & Hid & Howner & Hamount & Hbase & Hnav & Hrest).
  exists txn, baseNav.
  split; [exact Hget|]. split; [exact Hid|]. split; [exact Howner|].
  split; [exact Hamount|]. split; [exact Hbase|].
  split.
  { rewrite Hnav.
    destruct (MockMarketPriceService.enablePriceFluctuation (marketPriceService w));
      [|reflexivity].
    by replace (MockMarketPriceService.navDraws (marketPriceService w) + 1 + k)%nat
      with (MockMarketPriceService.navDraws (marketPriceService w) + S k)%nat by lia. }
  destruct Hrest as (Hunits & Hdate & Htype & Hpay).
  split; [exact Hunits|]. split; [exact Hdate|]. split; [exact Htype|].
  destruct (MockPaymentService.autoComplete (paymentService w)); [|exact Hpay].
  rewrite Hdraws in Hpay by done.
  by replace (MockPaymentService.paymentDraws (paymentService w) + S k)%nat
    with (MockPaymentService.paymentDraws (paymentService w) + 1 + k)%nat by lia.
Qed.

(** Executing a stored ACTIVE SIP whose fund has a price: the call returns,
    the transaction is recorded and its payment submitted, and the ledger
    and the parked payments change under the id drawn only. *)
Lemma executeSIP_initiates sip executionDate w baseNav :
  SIP.state sip = ACTIVE ->
  MockMarketPriceService.navData (marketPriceService w) !! SIP.fundId sip = Some baseNav ->
  txn_keys_wf (transactionRepository w) ->
  sip_keys_wf (sipRepository w) ->
  is_Some (InMemorySIPRepository.storage (sipRepository w) !! SIP.id sip) ->
  exists w',
    executeSIP sip executionDate w = (w', Returned tt) /\
    initiated_for executionDate w 0 sip w' /\
    (forall other, other <> transaction_id (idCounter w) ->
       InMemoryTransactionRepository.getById other (transactionRepository w')
       = InMemoryTransactionRepository.getById other (transactionRepository w)) /\
    (forall other, other <> transaction_id (idCounter w) ->
       MockPaymentService.pendingPayments (paymentService w') !! other
       = MockPaymentService.pendingPayments (paymentService w) !! other) /\
    (MockPaymentService.autoComplete (paymentService w) = false ->
     sipRepository w' = sipRepository w) /\
    priced 1 (marketPriceService w) (marketPriceService w') /\
    drawn 1 (paymentService w) (paymentService w') /\
    idCounter w' = (idCounter w + 1) mod IdGenerator.uint64_modulus /\
    kept 1 w w'.
Proof.
  intros Hstate Hnav Htxn Hsip [stored Hstored].
  unfold executeSIP. rewrite Hstate. simpl.
  set (market := marketPriceService w).
  assert (Hcur : exists s',
            MockMarketPriceService.getCurrentNAV (SIP.fundId sip) market
            = (s', Returned
                     (if MockMarketPriceService.enablePriceFluctuation market
                      then (baseNav
                            * (1 + nav_noise (MockMarketPriceService.fluctuationRange market)
                                     (MockMarketPriceService.navDraws market + 0)))%float
                      else baseNav)) /\
            priced 1 market s').
  { unfold MockMarketPriceService.getCurrentNAV, priced. fold market in Hnav. rewrite Hnav.
    rewrite Nat.add_0_r.
    destruct (MockMarketPriceService.enablePriceFluctuation market) eqn:Hflag;
      eexists; (split; [reflexivity|]); simpl; rewrite ?Hflag; repeat split; lia. }
  destruct Hcur as (s' & Hcur & Hpriced).
  set (nav := if MockMarketPriceService.enablePriceFluctuation market then _ else _) in Hcur.
  unfold bind at 1. unfold onMarketPriceService, zoom. fold market. rewrite Hcur.
  set (w1 := setMarketPriceService s' w).
  unfold bind at 1. unfold onIdGenerator, zoom, IdGenerator.generateTransactionId,
    IdGenerator.generateSimple.
  change ("TXN" +:+ "_" +:+ IdGenerator.setw 6 "0" (pretty (Z.to_N (idCounter w1))))%string
    with (transaction_id (idCounter w)).
  set (transactionId := transaction_id (idCounter w)).
  set (w2 := setIdCounter _ w1).
  unfold bind at 1, modify.
  set (amount := calculateSteppedUpAmount _ _ _).
  set (txn := Transaction.setStatus PENDING _).
  set (w3 := setTransactionRepository _ w2).
  set (callback := {| captured_txnId := transactionId; captured_sipId := SIP.id sip |}).
  assert (Hget : InMemoryTransactionRepository.getById transactionId (transactionRepository w3)
                 = Some txn)
    by (unfold InMemoryTransactionRepository.getById; simpl; apply lookup_insert_eq).
  assert (Hledger : forall other, other <> transactionId ->
            InMemoryTransactionRepository.getById other (transactionRepository w3)
            = InMemoryTransactionRepository.getById other (transactionRepository w))
    by (intros other Hne; unfold InMemoryTransactionRepository.getById; simpl;
        by apply lookup_insert_ne).
  assert (Hwf3 : txn_keys_wf (transactionRepository w3)) by (by apply txn_add_wf).
  assert (K3 : kept 1 w w3).
  { destruct Hpriced as (Hnavs & _).
    split; simpl; try done. unfold IdGenerator.uint64_modulus. apply Z.mod_mod. lia. }
  assert (Hothers : forall w',
            initiatePayment transactionId amount callback w3 = (w', Returned tt) ->
            idCounter w' = (idCounter w + 1) mod IdGenerator.uint64_modulus /\
            priced 1 market (marketPriceService w')).
  { intros w' Hrun.
    destruct (initiatePayment_others transactionId amount callback w3) as [Ec Em].
    rewrite Hrun in Ec, Em. simpl in Ec, Em. rewrite Em. by split. }
  unfold initiatePayment at 1, MockPaymentService.initiatePayment at 1.
  change (paymentService w3) with (paymentService w).
  assert (Hrecord : forall txn',
            Transaction.id txn' = transactionId /\
            Transaction.sipId txn' = SIP.id sip /\
            Transaction.amount txn' = amount /\
            Transaction.nav txn' = nav /\
            Transaction.units txn' = (amount / nav)%float /\
            Transaction.date txn' = executionDate /\
            Transaction.type txn' = INSTALLMENT ->
            Transaction.id txn' = transaction_id (idCounter w + Z.of_nat 0) /\
            Transaction.sipId txn' = SIP.id sip /\
            Transaction.amount txn' = amount /\
            MockMarketPriceService.navData market !! SIP.fundId sip = Some baseNav /\
            Transaction.nav txn' = nav /\
            Transaction.units txn' = (Transaction.amount txn' / Transaction.nav txn')%float /\
            Transaction.date txn' = executionDate /\
            Transaction.type txn' = INSTALLMENT).
  { intros txn' (Hi & Ho & Ha & Hn & Hu & Hd & Ht).
    rewrite Ha, Hn. simpl. rewrite Z.add_0_r. done. }
  destruct (MockPaymentService.autoComplete (paymentService w)) eqn:Hmode.
  - set (status := if (payment_draw (MockPaymentService.paymentDraws (paymentService w))
                       <? MockPaymentService.successRate (paymentService w))%float
                   then SUCCESS else FAILURE).
    set (service1 := (MockPaymentService.simulatePaymentResult (paymentService w)).1).
    assert (Hsim : MockPaymentService.simulatePaymentResult (paymentService w)
                   = (service1, Returned status)) by reflexivity.
    rewrite Hsim.
    destruct (deliver (setPaymentService service1 w3) transactionId callback status txn stored
                Hwf3 Hsip Hget eq_refl Hstored)
      as (w' & Hdeliver & Hsettled & Hrest & _ & _ & Hservice & Hkept).
    assert (Hinit : initiatePayment transactionId amount callback w3 = (w', Returned tt)).
    { unfold initiatePayment, MockPaymentService.initiatePayment.
      change (paymentService w3) with (paymentService w). rewrite Hmode, Hsim.
      exact Hdeliver. }
    destruct (Hothers w' Hinit) as [Hcounter Hmarket].
    exists w'. split; [exact Hdeliver|].
    split.
    { exists (settled status txn), baseNav. unfold initiated_for. cbv zeta.
      fold market. rewrite Hmode, Z.add_0_r. fold transactionId.
      split; [exact Hsettled|].
      destruct (Hrecord (settled status txn)) as (H1 & H2 & H3 & H4 & H5 & H6 & H7 & H8);
        [repeat split|].
      rewrite Z.add_0_r in H1. fold transactionId in H1.
      repeat (split; [assumption|]). rewrite Nat.add_0_r. done. }
    split; [intros other Hne; rewrite Hrest by done; by apply Hledger|].
    split; [intros other Hne; by rewrite Hservice|].
    split; [done|].
    split; [exact Hmarket|].
    split; [rewrite Hservice; repeat split; simpl; intros _; lia|].
    split; [exact Hcounter|].
    change 1 with (1 + (0 + 0)).
    eapply kept_trans; [exact K3|].
    eapply kept_trans; [apply setPaymentService_kept | exact Hkept].
  - eexists. split; [reflexivity|].
    split.
    { exists txn, baseNav. unfold initiated_for. cbv zeta.
      fold market. rewrite Hmode, Z.add_0_r. fold transactionId.
      split; [exact Hget|].
      destruct (Hrecord txn) as (H1 & H2 & H3 & H4 & H5 & H6 & H7 & H8); [repeat split|].
      rewrite Z.add_0_r in H1. fold transactionId in H1.
      repeat (split; [assumption|]).
      repeat split. simpl. apply lookup_insert_eq. }
    split; [exact Hledger|].
    split; [intros other Hne; simpl; by apply lookup_insert_ne|].
    split; [done|].
    split; [exact Hpriced|].
    split; [repeat split; simpl; congruence|].
    split; [reflexivity|].
    change 1 with (1 + 0). eapply kept_trans; [exact K3 | apply setPaymentService_kept].
Qed.

(** The ids drawn in a pass that initiates [n] SIPs from the counter
    [counter]. *)
Definition drawn_ids (counter : Z) (n : nat) (transactionId : string) : Prop :=
  exists k, (k < n)%nat /\ transactionId = transaction_id (counter + Z.of_nat k).

Lemma known_fund_kept n w w' sip : kept n w w' -> known_fund w' sip = known_fund w sip.
Proof. intros K. unfold known_fund. by rewrite (kept_navData _ _ _ K). Qed.

Lemma filter_known_fund_kept n w w' sips :
  kept n w w' -> List.filter (known_fund w') sips = List.filter (known_fund w) sips.
Proof.
  intros K. induction sips as [|sip sips IH]; [done|]. simpl.
  by rewrite IH, (known_fund_kept n w w' sip K).
Qed.

(** The loop of [executeDueSIPs] over ACTIVE stored SIPs, while the id
    counter does not wrap: the [k]-th SIP whose fund has a price leaves its
    transaction under the [k]-th id drawn, with its payment submitted, and
    the ledger and the parked payments change under the ids drawn only. *)
Lemma executeOne_records asOfDate (sips : list SIP.t) :
  forall w processedCount,
    txn_keys_wf (transactionRepository w) ->
    sip_keys_wf (sipRepository w) ->
    (forall sip, In sip sips ->
       SIP.state sip = ACTIVE /\
       is_Some (InMemorySIPRepository.storage (sipRepository w) !! SIP.id sip)) ->
    0 <= idCounter w ->
    idCounter w + Z.of_nat (length sips) < IdGenerator.uint64_modulus ->
    let run := fold_left (executeOne asOfDate) sips (w, processedCount) in
    let initiated := List.filter (known_fund w) sips in
    (forall k sip, initiated !! k = Some sip -> initiated_for asOfDate w k sip run.1) /\
    (forall transactionId, ~ drawn_ids (idCounter w) (length initiated) transactionId ->
       InMemoryTransactionRepository.getById transactionId (transactionRepository run.1)
       = InMemoryTransactionRepository.getById transactionId (transactionRepository w) /\
       MockPaymentService.pendingPayments (paymentService run.1) !! transactionId
       = MockPaymentService.pendingPayments (paymentService w) !! transactionId) /\
    (MockPaymentService.autoComplete (paymentService w) = false ->
     sipRepository run.1 = sipRepository w).
Proof.
  induction sips as [|sip sips IH]; intros w c Htxn Hsip Hall Hlow Hhigh; simpl.
  - split; [by intros k sip Hk|]. done.
  - destruct (Hall sip (or_introl eq_refl)) as [Hstate Hstored].
    simpl in Hhigh.
    destruct (known_fund w sip) eqn:Hk.
    + apply bool_decide_eq_true in Hk as [baseNav Hnav].
      destruct (executeSIP_initiates sip asOfDate w baseNav Hstate Hnav Htxn Hsip Hstored)
        as (w1 & Hrun & Hinit & Hledger & Hparked & Hsips & Hpriced & Hdrawn & Hcounter & K).
      rewrite Hrun.
      assert (Hc1 : idCounter w1 = idCounter w + 1).
      { rewrite Hcounter. apply Z.mod_small. lia. }
      destruct (IH w1 (c + 1)) as (Hrec & Hframe & Hsips1).
      * by apply (kept_txn_wf _ _ _ K).
      * by apply (kept_sip_wf _ _ _ K).
      * intros s Hs. destruct (Hall s (or_intror Hs)) as [Hst Hsome].
        split; [exact Hst | by apply (kept_sip_ids _ _ _ K)].
      * lia.
      * lia.
      * rewrite (filter_known_fund_kept 1 w w1 sips K) in Hrec, Hframe.
        set (rest := List.filter (known_fund w) sips) in *.
        set (run := fold_left (executeOne asOfDate) sips (w1, c + 1)) in *.
        assert (Hfresh : forall k, transaction_id (idCounter w)
                                   <> transaction_id (idCounter w1 + Z.of_nat k)).
        { intros k Heq. apply transaction_id_inj in Heq; lia. }
        assert (Hnot : ~ drawn_ids (idCounter w1) (length rest) (transaction_id (idCounter w))).
        { intros (k & _ & Heq). by apply (Hfresh k). }
        split; [|split].
        -- intros [|k] s Hlook; simpl in Hlook.
           ++ injection Hlook as <-.
              destruct (Hframe _ Hnot) as [Hl Hp].
              apply (initiated_for_frame _ _ _ _ w1); [| |exact Hinit];
                cbv zeta; by rewrite Z.add_0_r.
           ++ by apply (initiated_for_next _ _ w1), Hrec.
        -- intros transactionId Hout.
           assert (Hout1 : ~ drawn_ids (idCounter w1) (length rest) transactionId).
           { intros (k & Hlt & Heq). apply Hout. exists (S k). simpl.
             split; [lia|]. rewrite Heq, Hc1. f_equal. lia. }
           assert (Hne : transactionId <> transaction_id (idCounter w)).
           { intros Heq. apply Hout. exists O. simpl. split; [lia|].
             by rewrite Heq, Z.add_0_r. }
           destruct (Hframe _ Hout1) as [Hl Hp].
           rewrite Hl, Hp. split; [by apply Hledger | by apply Hparked].
        -- intros Hauto. destruct Hdrawn as (Hmode & _).
           rewrite Hsips1 by (by rewrite Hmode). by apply Hsips.
    + apply bool_decide_eq_false in Hk.
      assert (Hnav : MockMarketPriceService.navData (marketPriceService w)
                       !! SIP.fundId sip = None)
        by (destruct (_ !! SIP.fundId sip); [exfalso; eauto | done]).
      rewrite executeSIP_unknown_fund by done.
      apply (IH (logError (SIP.id sip) (FundNotFoundException (SIP.fundId sip)) w) c);
        try done.
      * intros s Hs. by apply Hall; right.
      * simpl. lia.
Qed.
End WithCollaborators.

(** C8: [executeDueSIPs] returns a count and never an exception.  On
    repositories that keep their entities under their own ids, every due SIP
    is processed: one whose fund has a price is initiated and counted, one
    whose fund is unknown has its FundNotFound error logged under its id and
    is not counted, and neither stops the SIPs after it.  With no SIP due
    the result is 0 and the world, all storage included, is as before.
    Initiated means recorded and submitted: while the id counter does not
    wrap, the [k]-th initiated SIP has its transaction in the ledger under
    the [k]-th id drawn, for its SIP id, with the stepped-up amount of its
    next installment, the price of its fund, the units the amount buys, the
    date of the pass and the type INSTALLMENT; with payments completing at
    once the transaction is settled with the status of the [k]-th payment
    draw, and otherwise it is PENDING with its payment parked under its id;
    no other entry of the ledger and no other parked payment changes (a SIP
    whose execution failed leaves none), and with payments parked the SIP
    repository is as it was. *)
Theorem executeDueSIPs_boundary `{MathLib} `{RandomDevice} {clib : CLibrary} (w : World)
    (asOfDate : Date) :
  sip_keys_wf (sipRepository w) ->
  txn_keys_wf (transactionRepository w) ->
  let dueSIPs := InMemorySIPRepository.getDueSIPs asOfDate (sipRepository w) in
  let run := executeDueSIPs asOfDate w in
  let initiated := List.filter (known_fund w) dueSIPs in
  let failed := List.filter (fun sip => negb (known_fund w sip)) dueSIPs in
  run.2 = Z.of_nat (length initiated) /\
  errorLog run.1 = errorLog w ++ map fund_error failed /\
  idCounter run.1 mod IdGenerator.uint64_modulus
  = (idCounter w + Z.of_nat (length initiated)) mod IdGenerator.uint64_modulus /\
  (length initiated + length failed = length dueSIPs)%nat /\
  (dueSIPs = [] -> run = (w, 0)) /\
  (0 <= idCounter w ->
   idCounter w + Z.of_nat (length dueSIPs) < IdGenerator.uint64_modulus ->
   (forall k sip, initiated !! k = Some sip -> initiated_for asOfDate w k sip run.1) /\
   (forall transactionId,
      ~ drawn_ids (idCounter w) (length initiated) transactionId ->
      InMemoryTransactionRepository.getById transactionId (transactionRepository run.1)
      = InMemoryTransactionRepository.getById transactionId (transactionRepository w) /\
      MockPaymentService.pendingPayments (paymentService run.1) !! transactionId
      = MockPaymentService.pendingPayments (paymentService w) !! transactionId) /\
   (MockPaymentService.autoComplete (paymentService w) = false ->
    sipRepository run.1 = sipRepository w)).
Proof.
  intros Hsip Htxn dueSIPs run initiated failed.
  assert (Hdue : forall sip, In sip dueSIPs ->
            SIP.state sip = ACTIVE /\
            is_Some (InMemorySIPRepository.storage (sipRepository w) !! SIP.id sip)).
  { intros sip Hin. apply getDueSIPs_In in Hin as (Hstate & _ & k & Hk).
    split; [exact Hstate|]. rewrite (Hsip _ _ Hk). eauto. }
  assert (Hrun : run = fold_left (executeOne asOfDate) dueSIPs (w, 0)) by reflexivity.
  destruct (executeOne_loop asOfDate w dueSIPs Hdue w 0 Htxn Hsip) as [Hcount Hpass].
  { exists 0, []. apply pass_refl. }
  rewrite <- Hrun in Hcount, Hpass.
  destruct Hpass as [_ Hlog Hid _ _ _].
  split; [subst initiated; rewrite Hcount; lia|].
  split; [exact Hlog|]. split; [exact Hid|].
  split.
  { subst initiated failed. clear. induction dueSIPs as [|sip l IH]; [done|].
    simpl. destruct (known_fund w sip); simpl; lia. }
  split; [intros Hnone; rewrite Hrun, Hnone; reflexivity|].
  intros Hlow Hhigh. rewrite Hrun.
  exact (executeOne_records asOfDate dueSIPs w 0 Htxn Hsip Hdue Hlow Hhigh).
Qed.

Section OnSamples.
Existing Instance Sample.utc.

(** Three SIPs are due; the fund of the second one is unknown.  Two are
    initiated, the quarterly one first: each has its transaction, paid at
    once, under the id drawn for it, and the error of the second is logged
    without a transaction. *)
Lemma executeDueSIPs_boundary_witness :
  let run :=
    @executeDueSIPs Sample.math Sample.random Sample.utc (DateUtils.createDate 2024 2 1)
      Sample.world_start in
  run.2 = 2 /\
  errorLog run.1 = [("SIP_000002", FundNotFoundException "FUND_000009")] /\
  (exists txn,
     InMemoryTransactionRepository.getById "TXN_000001" (transactionRepository run.1)
     = Some txn /\
     Transaction.sipId txn = "SIP_000003" /\ Transaction.nav txn = 80%float /\
     Transaction.status txn = SUCCESS) /\
  (exists txn,
     InMemoryTransactionRepository.getById "TXN_000002" (transactionRepository run.1)
     = Some txn /\
     Transaction.sipId txn = "SIP_000001" /\ Transaction.nav txn = 150.5%float /\
     Transaction.status txn = SUCCESS) /\
  InMemoryTransactionRepository.getById "TXN_000003" (transactionRepository run.1) = None.
Proof.
  destruct (@executeDueSIPs_boundary Sample.math Sample.random Sample.utc Sample.world_start
              (DateUtils.createDate 2024 2 1) SchedulerClaims.sample_start_sips_wf
              SchedulerClaims.sample_start_ledger_wf)
    as (Hcount & Hlog & _ & _ & _ & Hrecorded).
  destruct Hrecorded as (Hinitiated & Hframe & _); [vm_compute; congruence | reflexivity |].
  split; [exact Hcount|]. split; [exact Hlog|].
  split; [|split].
  - destruct (Hinitiated 0%nat Sample.sip3 eq_refl)
      as (txn & baseNav & Hget & _ & Howner & _ & Hbase & Hnav & _ & _ & _ & Hstatus & _).
    exists txn. split; [exact Hget|]. split; [exact Howner|].
    split; [|exact Hstatus]. injection Hbase as <-. exact Hnav.
  - destruct (Hinitiated 1%nat Sample.sip1 eq_refl)
      as (txn & baseNav & Hget & _ & Howner & _ & Hbase & Hnav & _ & _ & _ & Hstatus & _).
    exists txn. split; [exact Hget|]. split; [exact Howner|].
    split; [|exact Hstatus]. injection Hbase as <-. exact Hnav.
  - destruct (Hframe "TXN_000003") as [Hledger _]; [|exact Hledger].
    intros (k & Hk & Heq).
    change (length _) with 2%nat in Hk.
    assert (Hcases : k = 0%nat \/ k = 1%nat) by lia.
    destruct Hcases as [-> | ->]; vm_compute in Heq; discriminate.
Defined.
End OnSamples.
End PassClaims.

(** ** The payment service's own bookkeeping *)

Module PaymentServiceFacts.
Import SIPScheduler RepositoryFacts ReconcilerFacts SchedulerFacts PaymentFlowFacts.
Import MockPaymentServiceRate.

(** A FAILURE delivery never throws and never reaches the SIP repository or
    the payment service. *)
Lemma handlePaymentCallback_failure {clib : CLibrary} transactionId sipId w :
  txn_keys_wf (transactionRepository w) ->
  exists w',
    handlePaymentCallback transactionId sipId FAILURE w = (w', Returned tt) /\
    sipRepository w' = sipRepository w /\
    paymentService w' = paymentService w /\
    txn_keys_wf (transactionRepository w') /\
    (forall other, other <> transactionId ->
       InMemoryTransactionRepository.getById other (transactionRepository w')
       = InMemoryTransactionRepository.getById other (transactionRepository w)) /\
    InMemoryTransactionRepository.getById transactionId (transactionRepository w')
    = (fun txn => if Transaction.callbackProcessed txn then txn else settled FAILURE txn)
      <$> InMemoryTransactionRepository.getById transactionId (transactionRepository w).
Proof.
  intros Hwf.
  destruct (InMemoryTransactionRepository.getById transactionId (transactionRepository w))
    as [txn|] eqn:Hget.
  - destruct (Transaction.callbackProcessed txn) eqn:Hflag.
    + rewrite (handlePaymentCallback_settled w _ _ _ txn) by done.
      exists w. simpl. by rewrite Hflag.
    + rewrite (handlePaymentCallback_first w _ _ _ txn) by done. simpl.
      eexists. split; [reflexivity|]. simpl. rewrite Hflag.
      split; [done|]. split; [done|].
      split.
      { pose proof (txn_update_wf (settled FAILURE txn) (transactionRepository w) Hwf) as Hu.
        pose proof (Hwf _ _ Hget) as Hid.
        rewrite (txn_update_same_sip _ txn) in Hu by (simpl; rewrite ?Hid; done).
        simpl in Hu. by rewrite Hid in Hu. }
      split.
      * intros other Hne. unfold InMemoryTransactionRepository.getById. simpl.
        by apply lookup_insert_ne.
      * unfold InMemoryTransactionRepository.getById. simpl. apply lookup_insert_eq.
  - rewrite (handlePaymentCallback_unknown w) by done. by exists w.
Qed.

(** X20: [onPaymentCallback] acts at most once per transaction id.  The id
    is marked as processed before the completion handler runs, so it is
    marked however the handler ends; a call for a marked id, with any status,
    returns at once and changes nothing; and without a handler installed the
    call only sets the mark. *)
Theorem payment_callback_once `{RandomDevice} {clib : CLibrary} (w : World) (transactionId : string)
    (status status' : PaymentStatus) :
  let run := onPaymentCallback transactionId status w in
  MockPaymentService.isCallbackProcessed transactionId (paymentService run.1) = true /\
  onPaymentCallback transactionId status' run.1 = (run.1, Returned tt) /\
  (MockPaymentService.isCallbackProcessed transactionId (paymentService w) = true ->
   run = (w, Returned tt)) /\
  (MockPaymentService.completionHandler (paymentService w) = None ->
   run.2 = Returned tt /\
   sipRepository run.1 = sipRepository w /\
   transactionRepository run.1 = transactionRepository w).
Proof.
  intros run.
  assert (Hmarked : forall w0 st,
            is_Some (MockPaymentService.processedCallbacks (paymentService w0) !! transactionId) ->
            onPaymentCallback transactionId st w0 = (w0, Returned tt)).
  { intros w0 st [b Hb]. unfold onPaymentCallback, MockPaymentService.onPaymentCallback.
    by rewrite Hb. }
  assert (Hrun : is_Some (MockPaymentService.processedCallbacks (paymentService run.1)
                            !! transactionId)).
  { subst run. unfold onPaymentCallback, MockPaymentService.onPaymentCallback.
    destruct (MockPaymentService.processedCallbacks (paymentService w) !! transactionId)
      eqn:Hold; [simpl; rewrite Hold; eauto|].
    unfold MockPaymentService.callCompletionHandler. cbn [paymentService setPaymentService].
    cbn [MockPaymentService.completionHandler MockPaymentService.setProcessedCallbacks].
    destruct (MockPaymentService.completionHandler (paymentService w)) as [handler|].
    - unfold callPaymentCallback. rewrite handlePaymentCallback_paymentService.
      simpl. rewrite lookup_insert_eq. eauto.
    - simpl. rewrite lookup_insert_eq. eauto. }
  split; [by apply bool_decide_eq_true|].
  split; [by apply Hmarked|].
  split.
  - intros Hold. apply bool_decide_eq_true in Hold. by apply Hmarked.
  - intros Hnone. subst run. unfold onPaymentCallback, MockPaymentService.onPaymentCallback.
    destruct (MockPaymentService.processedCallbacks (paymentService w) !! transactionId);
      [done|].
    unfold MockPaymentService.callCompletionHandler. cbn [paymentService setPaymentService].
    cbn [MockPaymentService.completionHandler MockPaymentService.setProcessedCallbacks].
    by rewrite Hnone.
Qed.

Lemma ltb_leb x y : (x <? y)%float = true -> (x <=? y)%float = true.
Proof.
  rewrite FloatAxioms.leb_spec, FloatAxioms.ltb_spec. unfold SFleb, SFltb.
  by destruct (SFcompare (Prim2SF x) (Prim2SF y)) as [[]|].
Qed.

Lemma ltb_asym x y : (x <? y)%float = true -> (y <? x)%float = false.
Proof.
  rewrite !FloatAxioms.ltb_spec. unfold SFltb.
  destruct (Prim2SF x) as [[]|[]| |[] mx ex], (Prim2SF y) as [[]|[]| |[] my ey];
    simpl; try congruence;
    change (PosDef.Pos.compare_cont Eq my mx) with (Pos.compare my mx);
    change (PosDef.Pos.compare_cont Eq mx my) with (Pos.compare mx my);
    rewrite (Z.compare_antisym ex ey), (Pos.compare_antisym mx my);
    destruct (ex ?= ey)%Z; simpl; try congruence;
    destruct (mx ?= my)%positive; simpl; congruence.
Qed.

(** NaN, the one number not equal to itself, is below nothing. *)
Lemma eqb_irrefl_ltb x y : (x =? x)%float = false -> (x <? y)%float = false.
Proof.
  rewrite FloatAxioms.eqb_spec, FloatAxioms.ltb_spec. unfold SFeqb, SFltb.
  destruct (Prim2SF x) as [[]|[]| |[] mx ex]; simpl; try congruence;
    change (PosDef.Pos.compare_cont Eq mx mx) with (Pos.compare mx mx);
    rewrite Z.compare_refl, Pos.compare_refl; simpl; congruence.
Qed.

Lemma ltb_zero_ltb_one x : (x <? 0)%float = true -> (x <? 1)%float = true.
Proof.
  rewrite !FloatAxioms.ltb_spec. unfold SFltb.
  change (Prim2SF 0) with (S754_zero false).
  change (Prim2SF 1) with (S754_finite false 4503599627370496 (-52)).
  intros Hneg.
  destruct (Prim2SF x) as [[]|[]| |[] mx ex]; simpl in Hneg; try discriminate; reflexivity.
Qed.

(** X21: [setSuccessRate] stores a probability whatever it is given: the
    stored rate lies between 0 and 1; it is the rate given when that lies
    strictly between 0 and 1, 0 for a rate below 0, and 1 for a rate above 1
    and for NaN; the other fields of the service stay. *)
Theorem success_rate_clamped (rate : float) (s : MockPaymentService.t) :
  let stored := MockPaymentService.successRate (setSuccessRate rate s) in
  (0 <=? stored)%float = true /\
  (stored <=? 1)%float = true /\
  ((0 <? rate)%float = true -> (rate <? 1)%float = true -> stored = rate) /\
  ((rate <? 0)%float = true -> stored = 0%float) /\
  ((1 <? rate)%float = true -> stored = 1%float) /\
  ((rate =? rate)%float = false -> stored = 1%float) /\
  MockPaymentService.pendingPayments (setSuccessRate rate s)
  = MockPaymentService.pendingPayments s /\
  MockPaymentService.processedCallbacks (setSuccessRate rate s)
  = MockPaymentService.processedCallbacks s /\
  MockPaymentService.autoComplete (setSuccessRate rate s) = MockPaymentService.autoComplete s.
Proof.
  intros stored. subst stored. simpl. unfold std_max, std_min.
  split; [|split; [|split; [|split; [|split; [|split; [|done]]]]]].
  - destruct (rate <? 1)%float eqn:H1.
    + destruct (0 <? rate)%float eqn:H0; [by apply ltb_leb | reflexivity].
    + reflexivity.
  - destruct (rate <? 1)%float eqn:H1.
    + destruct (0 <? rate)%float eqn:H0; [by apply ltb_leb | reflexivity].
    + reflexivity.
  - intros H0 H1. by rewrite H1, H0.
  - intros Hneg. by rewrite (ltb_zero_ltb_one _ Hneg), (ltb_asym _ _ Hneg).
  - intros Hbig. by rewrite (ltb_asym _ _ Hbig).
  - intros Hnan. by rewrite (eqb_irrefl_ltb rate 1 Hnan).
Qed.

(** What FAILURE deliveries leave of a transaction: it is settled as FAILURE
    unless it was settled before. *)
Definition failed (txn : Transaction.t) : Transaction.t :=
  if Transaction.callbackProcessed txn then txn else settled FAILURE txn.

Lemma failed_failed txn : failed (failed txn) = failed txn.
Proof. unfold failed. by destruct (Transaction.callbackProcessed txn) eqn:E; simpl; rewrite ?E. Qed.

Section WithCollaborators.
Context `{RandomDevice}.

(** The callback followed by the completion handler, both with FAILURE. *)
Lemma deliver_failure {clib : CLibrary} w transactionId callback :
  txn_keys_wf (transactionRepository w) ->
  exists w',
    bind (callPaymentCallback callback transactionId FAILURE)
      (fun _ => MockPaymentService.callCompletionHandler paymentService callPaymentCallback
                  transactionId FAILURE) w
    = (w', Returned tt) /\
    sipRepository w' = sipRepository w /\
    paymentService w' = paymentService w /\
    txn_keys_wf (transactionRepository w') /\
    (forall other, other <> transactionId ->
       InMemoryTransactionRepository.getById other (transactionRepository w')
       = InMemoryTransactionRepository.getById other (transactionRepository w)) /\
    InMemoryTransactionRepository.getById transactionId (transactionRepository w')
    = failed <$> InMemoryTransactionRepository.getById transactionId (transactionRepository w).
Proof.
  intros Hwf. unfold bind, callPaymentCallback at 1.
  destruct (handlePaymentCallback_failure transactionId (captured_sipId callback) w Hwf)
    as (w1 & Hrun1 & Hs1 & Hp1 & Hwf1 & Ho1 & Ht1).
  rewrite Hrun1. unfold MockPaymentService.callCompletionHandler.
  destruct (MockPaymentService.completionHandler (paymentService w1)) as [handler|].
  - unfold callPaymentCallback.
    destruct (handlePaymentCallback_failure transactionId (captured_sipId handler) w1 Hwf1)
      as (w2 & Hrun2 & Hs2 & Hp2 & Hwf2 & Ho2 & Ht2).
    exists w2. split; [exact Hrun2|].
    split; [congruence|]. split; [congruence|]. split; [exact Hwf2|]. split.
    + intros other Hne. rewrite Ho2, Ho1; done.
    + rewrite Ht2, Ht1.
      destruct (InMemoryTransactionRepository.getById transactionId (transactionRepository w));
        simpl; [|done].
      f_equal. apply failed_failed.
  - exists w1. done.
Qed.

Lemma completePayment_failure {clib : CLibrary} w transactionId :
  txn_keys_wf (transactionRepository w) ->
  exists w',
    completePayment transactionId FAILURE w = (w', Returned tt) /\
    sipRepository w' = sipRepository w /\
    txn_keys_wf (transactionRepository w') /\
    MockPaymentService.pendingPayments (paymentService w')
    = delete transactionId (MockPaymentService.pendingPayments (paymentService w)) /\
    (forall other, other <> transactionId ->
       InMemoryTransactionRepository.getById other (transactionRepository w')
       = InMemoryTransactionRepository.getById other (transactionRepository w)) /\
    InMemoryTransactionRepository.getById transactionId (transactionRepository w')
    = (if bool_decide (is_Some (MockPaymentService.pendingPayments (paymentService w)
                                  !! transactionId))
       then fmap failed else id)
        (InMemoryTransactionRepository.getById transactionId (transactionRepository w)).
Proof.
  intros Hwf. unfold completePayment, MockPaymentService.completePayment.
  destruct (MockPaymentService.pendingPayments (paymentService w) !! transactionId)
    as [[amount callback]|] eqn:Hpending.
  - set (w0 := setPaymentService _ w).
    destruct (deliver_failure w0 transactionId callback Hwf)
      as (w' & Hrun & Hs & Hp & Hwf' & Ho & Ht).
    exists w'. split; [exact Hrun|]. split; [exact Hs|]. split; [exact Hwf'|].
    split; [by rewrite Hp|]. split; [exact Ho|].
    rewrite Ht. rewrite bool_decide_eq_true_2 by eauto. done.
  - exists w. split; [done|]. split; [done|]. split; [done|].
    split; [by rewrite delete_id|]. split; [done|].
    rewrite bool_decide_eq_false_2; [done|]. by intros [? ?].
Qed.

(** The loop of [completeAllPending] with FAILURE, over any list of ids. *)
Lemma completeEach_failure {clib : CLibrary} transactionIds : forall w,
  txn_keys_wf (transactionRepository w) ->
  exists w',
    MockPaymentServiceRest.completeEach paymentService setPaymentService callPaymentCallback
      transactionIds FAILURE w = (w', Returned tt) /\
    sipRepository w' = sipRepository w /\
    (forall k,
       MockPaymentService.pendingPayments (paymentService w') !! k
       = if bool_decide (k ∈ transactionIds) then None
         else MockPaymentService.pendingPayments (paymentService w) !! k) /\
    (forall k,
       InMemoryTransactionRepository.getById k (transactionRepository w')
       = (if bool_decide (k ∈ transactionIds) &&
             bool_decide (is_Some (MockPaymentService.pendingPayments (paymentService w) !! k))
          then fmap failed else id)
           (InMemoryTransactionRepository.getById k (transactionRepository w))).
Proof.
  induction transactionIds as [|x rest IH]; intros w Hwf.
  - exists w. split; [done|]. split; [done|]. split; intros k; done.
  - simpl. unfold bind.
    destruct (completePayment_failure w x Hwf) as (w1 & Hrun1 & Hs1 & Hwf1 & Hp1 & Ho1 & Ht1).
    unfold completePayment in Hrun1. rewrite Hrun1.
    destruct (IH w1 Hwf1) as (w' & Hrun & Hs & Hp & Ht).
    exists w'. split; [exact Hrun|]. split; [congruence|]. split.
    + intros k. rewrite Hp, Hp1.
      destruct (decide (k = x)) as [->|Hne].
      * rewrite lookup_delete_eq.
        rewrite (bool_decide_eq_true_2 (x ∈ x :: rest)) by left.
        by destruct (bool_decide (x ∈ rest)).
      * rewrite lookup_delete_ne by done.
        assert (Hmem : bool_decide (k ∈ x :: rest) = bool_decide (k ∈ rest)).
        { apply bool_decide_ext. rewrite elem_of_cons. naive_solver. }
        by rewrite Hmem.
    + intros k. rewrite Ht, Hp1.
      destruct (decide (k = x)) as [->|Hne].
      * rewrite lookup_delete_eq, Ht1.
        rewrite (bool_decide_eq_true_2 (x ∈ x :: rest)) by left.
        rewrite (bool_decide_eq_false_2 (is_Some None)) by (by intros [? ?]).
        rewrite andb_false_r. simpl. done.
      * rewrite lookup_delete_ne by done. rewrite Ho1 by done.
        assert (Hmem : bool_decide (k ∈ x :: rest) = bool_decide (k ∈ rest)).
        { apply bool_decide_ext. rewrite elem_of_cons. naive_solver. }
        by rewrite Hmem.
Qed.
End WithCollaborators.

(** X22: [completeAllPending] with FAILURE always returns and leaves no
    payment parked; every transaction whose payment was parked and that was
    not settled before is then settled as FAILURE, every other transaction is
    as it was, and the SIP repository is untouched: no SIP advances. *)
Theorem complete_all_pending_failure `{RandomDevice} {clib : CLibrary} (w : World) :
  txn_keys_wf (transactionRepository w) ->
  exists w',
    completeAllPending FAILURE w = (w', Returned tt) /\
    MockPaymentService.getPendingCount (paymentService w') = 0%nat /\
    sipRepository w' = sipRepository w /\
    (forall k txn,
       InMemoryTransactionRepository.getById k (transactionRepository w) = Some txn ->
       InMemoryTransactionRepository.getById k (transactionRepository w')
       = Some (if bool_decide (is_Some (MockPaymentService.pendingPayments (paymentService w)
                                          !! k))
                  && negb (Transaction.callbackProcessed txn)
               then settled FAILURE txn else txn)) /\
    (forall k,
       InMemoryTransactionRepository.getById k (transactionRepository w) = None ->
       InMemoryTransactionRepository.getById k (transactionRepository w') = None).
Proof.
  intros Hwf. unfold completeAllPending, MockPaymentServiceRest.completeAllPending.
  set (pending := MockPaymentService.pendingPayments (paymentService w)).
  destruct (completeEach_failure (map_to_list pending).*1 w Hwf) as (w' & Hrun & Hs & Hp & Ht).
  assert (Hmem : forall k, bool_decide (k ∈ (map_to_list pending).*1)
                           = bool_decide (is_Some (pending !! k))).
  { intros k. apply bool_decide_ext. rewrite list_elem_of_fmap. split.
    - intros ([k' v] & -> & Hin). apply elem_of_map_to_list in Hin. eauto.
    - intros [v Hv]. exists (k, v). split; [done | by apply elem_of_map_to_list]. }
  exists w'. split; [exact Hrun|]. split; [|split; [exact Hs|split]].
  - unfold MockPaymentService.getPendingCount. apply map_size_empty_iff, map_empty.
    intros k. rewrite Hp, Hmem. fold pending.
    destruct (pending !! k) eqn:E; [by rewrite bool_decide_eq_true_2 by eauto|].
    by rewrite bool_decide_eq_false_2 by (by intros [? ?]).
  - intros k txn Hget. rewrite Ht, Hmem, Hget. fold pending.
    destruct (bool_decide (is_Some (pending !! k))); simpl; [|done].
    unfold failed. by destruct (Transaction.callbackProcessed txn).
  - intros k Hget. rewrite Ht, Hget.
    by destruct (_ && _).
Qed.

Section OnSamples.
Existing Instance Sample.utc.

(** The world after a payment for the first installment of the sample SIP
    was parked. *)
Definition world_parked : World :=
  (@executeSIP Sample.math Sample.random Sample.utc Sample.sip1 (DateUtils.createDate 2024 2 1)
     Sample.world_pending).1.
End OnSamples.

Lemma complete_all_pending_failure_witness :
  MockPaymentService.getPendingCount (paymentService world_parked) = 1%nat /\
  exists w',
    @completeAllPending Sample.random Sample.utc FAILURE world_parked = (w', Returned tt) /\
    MockPaymentService.getPendingCount (paymentService w') = 0%nat /\
    Transaction.status
    <$> InMemoryTransactionRepository.getById "TXN_000003" (transactionRepository w')
    = Some FAILURE.
Proof.
  split; [reflexivity|].
  destruct (@complete_all_pending_failure Sample.random Sample.utc world_parked)
    as (w' & Hrun & Hnone & _ & Hsettled & _).
  - apply txn_add_wf, txn_add_wf, txn_add_wf, txn_empty_wf.
  - exists w'. split; [exact Hrun|]. split; [exact Hnone|].
    erewrite Hsettled by reflexivity. reflexivity.
Defined.
End PaymentServiceFacts.

(** ** Portfolios and summaries *)

Module PortfolioFacts.
Import RepositoryFacts ValuationFacts IndexFacts SIPRepositoryFacts.
Import PortfolioServiceImpl PortfolioServiceImplRest.

Lemma setMarketPriceService_same w : setMarketPriceService (marketPriceService w) w = w.
Proof. by destruct w. Qed.

Lemma fold_amounts txns a :
  fold_left (fun total txn => (total + Transaction.amount txn)%float) txns a
  = fold_left PrimFloat.add (map Transaction.amount txns) a.
Proof. revert a. induction txns as [|txn txns IH]; intros a; [done|]. simpl. apply IH. Qed.

Lemma fold_units txns a :
  fold_left (fun total txn => (total + Transaction.units txn)%float) txns a
  = fold_left PrimFloat.add (map Transaction.units txns) a.
Proof. revert a. induction txns as [|txn txns IH]; intros a; [done|]. simpl. apply IH. Qed.

(** What a run of the valuation engine may change: the number of price
    draws, and nothing else. *)
Definition only_draws (w w' : World) : Prop :=
  exists market,
    w' = setMarketPriceService market w /\
    MockMarketPriceService.navData market
    = MockMarketPriceService.navData (marketPriceService w) /\
    MockMarketPriceService.enablePriceFluctuation market
    = MockMarketPriceService.enablePriceFluctuation (marketPriceService w) /\
    MockMarketPriceService.fluctuationRange market
    = MockMarketPriceService.fluctuationRange (marketPriceService w) /\
    (MockMarketPriceService.enablePriceFluctuation (marketPriceService w) = false -> w' = w).

Lemma only_draws_refl w : only_draws w w.
Proof. exists (marketPriceService w). by rewrite setMarketPriceService_same. Qed.

Lemma only_draws_trans w1 w2 w3 : only_draws w1 w2 -> only_draws w2 w3 -> only_draws w1 w3.
Proof.
  intros (m1 & -> & Hn1 & He1 & Hr1 & Hoff1) (m2 & -> & Hn2 & He2 & Hr2 & Hoff2).
  simpl in *. exists m2.
  split; [done|]. split; [congruence|]. split; [congruence|]. split; [congruence|].
  intros Hoff. rewrite <- (Hoff1 Hoff) at 2. apply Hoff2. congruence.
Qed.

Section WithCollaborators.
Context `{MathLib} `{RandomDevice}.

Lemma getCurrentNAV_draws fundId w :
  only_draws w (onMarketPriceService (MockMarketPriceService.getCurrentNAV fundId) w).1 /\
  ((onMarketPriceService (MockMarketPriceService.getCurrentNAV fundId) w).2
   = Thrown (FundNotFoundException fundId)
   <-> MockMarketPriceService.navData (marketPriceService w) !! fundId = None) /\
  (forall nav,
     MockMarketPriceService.enablePriceFluctuation (marketPriceService w) = false ->
     MockMarketPriceService.navData (marketPriceService w) !! fundId = Some nav ->
     (onMarketPriceService (MockMarketPriceService.getCurrentNAV fundId) w).2 = Returned nav).
Proof.
  unfold onMarketPriceService, zoom, MockMarketPriceService.getCurrentNAV.
  destruct (MockMarketPriceService.navData (marketPriceService w) !! fundId) as [nav|] eqn:E.
  - destruct (MockMarketPriceService.enablePriceFluctuation (marketPriceService w)) eqn:Hf;
      simpl.
    + split; [|split; [split; discriminate | discriminate]].
      eexists. split; [reflexivity|]. simpl. rewrite Hf. done.
    + split; [|split; [split; discriminate | by intros ? _ [= ->]]].
      rewrite setMarketPriceService_same. apply only_draws_refl.
  - simpl. split; [|split; [done | discriminate]].
    rewrite setMarketPriceService_same. apply only_draws_refl.
Qed.

(** One item: the SIP it was built for, the totals the two total queries
    give, and a world in which only the price draws moved. *)
Lemma buildPortfolioItem_frame sip w :
  exists item w',
    buildPortfolioItem sip w = (w', Returned item) /\
    only_draws w w' /\
    item_sip item = sip /\
    totalInvested item = calculateTotalInvested (SIP.id sip) w /\
    totalUnits item = calculateTotalUnits (SIP.id sip) w /\
    currentValue item = (totalUnits item * currentNav item)%float /\
    (MockMarketPriceService.navData (marketPriceService w) !! SIP.fundId sip = None ->
     currentNav item = 0%float) /\
    (forall nav,
       MockMarketPriceService.enablePriceFluctuation (marketPriceService w) = false ->
       MockMarketPriceService.navData (marketPriceService w) !! SIP.fundId sip = Some nav ->
       currentNav item = nav).
Proof.
  destruct (getCurrentNAV_draws (SIP.fundId sip) w) as (Hdraws & Hthrown & Hplain).
  unfold buildPortfolioItem, bind, get, try_catch, ret.
  unfold calculateTotalInvested, calculateTotalUnits. rewrite fold_amounts, fold_units.
  destruct (onMarketPriceService _ w) as [w1 [nav|e]] eqn:Hrun; simpl in *.
  - destruct Hdraws as (market & -> & Hrest). simpl. rewrite accumulate_totals.
    eexists _, _. split; [reflexivity|]. split; [by exists market|].
    split; [done|]. split; [done|]. split; [done|]. split; [done|].
    split.
    + intros Hnone. apply Hthrown in Hnone. discriminate.
    + intros nav' Hoff Hnav. specialize (Hplain nav' Hoff Hnav). by injection Hplain.
  - destruct Hdraws as (market & -> & Hrest). simpl. rewrite accumulate_totals.
    eexists _, _. split; [reflexivity|]. split; [by exists market|].
    split; [done|]. split; [done|]. split; [done|]. split; [done|].
    split; [done|].
    intros nav' Hoff Hnav. specialize (Hplain nav' Hoff Hnav). discriminate.
Qed.

(** The loop over the SIPs: one item per SIP, in the order of the SIPs. *)
Lemma buildItems_frame sips : forall w,
  exists items w',
    buildItems sips w = (w', Returned items) /\
    only_draws w w' /\
    item_sip <$> items = sips /\
    Forall (fun item =>
              totalInvested item = calculateTotalInvested (SIP.id (item_sip item)) w /\
              totalUnits item = calculateTotalUnits (SIP.id (item_sip item)) w /\
              currentValue item = (totalUnits item * currentNav item)%float) items.
Proof.
  induction sips as [|sip sips IH]; intros w.
  - exists [], w. split; [done|]. split; [apply only_draws_refl|]. split; [done|]. constructor.
  - destruct (buildPortfolioItem_frame sip w)
      as (item & w1 & Hrun1 & Hd1 & Hsip & Hinv & Hunits & Hval & _).
    destruct (IH w1) as (items & w' & Hrun & Hd & Hsips & Hall).
    exists (item :: items), w'. split.
    { simpl. unfold bind at 1. rewrite Hrun1. unfold bind at 1. by rewrite Hrun. }
    split; [by eapply only_draws_trans|].
    split; [by rewrite fmap_cons, Hsip, Hsips|].
    constructor; [by rewrite Hsip|].
    destruct Hd1 as (market & -> & _).
    eapply Forall_impl; [exact Hall|]. done.
Qed.
End WithCollaborators.

Lemma getUserPortfolio_items `{MathLib} `{RandomDevice} (w : World) (userId : string) :
  exists items w',
    getUserPortfolio userId w = (w', Returned items) /\
    only_draws w w' /\
    item_sip <$> items = InMemorySIPRepository.getByUserId userId (sipRepository w) /\
    Forall (fun item =>
              totalInvested item = calculateTotalInvested (SIP.id (item_sip item)) w /\
              totalUnits item = calculateTotalUnits (SIP.id (item_sip item)) w /\
              currentValue item = (totalUnits item * currentNav item)%float) items.
Proof. unfold getUserPortfolio. apply buildItems_frame. Qed.

(** X23: [getUserPortfolio] never throws.  It returns one item for each SIP
    the repository lists for the user, in the same order, and
    [filterByState] one for each of those in the state; each item carries
    the totals that [calculateTotalInvested] and [calculateTotalUnits] give
    for its SIP, and its value is its units times its NAV.  Neither writes
    anything but the count of price draws, and nothing at all when price
    fluctuation is off. *)
Theorem user_portfolio `{MathLib} `{RandomDevice} (w : World) (userId : string)
    (state : SIPState) :
  exists items w' selected w'',
    getUserPortfolio userId w = (w', Returned items) /\
    filterByState userId state w = (w'', Returned selected) /\
    item_sip <$> items = InMemorySIPRepository.getByUserId userId (sipRepository w) /\
    item_sip <$> selected
    = List.filter (fun sip => bool_decide (SIP.state sip = state)) (item_sip <$> items) /\
    Forall (fun item =>
              totalInvested item = calculateTotalInvested (SIP.id (item_sip item)) w /\
              totalUnits item = calculateTotalUnits (SIP.id (item_sip item)) w /\
              currentValue item = (totalUnits item * currentNav item)%float)
      (items ++ selected) /\
    only_draws w w' /\ only_draws w w'' /\
    (InMemorySIPRepository.getByUserId userId (sipRepository w) = [] -> items = []).
Proof.
  unfold getUserPortfolio, filterByState.
  destruct (buildItems_frame (InMemorySIPRepository.getByUserId userId (sipRepository w)) w)
    as (items & w' & Hrun & Hd & Hsips & Hall).
  destruct (buildItems_frame
              (InMemorySIPRepository.getByUserIdAndState userId state (sipRepository w)) w)
    as (selected & w'' & Hrun' & Hd' & Hsips' & Hall').
  exists items, w', selected, w''.
  split; [exact Hrun|]. split; [exact Hrun'|]. split; [exact Hsips|].
  split; [by rewrite Hsips', Hsips|].
  split; [by apply Forall_app|]. split; [exact Hd|]. split; [exact Hd'|].
  intros Hnone. rewrite Hnone in Hsips. by destruct items.
Qed.

(** The number of SIPs in a state among those of a list. *)
Definition count_state (state : SIPState) (sips : list SIP.t) : Z :=
  Z.of_nat (length (List.filter (fun sip => bool_decide (SIP.state sip = state)) sips)).

Lemma fold_addItem items : forall acc,
  let summary := fold_left addItem items acc in
  summary_totalInvested summary
  = fold_left PrimFloat.add (map totalInvested items) (summary_totalInvested acc) /\
  summary_totalCurrentValue summary
  = fold_left PrimFloat.add (map currentValue items) (summary_totalCurrentValue acc) /\
  summary_totalUnits summary
  = fold_left PrimFloat.add (map totalUnits items) (summary_totalUnits acc) /\
  summary_gainLoss summary = summary_gainLoss acc /\
  summary_gainLossPercentage summary = summary_gainLossPercentage acc /\
  activeSIPCount summary = activeSIPCount acc + count_state ACTIVE (item_sip <$> items) /\
  pausedSIPCount summary = pausedSIPCount acc + count_state PAUSED (item_sip <$> items) /\
  stoppedSIPCount summary = stoppedSIPCount acc + count_state STOPPED (item_sip <$> items).
Proof.
  unfold count_state.
  induction items as [|item items IH]; intros acc; simpl.
  - repeat split; lia.
  - destruct (IH (addItem acc item)) as (H1 & H2 & H3 & H4 & H5 & H6 & H7 & H8).
    rewrite H1, H2, H3, H4, H5, H6, H7, H8. simpl.
    repeat split; try reflexivity; destruct (SIP.state (item_sip item)); simpl;
      change (list_fmap SIPPortfolioItem SIP.t item_sip items) with (item_sip <$> items); lia.
Qed.

Lemma count_state_total sips :
  count_state ACTIVE sips + count_state PAUSED sips + count_state STOPPED sips
  = Z.of_nat (length sips).
Proof.
  unfold count_state. induction sips as [|sip sips IH]; [done|].
  simpl. destruct (SIP.state sip); simpl; lia.
Qed.

(** X24: [getPortfolioSummary] never throws.  Its three counts are the
    numbers of the user's SIPs that are ACTIVE, PAUSED and STOPPED, and they
    add up to the number of the user's SIPs; its totals are the sums over the
    user's items, added from 0.0 in the order of the items; the gain or loss
    is the total value minus the total invested, and the percentage is the
    quotient times 100 when the total invested is above zero and 0 otherwise.
    A user without SIPs gets the all-zero summary. *)
Theorem portfolio_summary `{MathLib} `{RandomDevice} (w : World) (userId : string) :
  let sips := InMemorySIPRepository.getByUserId userId (sipRepository w) in
  exists summary items w',
    getPortfolioSummary userId w = (w', Returned summary) /\
    getUserPortfolio userId w = (w', Returned items) /\
    only_draws w w' /\
    activeSIPCount summary = count_state ACTIVE sips /\
    pausedSIPCount summary = count_state PAUSED sips /\
    stoppedSIPCount summary = count_state STOPPED sips /\
    activeSIPCount summary + pausedSIPCount summary + stoppedSIPCount summary
    = Z.of_nat (length sips) /\
    summary_totalInvested summary = float_sum (map totalInvested items) /\
    summary_totalCurrentValue summary = float_sum (map currentValue items) /\
    summary_totalUnits summary = float_sum (map totalUnits items) /\
    summary_gainLoss summary
    = (summary_totalCurrentValue summary - summary_totalInvested summary)%float /\
    summary_gainLossPercentage summary
    = (if (0 <? summary_totalInvested summary)%float
       then (summary_gainLoss summary / summary_totalInvested summary * 100)%float
       else 0%float) /\
    (sips = [] -> summary = emptySummary).
Proof.
  intros sips.
  destruct (getUserPortfolio_items w userId) as (items & w' & Hrun & Hd & Hsips & _).
  fold sips in Hsips.
  destruct (fold_addItem items emptySummary) as (H1 & H2 & H3 & H4 & H5 & H6 & H7 & H8).
  exists (closeSummary (fold_left addItem items emptySummary)), items, w'.
  split; [unfold getPortfolioSummary, bind; by rewrite Hrun|].
  split; [exact Hrun|]. split; [exact Hd|].
  rewrite Hsips in H6, H7, H8. simpl in *.
  split; [exact H6|]. split; [exact H7|]. split; [exact H8|].
  split; [rewrite H6, H7, H8; apply count_state_total|].
  split; [exact H1|]. split; [exact H2|]. split; [exact H3|].
  split; [reflexivity|].
  split; [by rewrite H5|].
  intros Hnone. rewrite Hnone in Hsips. destruct items; [|done]. reflexivity.
Qed.

(** X25: the three valuation queries against the items.  For a SIP stored
    under its id, [calculateTotalInvested] and [calculateTotalUnits] give the
    totals of its portfolio item; with price fluctuation off and the fund
    priced, [calculateCurrentValue] returns the item's current value and
    changes nothing.  Where the item of a SIP with an unpriced fund carries a
    NAV of 0, [calculateCurrentValue] throws FundNotFound; and for an id that
    is not stored it throws SIPNotFound. *)
Theorem valuation_queries `{MathLib} `{RandomDevice} (w : World) (sipId : string) :
  (InMemorySIPRepository.getById sipId (sipRepository w) = None ->
   calculateCurrentValue sipId w = (w, Thrown (SIPNotFoundException sipId))) /\
  (forall sip,
     InMemorySIPRepository.getById sipId (sipRepository w) = Some sip ->
     SIP.id sip = sipId ->
     exists item w',
       buildPortfolioItem sip w = (w', Returned item) /\
       totalInvested item = calculateTotalInvested sipId w /\
       totalUnits item = calculateTotalUnits sipId w /\
       (MockMarketPriceService.navData (marketPriceService w) !! SIP.fundId sip = None ->
        currentNav item = 0%float /\
        calculateCurrentValue sipId w = (w, Thrown (FundNotFoundException (SIP.fundId sip)))) /\
       (forall nav,
          MockMarketPriceService.enablePriceFluctuation (marketPriceService w) = false ->
          MockMarketPriceService.navData (marketPriceService w) !! SIP.fundId sip = Some nav ->
          currentValue item = (calculateTotalUnits sipId w * nav)%float /\
          calculateCurrentValue sipId w = (w, Returned (currentValue item)))).
Proof.
  split.
  - intros Hnone. unfold calculateCurrentValue. by rewrite Hnone.
  - intros sip Hget Hid.
    destruct (buildPortfolioItem_frame sip w)
      as (item & w' & Hrun & _ & _ & Hinv & Hunits & Hval & Hzero & Hnav).
    rewrite Hid in Hinv, Hunits.
    exists item, w'. split; [exact Hrun|]. split; [exact Hinv|]. split; [exact Hunits|].
    split.
    + intros Hnone. split; [by apply Hzero|].
      unfold calculateCurrentValue. rewrite Hget.
      unfold bind, onMarketPriceService, zoom, MockMarketPriceService.getCurrentNAV.
      rewrite Hnone. by rewrite setMarketPriceService_same.
    + intros nav Hoff Hpriced. rewrite Hval, Hunits, (Hnav nav Hoff Hpriced).
      split; [reflexivity|].
      unfold calculateCurrentValue. rewrite Hget.
      unfold bind, onMarketPriceService, zoom, MockMarketPriceService.getCurrentNAV.
      rewrite Hpriced, Hoff. by rewrite setMarketPriceService_same.
Qed.
End PortfolioFacts.

(** ** What no sequence of service calls can do *)

Module ServiceInvariantFacts.
Import InMemorySIPRepository SIPServiceImpl RepositoryFacts IndexFacts SIPRepositoryFacts.














Section OnSamples.
Existing Instance Sample.utc.

End OnSamples.
End ServiceInvariantFacts.

(** ** Prices, the fund catalogue and the users *)

Module CatalogueFacts.
Import MockMarketPriceService MockMarketPriceServiceRest.

(** NaN is not at most anything. *)
Lemma eqb_irrefl_leb x y : (x =? x)%float = false -> (x <=? y)%float = false.
Proof.
  rewrite FloatAxioms.eqb_spec, FloatAxioms.leb_spec. unfold SFeqb, SFleb.
  destruct (Prim2SF x) as [[]|[]| |[] mx ex]; simpl; try congruence;
    change (PosDef.Pos.compare_cont Eq mx mx) with (Pos.compare mx mx);
    rewrite Z.compare_refl, Pos.compare_refl; simpl; congruence.
Qed.

(** X28: [updateNAV] refuses a price that is zero or below with a validation
    error and changes nothing then; every other price, NaN included, is
    stored: [getStoredNAV] returns it, [getCurrentNAV] returns it when
    fluctuation is off, and the prices of the other funds stay.
    [simulateMarketMovement] multiplies every price on record by one plus the
    percentage without any check, and prices no new fund; [setNAVs] stores
    the prices given over the ones on record and keeps the rest. *)
Theorem price_updates `{RandomDevice} (s : t) (fundId : string) (nav : float) :
  let run := updateNAV fundId nav s in
  ((nav <=? 0)%float = true ->
   run = (s, Thrown (ValidationException "NAV must be positive"))) /\
  ((nav <=? 0)%float = false ->
   run.2 = Returned tt /\
   (getStoredNAV fundId run.1).2 = Returned nav /\
   (enablePriceFluctuation s = false -> getCurrentNAV fundId run.1 = (run.1, Returned nav)) /\
   (forall other, other <> fundId ->
      (getStoredNAV other run.1).2 = (getStoredNAV other s).2)) /\
  ((nav =? nav)%float = false -> run.2 = Returned tt) /\
  (forall percentage other,
     (getStoredNAV other (simulateMarketMovement percentage s)).2
     = match (getStoredNAV other s).2 with
       | Returned price => Returned (price * (1 + percentage))%float
       | Thrown e => Thrown e
       end) /\
  (forall navs other,
     (getStoredNAV other (setNAVs navs s)).2
     = match navs !! other with
       | Some price => Returned price
       | None => (getStoredNAV other s).2
       end).
Proof.
  intros run. subst run. unfold updateNAV.
  split; [by intros ->|]. split; [|split; [|split]].
  - intros ->. simpl. split; [done|].
    unfold getStoredNAV, getCurrentNAV. simpl. rewrite lookup_insert_eq.
    split; [done|]. split; [intros Hoff; by rewrite Hoff|].
    intros other Hne. rewrite lookup_insert_ne by congruence.
    by destruct (navData s !! other).
  - intros Hnan. by rewrite (eqb_irrefl_leb nav 0 Hnan).
  - intros percentage other. unfold getStoredNAV, simulateMarketMovement. simpl.
    rewrite lookup_fmap. by destruct (navData s !! other).
  - intros navs other. unfold getStoredNAV, setNAVs. simpl.
    rewrite lookup_union. by destruct (navs !! other), (navData s !! other).
Qed.

(** X29: [addFund] refuses a fund with an empty id, then one with an empty
    name, then one whose NAV is zero or below, each with its own validation
    error and without touching the catalogue.  Any other fund is stored under
    its id, replacing a fund of that id: [getFundById] returns it,
    [fundExists] holds, the other funds stay.  [getFundById] throws
    FundNotFound exactly for the ids [fundExists] denies, and the two filters
    return exactly the stored funds of the category or risk level. *)
Theorem fund_catalogue (r : gmap string MutualFund.t) (fund : MutualFund.t) :
  let run := MutualFundServiceImpl.addFund fund r in
  (MutualFund.id fund = "" ->
   run = (r, Thrown (ValidationException "Fund ID cannot be empty"))) /\
  (MutualFund.id fund <> "" -> MutualFund.name fund = "" ->
   run = (r, Thrown (ValidationException "Fund name cannot be empty"))) /\
  (MutualFund.id fund <> "" -> MutualFund.name fund <> "" ->
   (MutualFund.nav fund <=? 0)%float = true ->
   run = (r, Thrown (ValidationException "Fund NAV must be positive"))) /\
  (MutualFund.id fund <> "" -> MutualFund.name fund <> "" ->
   (MutualFund.nav fund <=? 0)%float = false ->
   run.2 = Returned tt /\
   MutualFundServiceImpl.getFundById (MutualFund.id fund) run.1 = (run.1, Returned fund) /\
   MutualFundServiceImpl.fundExists (MutualFund.id fund) run.1 = true /\
   (forall other, other <> MutualFund.id fund ->
      (MutualFundServiceImpl.getFundById other run.1).2
      = (MutualFundServiceImpl.getFundById other r).2)) /\
  (forall fundId,
     (MutualFundServiceImpl.getFundById fundId r).2 = Thrown (FundNotFoundException fundId)
     <-> MutualFundServiceImpl.fundExists fundId r = false) /\
  (forall category stored,
     stored ∈ MutualFundServiceImpl.filterByCategory category r
     <-> (exists k, r !! k = Some stored) /\ MutualFund.category stored = category) /\
  (forall riskLevel stored,
     stored ∈ MutualFundServiceImpl.filterByRiskLevel riskLevel r
     <-> (exists k, r !! k = Some stored) /\ MutualFund.riskLevel stored = riskLevel).
Proof.
  intros run. subst run. unfold MutualFundServiceImpl.addFund.
  assert (Hvalues : forall stored : MutualFund.t,
            stored ∈ map_iteration r <-> exists k, r !! k = Some stored).
  { intros stored. unfold map_iteration. rewrite list_elem_of_fmap. split.
    - intros ([k v] & -> & Hin). apply elem_of_map_to_list in Hin. eauto.
    - intros [k Hk]. exists (k, stored). split; [done | by apply elem_of_map_to_list]. }
  split; [intros Hid; by rewrite bool_decide_eq_true_2|].
  split; [intros Hid Hname; by rewrite bool_decide_eq_false_2, bool_decide_eq_true_2|].
  split; [intros Hid Hname Hnav; by rewrite !bool_decide_eq_false_2, Hnav|].
  split; [|split; [|split]].
  - intros Hid Hname Hnav. rewrite !bool_decide_eq_false_2, Hnav by done. simpl.
    unfold MutualFundServiceImpl.getFundById, MutualFundServiceImpl.fundExists,
      InMemoryMutualFundRepository.getById, InMemoryMutualFundRepository.exists_,
      InMemoryMutualFundRepository.add.
    rewrite lookup_insert_eq. split; [done|]. split; [done|].
    split; [apply bool_decide_eq_true; eauto|].
    intros other Hne. rewrite lookup_insert_ne by congruence.
    by destruct (r !! other).
  - intros fundId.
    unfold MutualFundServiceImpl.getFundById, MutualFundServiceImpl.fundExists,
      InMemoryMutualFundRepository.getById, InMemoryMutualFundRepository.exists_.
    destruct (r !! fundId) eqn:E; simpl.
    + split; discriminate.
    + done.
  - intros category stored.
    unfold MutualFundServiceImpl.filterByCategory, InMemoryMutualFundRepository.getByCategory.
    by rewrite list_elem_of_In, filter_In, <- list_elem_of_In, Hvalues, bool_decide_eq_true.
  - intros riskLevel stored.
    unfold MutualFundServiceImpl.filterByRiskLevel, InMemoryMutualFundRepository.getByRiskLevel.
    by rewrite list_elem_of_In, filter_In, <- list_elem_of_In, Hvalues, bool_decide_eq_true.
Qed.
End CatalogueFacts.

Module UserRepositoryFacts.
Import InMemoryUserRepository.

(** The repository is consistent when every user is stored under their own
    id and the email index maps exactly the emails of the stored users to
    their ids. *)
Definition users_consistent (r : t) : Prop :=
  (forall k user, storage r !! k = Some user -> User.id user = k) /\
  (forall email id,
     emailIndex r !! email = Some id
     <-> exists user, storage r !! id = Some user /\ User.email user = email).

Lemma users_empty_consistent : users_consistent empty.
Proof.
  split; [intros k user H; simpl in H; by rewrite lookup_empty in H|].
  intros email id. simpl. rewrite lookup_empty. split; [done|].
  intros (user & H & _). by rewrite lookup_empty in H.
Qed.

(** X30: on a consistent user repository [getByEmail] finds exactly the
    stored user with the email.  The repository stays consistent when a user
    with an unused id and an unused email is added, when a stored user is
    updated to an email that is unused or their own, and when any id is
    removed.  Adding a user under an email another user has takes the email
    over: [getByEmail] then returns the new user. *)
Theorem user_repository_consistent (r : t) (user : User.t) (id : string) :
  users_consistent r ->
  (forall email found,
     getByEmail email r = Some found
     <-> getById (User.id found) r = Some found /\ User.email found = email) /\
  (exists_ (User.id user) r = false -> getByEmail (User.email user) r = None ->
   users_consistent (add user r)) /\
  (getByEmail (User.email user) r = None \/
   getByEmail (User.email user) r = getById (User.id user) r ->
   users_consistent (update user r).1) /\
  users_consistent (remove id r).1 /\
  getByEmail (User.email user) (add user r) = Some user /\
  getById (User.id user) (add user r) = Some user.
Proof.
  intros [Hkeys Hidx].
  assert (Hfind : forall email found,
            getByEmail email r = Some found
            <-> getById (User.id found) r = Some found /\ User.email found = email).
  { intros email found. unfold getByEmail, getById. split.
    - destruct (emailIndex r !! email) as [k|] eqn:E; [|done].
      intros Hget. pose proof (Hkeys _ _ Hget) as <-. split; [done|].
      apply Hidx in E as (user' & Hget' & Hemail). congruence.
    - intros [Hget Hemail].
      assert (E : emailIndex r !! email = Some (User.id found)) by (apply Hidx; eauto).
      by rewrite E. }
  assert (Hunused : forall email, getByEmail email r = None -> emailIndex r !! email = None).
  { intros email Hnone. destruct (emailIndex r !! email) as [k|] eqn:E; [|done].
    apply Hidx in E as (user' & Hget' & Hemail).
    assert (Hsome : getByEmail email r = Some user').
    { apply Hfind. by rewrite (Hkeys _ _ Hget'). }
    congruence. }
  split; [exact Hfind|]. split; [|split; [|split; [|split]]].
  - intros Hfresh Hemail. apply bool_decide_eq_false in Hfresh.
    assert (Hnone : storage r !! User.id user = None)
      by (destruct (storage r !! User.id user); [exfalso; eauto | done]).
    apply Hunused in Hemail.
    split; simpl.
    + intros k u. rewrite lookup_insert. case_decide; [naive_solver | apply Hkeys].
    + intros email k. rewrite lookup_insert. case_decide as He.
      * subst email. split.
        -- intros [= <-]. exists user. by rewrite lookup_insert_eq.
        -- intros (u & Hget & Hu). rewrite lookup_insert in Hget.
           case_decide as Hk; [by subst|].
           assert (E : emailIndex r !! User.email user = Some k) by (apply Hidx; eauto).
           congruence.
      * rewrite Hidx. split.
        -- intros (u & Hget & Hu). exists u. rewrite lookup_insert_ne; [done|]. congruence.
        -- intros (u & Hget & Hu). rewrite lookup_insert in Hget.
           case_decide; [naive_solver | eauto].
  - intros Hemail. unfold update.
    destruct (storage r !! User.id user) as [old|] eqn:Hold; [|by split].
    assert (Hown : forall k, emailIndex r !! User.email user = Some k -> k = User.id user).
    { intros k E. destruct Hemail as [Hnone | Hsame].
      - apply Hunused in Hnone. congruence.
      - unfold getByEmail, getById in Hsame. rewrite E, Hold in Hsame.
        apply Hidx in E as (u & Hget & _). rewrite Hget in Hsame.
        injection Hsame as ->. by rewrite <- (Hkeys _ _ Hget), (Hkeys _ _ Hold). }
    assert (Eold : emailIndex r !! User.email old = Some (User.id user))
      by (apply Hidx; eauto).
    split; simpl.
    + intros k u. rewrite lookup_insert. case_decide; [naive_solver | apply Hkeys].
    + intros email k. rewrite lookup_insert. case_decide as He.
      * subst email. split.
        -- intros [= <-]. exists user. by rewrite lookup_insert_eq.
        -- intros (u & Hget & Hu). rewrite lookup_insert in Hget.
           case_decide as Hk; [by subst|].
           exfalso. apply Hk. symmetry. apply Hown. apply Hidx. eauto.
      * rewrite lookup_delete. case_decide as Hd.
        -- subst email. split; [done|].
           intros (u & Hget & Hu). rewrite lookup_insert in Hget.
           case_decide as Hk; [naive_solver|].
           assert (E : emailIndex r !! User.email old = Some k) by (apply Hidx; eauto).
           congruence.
        -- rewrite Hidx. split.
           ++ intros (u & Hget & Hu). exists u. split; [|done].
              rewrite lookup_insert_ne; [done|]. intros <-.
              rewrite Hold in Hget. injection Hget as <-. done.
           ++ intros (u & Hget & Hu). rewrite lookup_insert in Hget.
              case_decide; [naive_solver | eauto].
  - unfold remove. destruct (storage r !! id) as [old|] eqn:Hold; [|by split].
    assert (Eold : emailIndex r !! User.email old = Some id) by (apply Hidx; eauto).
    split; simpl.
    + intros k u Hget. apply lookup_delete_Some in Hget as [_ Hget]. by apply Hkeys.
    + intros email k. rewrite lookup_delete. case_decide as Hd.
      * subst email. split; [done|].
        intros (u & Hget & Hu). apply lookup_delete_Some in Hget as [Hne Hget].
        assert (E : emailIndex r !! User.email old = Some k) by (apply Hidx; eauto).
        congruence.
      * rewrite Hidx. split.
        -- intros (u & Hget & Hu). exists u. split; [|done].
           apply lookup_delete_Some. split; [|done]. intros <-.
           rewrite Hold in Hget. injection Hget as <-. done.
        -- intros (u & Hget & Hu). apply lookup_delete_Some in Hget as [_ Hget]. eauto.
  - unfold getByEmail, getById, add. simpl. by rewrite !lookup_insert_eq.
  - unfold getById, add. simpl. by rewrite lookup_insert_eq.
Qed.

Lemma user_repository_consistent_witness :
  users_consistent Main.users /\
  getByEmail "demo@example.com" Main.users
  = Some (User.Build "USER_000001" "Demo User" "demo@example.com").
Proof.
  destruct (user_repository_consistent empty
              (User.Build "USER_000001" "Demo User" "demo@example.com") ""
              users_empty_consistent)
    as (_ & Hadd & _ & _ & Hfound & _).
  split; [apply Hadd; reflexivity | exact Hfound].
Defined.
End UserRepositoryFacts.
